(** * The Jazz Night feed scraper: a shallow embedding and its properties

    The repository holds two Node scripts.  [scrape-jazz-night.mjs] rebuilds
    the RSS feed from the archive page (module [Scrape]);
    [update-jazz-night.mjs] merges the newest episodes into the feed that is
    already on disk (module [Update]).  Both lean on the host: JavaScript
    strings, regular expressions, [Date], [Array.prototype.sort] and
    [slice] (module [Js]), and on the xml2js library (class [XmlLib]).

    Strings are Rocq strings of 8-bit units.  A time value is an integer
    number of milliseconds since the epoch; a [Date] is [option Z], [None]
    being the invalid date whose time value is NaN. *)

From Stdlib Require Import ZArith String Ascii List Lia Bool.
From stdpp Require Import gmap strings list sorting.

Open Scope string_scope.
Open Scope list_scope.
Open Scope Z_scope.

(* ================================================================== *)
(** * The host: strings, regular expressions, dates, sort and slice   *)
(* ================================================================== *)

Module Js.

(** ** Strings *)

Definition code (c : ascii) : nat := nat_of_ascii c.

(** the double quote, and the strings that hold it and the line feed *)
Definition quote : ascii := ascii_of_nat 34.
Definition qt : string := String quote EmptyString.
Definition nl : string := String (ascii_of_nat 10) EmptyString.

Definition in_range (lo hi c : ascii) : bool :=
  (code lo <=? code c)%nat && (code c <=? code hi)%nat.

(** [\d] *)
Definition is_digit (c : ascii) : bool := in_range "0" "9" c.

(** [\w] *)
Definition is_word (c : ascii) : bool :=
  in_range "a" "z" c || in_range "A" "Z" c || is_digit c
  || Ascii.eqb c "_".

(** [\s], and the characters [trim] removes, among the 8-bit units:
    tab, line feed, vertical tab, form feed, carriage return, space. *)
Definition is_space (c : ascii) : bool :=
  ((9 <=? code c)%nat && (code c <=? 13)%nat) || Ascii.eqb c " ".

Definition lower (c : ascii) : ascii :=
  if in_range "A" "Z" c then ascii_of_nat (code c + 32) else c.

Fixpoint starts_with (p s : string) : bool :=
  match p, s with
  | EmptyString, _ => true
  | String a p', String b s' => Ascii.eqb a b && starts_with p' s'
  | String _ _, EmptyString => false
  end.

(** [s.includes(sub)] *)
Fixpoint includes (s sub : string) : bool :=
  starts_with sub s ||
  match s with
  | EmptyString => false
  | String _ s' => includes s' sub
  end.

Fixpoint trimStart (s : string) : string :=
  match s with
  | String c s' => if is_space c then trimStart s' else s
  | EmptyString => EmptyString
  end.

Fixpoint all_space (s : string) : bool :=
  match s with
  | EmptyString => true
  | String c s' => is_space c && all_space s'
  end.

Fixpoint trimEnd (s : string) : string :=
  match s with
  | EmptyString => EmptyString
  | String c s' => if all_space s then EmptyString else String c (trimEnd s')
  end.

(** [s.trim()] *)
Definition trim (s : string) : string := trimEnd (trimStart s).

(** [s.replace(/c/g, r)] for a pattern that is the single character [c] *)
Fixpoint replace_char (c : ascii) (r : string) (s : string) : string :=
  match s with
  | EmptyString => EmptyString
  | String a s' =>
      if Ascii.eqb a c then r +:+ replace_char c r s'
      else String a (replace_char c r s')
  end.

(** [s.replace(/\s+/g, " ")]: every maximal run of white space becomes
    one space.  [in_run] tells that the previous character was white
    space, so that the run has already been replaced. *)
Fixpoint collapse_from (in_run : bool) (s : string) : string :=
  match s with
  | EmptyString => EmptyString
  | String a s' =>
      if is_space a
      then (if in_run then collapse_from true s'
            else String " " (collapse_from true s'))
      else String a (collapse_from false s')
  end.

Definition collapse_spaces (s : string) : string := collapse_from false s.

Fixpoint has_char (c : ascii) (s : string) : bool :=
  match s with
  | EmptyString => false
  | String a s' => Ascii.eqb a c || has_char c s'
  end.

(** [s.replace(/<[^>]*>/g, "")]: a [<] opens a match when some [>]
    follows it, and the match runs to the first such [>]; a [<] with no
    [>] after it is kept. *)
Fixpoint strip_from (in_tag : bool) (s : string) : string :=
  match s with
  | EmptyString => EmptyString
  | String a s' =>
      if in_tag
      then (if Ascii.eqb a ">" then strip_from false s'
            else strip_from true s')
      else if Ascii.eqb a "<" && has_char ">" s'
           then strip_from true s'
           else String a (strip_from false s')
  end.

Definition strip_tags (s : string) : string := strip_from false s.

(** [s.split("/")] *)
Fixpoint split_on (c : ascii) (s : string) : list string :=
  match s with
  | EmptyString => [EmptyString]
  | String a s' =>
      if Ascii.eqb a c then EmptyString :: split_on c s'
      else match split_on c s' with
           | p :: ps => String a p :: ps
           | [] => [String a EmptyString]
           end
  end.

(** [s.substring(i, i + n)] is [String.substring i n s]. *)

(** ** Regular expressions

    The patterns of the two scripts are sequences of literals, character
    classes with a greedy bounded or unbounded repetition, alternations
    of literals and word boundaries.  [run] is the backtracking matcher
    at one position; [prev] is the character before the position, which
    [\b] looks at, and [acc] collects the matched text, last character
    first. *)

Inductive atom : Type :=
| Lit (s : string)                           (* the text s *)
| LitI (s : string)                          (* s under the i flag *)
| Alt (ss : list string)                     (* (s1|s2|...) *)
| Rep (p : ascii -> bool) (lo : nat) (hi : option nat)
                                             (* p{lo,hi}; hi = None: no bound *)
| Bnd.                                       (* \b *)

Definition regex := list atom.

(** consume the literal [p] at the head of [s] *)
Fixpoint eat (ci : bool) (p s : string) (prev : option ascii) (acc : list ascii)
  : option (string * option ascii * list ascii) :=
  match p with
  | EmptyString => Some (s, prev, acc)
  | String a p' =>
      match s with
      | String b s' =>
          if (if ci then Ascii.eqb (lower a) (lower b) else Ascii.eqb a b)
          then eat ci p' s' (Some b) (b :: acc)
          else None
      | EmptyString => None
      end
  end.

Definition word_at (o : option ascii) : bool :=
  match o with Some c => is_word c | None => false end.

Definition head_of (s : string) : option ascii :=
  match s with String c _ => Some c | EmptyString => None end.

Definition below (n : nat) (hi : option nat) : bool :=
  match hi with Some h => (n <? h)%nat | None => true end.

Fixpoint run (r : regex) (prev : option ascii) (s : string) (acc : list ascii)
  {struct r} : option (list ascii) :=
  match r with
  | [] => Some acc
  | Lit p :: r' =>
      match eat false p s prev acc with
      | Some (s', prev', acc') => run r' prev' s' acc'
      | None => None
      end
  | LitI p :: r' =>
      match eat true p s prev acc with
      | Some (s', prev', acc') => run r' prev' s' acc'
      | None => None
      end
  | Alt ss :: r' =>
      (fix alts (ss : list string) : option (list ascii) :=
         match ss with
         | [] => None
         | p :: ss' =>
             match (match eat false p s prev acc with
                    | Some (s', prev', acc') => run r' prev' s' acc'
                    | None => None
                    end) with
             | Some res => Some res
             | None => alts ss'
             end
         end) ss
  | Rep p lo hi :: r' =>
      (fix rep (n : nat) (prev : option ascii) (s : string) (acc : list ascii)
         {struct s} : option (list ascii) :=
         match (match s with
                | String c s' =>
                    if below n hi && p c
                    then rep (S n) (Some c) s' (c :: acc)
                    else None
                | EmptyString => None
                end) with
         | Some res => Some res
         | None => if (lo <=? n)%nat then run r' prev s acc else None
         end) 0%nat prev s acc
  | Bnd :: r' =>
      if xorb (word_at prev) (word_at (head_of s))
      then run r' prev s acc
      else None
  end.

Definition string_of_rev (acc : list ascii) : string :=
  string_of_list_ascii (rev acc).

(** [s.match(r)] without the g flag: the text of the leftmost match. *)
Fixpoint search (r : regex) (prev : option ascii) (s : string) : option string :=
  match run r prev s [] with
  | Some acc => Some (string_of_rev acc)
  | None =>
      match s with
      | EmptyString => None
      | String c s' => search r (Some c) s'
      end
  end.

Definition re_match (r : regex) (s : string) : option string := search r None s.

(** [r.test(s)] *)
Definition re_test (r : regex) (s : string) : bool :=
  match re_match r s with Some _ => true | None => false end.

(** ** Dates

    A time value counts milliseconds from 1970-01-01T00:00:00Z.  The
    calendar is the proleptic Gregorian one; [civil_from_days] gives the
    year, the month (1..12) and the day of the month (1..31) of a day
    number, [days_from_civil] goes back (the host's [MakeDay]). *)

Definition msPerSecond : Z := 1000.
Definition msPerMinute : Z := 60000.
Definition msPerHour : Z := 3600000.
Definition msPerDay : Z := 86400000.

Definition Day (t : Z) : Z := t / msPerDay.
Definition HourFromTime (t : Z) : Z := (t / msPerHour) mod 24.
Definition MinFromTime (t : Z) : Z := (t / msPerMinute) mod 60.
Definition SecFromTime (t : Z) : Z := (t / msPerSecond) mod 60.
Definition WeekDay (t : Z) : Z := (Day t + 4) mod 7.

Definition civil_from_days (z : Z) : Z * Z * Z :=
  let z := z + 719468 in
  let era := z / 146097 in
  let doe := z mod 146097 in
  let yoe := (doe - doe / 1460 + doe / 36524 - doe / 146096) / 365 in
  let doy := doe - (365 * yoe + yoe / 4 - yoe / 100) in
  let mp := (5 * doy + 2) / 153 in
  let d := doy - (153 * mp + 2) / 5 + 1 in
  let m := if mp <? 10 then mp + 3 else mp - 9 in
  let y := yoe + era * 400 in
  ((if m <=? 2 then y + 1 else y), m, d).

Definition days_from_civil (y m d : Z) : Z :=
  let y := if m <=? 2 then y - 1 else y in
  let era := y / 400 in
  let yoe := y mod 400 in
  let mp := if 2 <? m then m - 3 else m + 9 in
  let doy := (153 * mp + 2) / 5 + d - 1 in
  let doe := yoe * 365 + yoe / 4 - yoe / 100 + doy in
  era * 146097 + doe - 719468.

Definition is_leap (y : Z) : bool :=
  (y mod 4 =? 0) && (negb (y mod 100 =? 0) || (y mod 400 =? 0)).

Definition days_in_month (y m : Z) : Z :=
  if m =? 2 then (if is_leap y then 29 else 28)
  else if (m =? 4) || (m =? 6) || (m =? 9) || (m =? 11) then 30
  else 31.

Definition YearFromTime (t : Z) : Z := fst (fst (civil_from_days (Day t))).
Definition MonthFromTime (t : Z) : Z := snd (fst (civil_from_days (Day t))).
Definition DateFromTime (t : Z) : Z := snd (civil_from_days (Day t)).

(** the time value of a calendar date and a time of day, in UTC *)
Definition MakeDate (y m d h mi s : Z) : Z :=
  days_from_civil y m d * msPerDay + h * msPerHour + mi * msPerMinute
  + s * msPerSecond.

Definition digit (n : Z) : ascii := ascii_of_nat (48 + Z.to_nat n).

Definition digit_val (c : ascii) : option Z :=
  if is_digit c then Some (Z.of_nat (code c) - 48) else None.

Definition pad2 (n : Z) : string :=
  String (digit (n / 10)) (String (digit (n mod 10)) EmptyString).

Definition pad4 (n : Z) : string :=
  String (digit (n / 1000)) (String (digit (n / 100 mod 10))
    (String (digit (n / 10 mod 10)) (String (digit (n mod 10)) EmptyString))).

Fixpoint decimal_rev (fuel : nat) (n : Z) : list ascii :=
  match fuel with
  | O => []
  | S fuel' =>
      if n <? 10 then [digit n]
      else digit (n mod 10) :: decimal_rev fuel' (n / 10)
  end.

(** the decimal digits of [n >= 0] *)
Definition decimal (n : Z) : string :=
  string_of_rev (decimal_rev (S (Z.to_nat (Z.log2 n))) n).

(** the year as [toUTCString] writes it: a minus sign for a negative
    year, then at least four digits *)
Definition year_string (y : Z) : string :=
  (if y <? 0 then "-" else "")
  +:+ (if Z.abs y <? 10000 then pad4 (Z.abs y) else decimal (Z.abs y)).

Definition day_names : list string :=
  ["Sun"; "Mon"; "Tue"; "Wed"; "Thu"; "Fri"; "Sat"].

Definition month_names : list string :=
  ["Jan"; "Feb"; "Mar"; "Apr"; "May"; "Jun";
   "Jul"; "Aug"; "Sep"; "Oct"; "Nov"; "Dec"].

Definition name_at (names : list string) (i : Z) : string :=
  nth (Z.to_nat i) names "".

(** the position of [s] in [names], counted from [i] *)
Fixpoint index_from (i : Z) (names : list string) (s : string) : option Z :=
  match names with
  | [] => None
  | n :: ns => if String.eqb n s then Some i else index_from (i + 1) ns s
  end.

Definition Date : Type := option Z.

Definition utc_string (t : Z) : string :=
  name_at day_names (WeekDay t) +:+ ", " +:+ pad2 (DateFromTime t) +:+ " "
  +:+ name_at month_names (MonthFromTime t - 1) +:+ " "
  +:+ year_string (YearFromTime t) +:+ " "
  +:+ pad2 (HourFromTime t) +:+ ":" +:+ pad2 (MinFromTime t) +:+ ":"
  +:+ pad2 (SecFromTime t) +:+ " GMT".

(** [d.toUTCString()] *)
Definition toUTCString (d : Date) : string :=
  match d with
  | Some t => utc_string t
  | None => "Invalid Date"
  end.

(** a string of decimal digits as a number *)
Fixpoint number_from (acc : Z) (s : string) : option Z :=
  match s with
  | EmptyString => Some acc
  | String c s' =>
      match digit_val c with
      | Some v => number_from (10 * acc + v) s'
      | None => None
      end
  end.

Definition number (s : string) : option Z :=
  match s with
  | EmptyString => None
  | _ => number_from 0 s
  end.

(** The date-only form [YYYY-MM-DD] of the standard date-time format:
    a real calendar date is midnight UTC of that day. *)
Definition parse_iso_date (s : string) : option Z :=
  if (String.length s =? 10)%nat
     && String.eqb (substring 4 1 s) "-" && String.eqb (substring 7 1 s) "-"
  then
    match number (substring 0 4 s), number (substring 5 2 s),
          number (substring 8 2 s) with
    | Some y, Some m, Some d =>
        if (1 <=? m) && (m <=? 12) && (1 <=? d) && (d <=? days_in_month y m)
        then Some (MakeDate y m d 0 0 0)
        else None
    | _, _, _ => None
    end
  else None.

(** a number with a minus sign or without *)
Definition signed_number (s : string) : option Z :=
  match s with
  | String c s' =>
      if Ascii.eqb c "-" then option_map Z.opp (number s') else number s
  | EmptyString => None
  end.

(** The text [toUTCString] writes is read back to the time value it was
    written from: the fields are the words of the text, and the text is
    accepted when the time value they make is written as that very text. *)
Definition parse_utc_string (s : string) : option Z :=
  match split_on " " s with
  | [_; dd; mon; yyyy; time; _] =>
      match split_on ":" time with
      | [hh; mm; ss] =>
          match number dd, index_from 1 month_names mon, signed_number yyyy,
                number hh, number mm, number ss with
          | Some d, Some m, Some y, Some h, Some mi, Some sec =>
              let t := MakeDate y m d h mi sec in
              if String.eqb (utc_string t) s then Some t else None
          | _, _, _, _, _, _ => None
          end
      | _ => None
      end
  | _ => None
  end.

(** What the host's [Date.parse] makes of any other text is left to the
    implementation by the language standard: it is a parameter. *)
Class Host := { other_parse : string -> option Z }.

(** [new Date(s)], as a time value or NaN *)
Definition Date_parse {host : Host} (s : string) : Date :=
  match parse_iso_date s with
  | Some t => Some t
  | None =>
      match parse_utc_string s with
      | Some t => Some t
      | None => other_parse s
      end
  end.

(** [a - b] on dates: NaN as soon as one of them is invalid *)
Definition Date_sub (a b : Date) : option Z :=
  match a, b with
  | Some x, Some y => Some (x - y)
  | _, _ => None
  end.

(** ** [Array.prototype.sort] and [slice]

    The sort is stable, and a comparator result that is NaN counts as
    zero.  For a comparator that orders the elements consistently every
    stable sort returns the same array, the one this insertion sort
    returns; [b] moves in front of [a] only when [cmp a b] is positive. *)

Definition goes_after (v : option Z) : bool :=
  match v with Some n => 0 <? n | None => false end.

Fixpoint insert {A} (cmp : A -> A -> option Z) (x : A) (l : list A) : list A :=
  match l with
  | [] => [x]
  | y :: l' =>
      if goes_after (cmp x y) then y :: insert cmp x l' else x :: l
  end.

Fixpoint sort {A} (cmp : A -> A -> option Z) (l : list A) : list A :=
  match l with
  | [] => []
  | x :: l' => insert cmp x (sort cmp l')
  end.

(** [l.slice(0, e)]: a negative [e] counts from the end of the array. *)
Definition slice0 {A} (e : Z) (l : list A) : list A :=
  let len := Z.of_nat (length l) in
  let last := if e <? 0 then Z.max (len + e) 0 else Z.min e len in
  firstn (Z.to_nat last) l.

End Js.

(* ================================================================== *)
(** * What the two scripts share                                      *)
(* ================================================================== *)

(** The record an extraction pass makes for one episode. *)
Record RawEpisode := {
  title : string;
  link : string;
  dateText : string;
  audioUrl : string;
  description : string
}.

(** The page, as far as the scripts look at it.  An anchor has its
    resolved [href], its text and its parent element; of the parent the
    scripts read the tag name and the text. *)
Record Element := { tagName : string; elementText : string }.

Record Anchor := {
  href : string;
  textContent : string;
  parentElement : option Element
}.

(** The object a string is when used as a condition: the empty string is
    false, any other string true. *)
Definition truthy (s : string) : bool := negb (String.eqb s "").

(** [a || b] on strings *)
Definition or_else (a b : string) : string := if truthy a then a else b.

Module Shared.
Import Js.

(** [escapeXml] and [sanitizeDescription] have the same text in both
    scripts. *)
Definition escapeXml (str : string) : string :=
  replace_char "'" "&apos;"
    (replace_char quote "&quot;"
       (replace_char ">" "&gt;"
          (replace_char "<" "&lt;"
             (replace_char "&" "&amp;" str)))).

Definition sanitizeDescription (desc : string) : string :=
  trim (collapse_spaces (strip_tags desc)).

(** [/\b(January|...|December)\s+\d{1,2},\s+\d{4}\b/] *)
Definition fullMonthDate : regex :=
  [Bnd;
   Alt ["January"; "February"; "March"; "April"; "May"; "June"; "July";
        "August"; "September"; "October"; "November"; "December"];
   Rep is_space 1 None; Rep is_digit 1 (Some 2%nat); Lit ",";
   Rep is_space 1 None; Rep is_digit 4 (Some 4%nat); Bnd].

(** [/\/20\d{2}\//] *)
Definition yearInPath : regex :=
  [Lit "/20"; Rep is_digit 2 (Some 2%nat); Lit "/"].

(** The test both scripts put on a title anchor: it has text, it is
    neither the download nor the embed link, and its path holds a year. *)
Definition qualifies (el : Anchor) : bool :=
  truthy (trim (textContent el))
  && negb (includes (href el) "ondemand.npr.org")
  && negb (includes (href el) "player/embed")
  && re_test yearInPath (href el).

(** [titleAnchor?.textContent?.trim() || "Untitled episode"] *)
Definition title_of (titleAnchor : option Anchor) : string :=
  match titleAnchor with
  | Some a => or_else (trim (textContent a)) "Untitled episode"
  | None => "Untitled episode"
  end.

(** [titleAnchor?.href || audioUrl] *)
Definition link_of (titleAnchor : option Anchor) (audioUrl : string) : string :=
  match titleAnchor with
  | Some a => or_else (href a) audioUrl
  | None => audioUrl
  end.

(** the text after the first occurrence of [sub] in [s] *)
Fixpoint after_first (sub s : string) : option string :=
  if starts_with sub s
  then Some (substring (String.length sub) (String.length s) s)
  else match s with
       | EmptyString => None
       | String _ s' => after_first sub s'
       end.

(** The bullet and the middle dot are written in UTF-8. *)
Definition bullet : string := "•".
Definition listenDot : string := "Listen ·".

(** the text after the bullet, white space collapsed and trimmed *)
Definition bullet_description (contextText : string) : string :=
  match after_first bullet contextText with
  | Some rest => trim (collapse_spaces rest)
  | None => ""
  end.

(** The filter that ends both extraction passes: an episode is kept
    unless its [audioUrl] has been seen. *)
Fixpoint dedup (seen : gset string) (results : list RawEpisode)
  : list RawEpisode :=
  match results with
  | [] => []
  | ep :: rest =>
      if bool_decide (audioUrl ep ∈ seen) then dedup seen rest
      else ep :: dedup ({[audioUrl ep]} ∪ seen) rest
  end.

End Shared.

(* ================================================================== *)
(** * scrape-jazz-night.mjs: the full build                           *)
(* ================================================================== *)

Module Scrape.
Import Js Shared.

(** An [article.item] of the archive page: the anchors inside its first
    [li.audio-tool-download] if it has one, all its anchors in document
    order, its text, and the texts of its [p], [span] and [div]
    elements in document order. *)
Record Article := {
  downloadLi : option (list Anchor);
  anchors : list Anchor;
  articleText : string;
  blocks : list string
}.

(** An episode with its date resolved, as [main] hands it to [buildRss] *)
Record Episode := {
  raw : RawEpisode;
  dateObj : Date;
  pubDate : string;
  guid : string
}.

(** What the expansion loop sees of the page in one round: the count of
    episode containers before the click, the number of load-more
    buttons, whether the first one is visible, whether the click went
    through, and the count after the wait. *)
Record Round := {
  currentEpisodeCount : Z;
  buttons : nat;
  visible : bool;
  clicked : bool;
  newEpisodeCount : Z
}.

Record Counters := {
  clickCount : Z;
  lastEpisodeCount : Z;
  noChangeCount : Z
}.

(** why the loop was left *)
Inductive Stop : Type :=
| ReachedLimit | MaxClicks | NoButton | NotVisible | ClickFailed | Stalled.

Definition maxClicks : Z := 50.

Section Config.
Context {host : Host}.
(** [MAX_EPISODES], read from the environment or the command line *)
Variable MAX_EPISODES : Z.

Definition parseDateToRss (dateText : string) (fallback : Date) : string :=
  if negb (truthy dateText) || String.eqb (trim dateText) ""
  then toUTCString fallback
  else
    let d := Date_parse dateText in
    let d :=
      match d with
      | Some _ => d
      | None =>
          if includes dateText "/"
          then match split_on "/" dateText with
               | [p0; p1; p2] => Date_parse (p0 +:+ "/" +:+ p1 +:+ "/" +:+ p2)
               | _ => d
               end
          else d
      end in
    match d with
    | Some _ => toUTCString d
    | None => toUTCString fallback
    end.

(** *** [expandAllStories] *)

Definition start : Counters :=
  {| clickCount := 0; lastEpisodeCount := 0; noChangeCount := 0 |}.

(** One turn of the [while (true)] loop: the reason of a [break], or
    the counters the next turn starts with. *)
Definition turn (c : Counters) (p : Round) : Stop + Counters :=
  if MAX_EPISODES <=? currentEpisodeCount p then inl ReachedLimit
  else if maxClicks <=? clickCount c then inl MaxClicks
  else if (buttons p =? 0)%nat then inl NoButton
  else if negb (visible p) then inl NotVisible
  else
    let clicks := clickCount c + 1 in
    if negb (clicked p) then inl ClickFailed
    else if newEpisodeCount p =? lastEpisodeCount c
    then
      let n := noChangeCount c + 1 in
      if 3 <=? n then inl Stalled
      else inr {| clickCount := clicks;
                  lastEpisodeCount := newEpisodeCount p;
                  noChangeCount := n |}
    else inr {| clickCount := clicks;
                lastEpisodeCount := newEpisodeCount p;
                noChangeCount := 0 |}.

(** The loop against the page [page], whose answers in the turn
    numbered [i] are [page i].  It gives the reason of the exit and the
    number of turns that were run to the end, or [None] when [fuel]
    turns did not reach an exit. *)
Fixpoint loop (fuel : nat) (page : nat -> Round) (i : nat) (c : Counters)
  : option (Stop * nat) :=
  match fuel with
  | O => None
  | S fuel' =>
      match turn c (page i) with
      | inl why => Some (why, i)
      | inr c' => loop fuel' page (S i) c'
      end
  end.

Definition expandAllStories (fuel : nat) (page : nat -> Round)
  : option (Stop * nat) :=
  loop fuel page 0%nat start.

(** *** [scrapeChannelImage] *)

(** An [img] of the page: its [alt], its [title] and its resolved [src];
    an attribute that is not there reads as the empty string. *)
Record Img := { alt : string; imgTitle : string; src : string }.

(** [/jazz night in america/i] *)
Definition showName : regex := [LitI "jazz night in america"].

Definition named (img : Img) : bool :=
  re_test showName (or_else (alt img) "" +:+ " " +:+ or_else (imgTitle img) "").

(** the images of the page in document order *)
Definition scrapeChannelImage (imgs : list Img) : string :=
  let hero :=
    match List.find named imgs with
    | Some img => Some img
    | None => head imgs
    end in
  match hero with
  | Some img => src img
  | None => ""
  end.

(** *** [scrapeEpisodes] *)

(** [/\/(\d{4})\/\d{2}\/(\d{8})/] *)
Definition urlDate : regex :=
  [Lit "/"; Rep is_digit 4 (Some 4%nat); Lit "/";
   Rep is_digit 2 (Some 2%nat); Lit "/"; Rep is_digit 8 (Some 8%nat)].

(** [/\b(Jan|...|Dec)\s+\d{1,2},\s+\d{4}\b/] *)
Definition shortMonthDate : regex :=
  [Bnd;
   Alt ["Jan"; "Feb"; "Mar"; "Apr"; "May"; "Jun";
        "Jul"; "Aug"; "Sep"; "Oct"; "Nov"; "Dec"];
   Rep is_space 1 None; Rep is_digit 1 (Some 2%nat); Lit ",";
   Rep is_space 1 None; Rep is_digit 4 (Some 4%nat); Bnd].

(** [/\b\d{4}-\d{2}-\d{2}\b/] *)
Definition isoDate : regex :=
  [Bnd; Rep is_digit 4 (Some 4%nat); Lit "-"; Rep is_digit 2 (Some 2%nat);
   Lit "-"; Rep is_digit 2 (Some 2%nat); Bnd].

(** [/\b\d{1,2}\/\d{1,2}\/\d{4}\b/] *)
Definition slashDate : regex :=
  [Bnd; Rep is_digit 1 (Some 2%nat); Lit "/"; Rep is_digit 1 (Some 2%nat);
   Lit "/"; Rep is_digit 4 (Some 4%nat); Bnd].

(** Strategy 1.  The second group of [urlDate] is the last eight
    characters of the match, which is seventeen characters long. *)
Definition urlDateText (audioUrl : string) : string :=
  match re_match urlDate audioUrl with
  | Some m =>
      let dateStr := substring 9 8 m in
      if (String.length dateStr =? 8)%nat
      then substring 0 4 dateStr +:+ "-" +:+ substring 4 2 dateStr
           +:+ "-" +:+ substring 6 2 dateStr
      else ""
  | None => ""
  end.

(** the date text of an article, strategies 1 to 5 *)
Definition extractDateText (audioUrl contextText : string) : string :=
  let dateText := urlDateText audioUrl in
  if negb (truthy dateText)
  then
    match re_match fullMonthDate contextText with
    | Some m => m
    | None =>
        match re_match shortMonthDate contextText with
        | Some m => m
        | None =>
            match re_match isoDate contextText with
            | Some m => m
            | None =>
                match re_match slashDate contextText with
                | Some m => m
                | None => dateText
                end
            end
        end
    end
  else dateText.

Definition findTitleAnchor (article : Article) : option Anchor :=
  List.find qualifies (anchors article).

Definition describes (title block : string) : bool :=
  truthy block && (40 <? String.length block)%nat
  && negb (includes block title) && negb (includes block listenDot)
  && negb (includes block "Download") && negb (includes block "Embed").

Definition extractDescription (title : string) (article : Article) : string :=
  let description := bullet_description (articleText article) in
  if negb (truthy description)
  then match List.find (describes title) (List.map trim (blocks article)) with
       | Some block => block
       | None => description
       end
  else description.

(** the body of the loop over the articles: the record pushed for one
    article, if any *)
Definition scrapeArticle (article : Article) : option RawEpisode :=
  match downloadLi article with
  | None => None
  | Some inLi =>
      match List.find (fun a => includes (href a) "ondemand.npr.org") inLi with
      | None => None
      | Some downloadAnchor =>
          if negb (truthy (href downloadAnchor)) then None
          else
            let audioUrl := href downloadAnchor in
            let titleAnchor := findTitleAnchor article in
            let title := title_of titleAnchor in
            Some {| title := title;
                    link := link_of titleAnchor audioUrl;
                    dateText := extractDateText audioUrl (articleText article);
                    audioUrl := audioUrl;
                    description := extractDescription title article |}
      end
  end.

(** the value of [page.evaluate] in [scrapeEpisodes] *)
Definition extract (articleItems : list Article) : list RawEpisode :=
  dedup ∅ (omap scrapeArticle articleItems).

Definition scrapeEpisodes (articleItems : list Article) : list RawEpisode :=
  let episodes := extract articleItems in
  if MAX_EPISODES <? Z.of_nat (length episodes)
  then slice0 MAX_EPISODES episodes
  else episodes.

(** *** [main] and [buildRss] *)

(** The step of [rawEpisodes.map] in [main]; [now] is what the clock
    shows if [new Date()] is called. *)
Definition toEpisode (now : Z) (ep : RawEpisode) : Episode :=
  let dateObj :=
    if truthy (dateText ep) then Date_parse (dateText ep) else Some now in
  {| raw := ep;
     dateObj := dateObj;
     pubDate := parseDateToRss (or_else (dateText ep) "") dateObj;
     guid := audioUrl ep |}.

(** The map over the raw episodes.  [clock i] is the time the [i]-th
    episode would read off the clock. *)
Fixpoint toEpisodes (clock : nat -> Z) (i : nat) (eps : list RawEpisode)
  : list Episode :=
  match eps with
  | [] => []
  | ep :: rest => toEpisode (clock i) ep :: toEpisodes clock (S i) rest
  end.

(** [(a, b) => b.dateObj - a.dateObj] *)
Definition newestFirst (a b : Episode) : option Z :=
  Date_sub (dateObj b) (dateObj a).

(** the episodes [buildRss] writes, in the order it writes them *)
Definition feedEpisodes (episodes : list Episode) : list Episode :=
  slice0 MAX_EPISODES (sort newestFirst episodes).

(** the texts of one [<item>], in the order of its elements: title,
    link, guid, pubDate, description, enclosure url *)
Record ItemText := {
  itemTitle : string;
  itemLink : string;
  itemGuid : string;
  itemPubDate : string;
  itemDescription : string;
  itemEnclosure : string
}.

Variable FEED_LINK : string.

Definition itemText (lastBuildDate : string) (ep : Episode) : ItemText :=
  {| itemTitle := escapeXml (or_else (title (raw ep)) "Untitled episode");
     itemLink := escapeXml (or_else (link (raw ep)) FEED_LINK);
     itemGuid := escapeXml (or_else (guid ep) (audioUrl (raw ep)));
     itemPubDate := escapeXml (or_else (pubDate ep) lastBuildDate);
     itemDescription :=
       escapeXml (sanitizeDescription (or_else (description (raw ep)) ""));
     itemEnclosure := escapeXml (audioUrl (raw ep)) |}.

Definition itemXml (i : ItemText) : string :=
  "  <item>" +:+ nl
  +:+ "    <title>" +:+ itemTitle i +:+ "</title>" +:+ nl
  +:+ "    <link>" +:+ itemLink i +:+ "</link>" +:+ nl
  +:+ "    <guid isPermaLink=" +:+ qt +:+ "false" +:+ qt +:+ ">"
  +:+ itemGuid i +:+ "</guid>" +:+ nl
  +:+ "    <pubDate>" +:+ itemPubDate i +:+ "</pubDate>" +:+ nl
  +:+ "    <description>" +:+ itemDescription i +:+ "</description>" +:+ nl
  +:+ "    <enclosure url=" +:+ qt +:+ itemEnclosure i +:+ qt
  +:+ " length=" +:+ qt +:+ "0" +:+ qt
  +:+ " type=" +:+ qt +:+ "audio/mpeg" +:+ qt +:+ " />" +:+ nl
  +:+ "  </item>".

(** the items [buildRss] writes, [lastBuildDate] being the time of the
    build as [toUTCString] writes it *)
Definition feedItems (lastBuildDate : string) (episodes : list Episode)
  : list ItemText :=
  List.map (itemText lastBuildDate) (feedEpisodes episodes).

(** the channel metadata and where the feed is hosted *)
Variable SELF_FEED_URL : string.

Definition FEED_TITLE : string :=
  "Jazz Night In America: The Radio Program (Full Archive)".
Definition FEED_DESCRIPTION : string :=
  "Scraped archive of NPR's Jazz Night In America radio episodes, with direct MP3 enclosures, formatted for Zune.".
Definition FEED_LANGUAGE : string := "en-us".

Definition imageBlock (channelImageUrl : string) : string :=
  if truthy channelImageUrl
  then String.concat nl
         [ "  <image>";
           "    <url>" +:+ escapeXml channelImageUrl +:+ "</url>";
           "    <title>" +:+ escapeXml FEED_TITLE +:+ "</title>";
           "    <link>" +:+ escapeXml FEED_LINK +:+ "</link>";
           "  </image>";
           "  <itunes:image href=" +:+ qt +:+ escapeXml channelImageUrl +:+ qt
           +:+ " />";
           "" ]
  else "".

(** [buildRss(episodes, channelImageUrl)], [now] being the time of the
    build *)
Definition buildRss (episodes : list Episode) (channelImageUrl : string)
    (now : Z) : string :=
  let lastBuildDate := toUTCString (Some now) in
  let itemsXml :=
    String.concat (nl +:+ nl) (List.map itemXml (feedItems lastBuildDate episodes)) in
  "<?xml version=" +:+ qt +:+ "1.0" +:+ qt +:+ " encoding=" +:+ qt +:+ "UTF-8"
  +:+ qt +:+ "?>" +:+ nl
  +:+ "<rss version=" +:+ qt +:+ "2.0" +:+ qt +:+ nl
  +:+ "     xmlns:itunes=" +:+ qt +:+ "http://www.itunes.com/dtds/podcast-1.0.dtd"
  +:+ qt +:+ nl
  +:+ "     xmlns:atom=" +:+ qt +:+ "http://www.w3.org/2005/Atom" +:+ qt +:+ ">"
  +:+ nl
  +:+ "<channel>" +:+ nl
  +:+ "  <title>" +:+ escapeXml FEED_TITLE +:+ "</title>" +:+ nl
  +:+ "  <link>" +:+ escapeXml FEED_LINK +:+ "</link>" +:+ nl
  +:+ "  <atom:link href=" +:+ qt +:+ escapeXml SELF_FEED_URL +:+ qt
  +:+ " rel=" +:+ qt +:+ "self" +:+ qt +:+ " type=" +:+ qt
  +:+ "application/rss+xml" +:+ qt +:+ " />" +:+ nl
  +:+ "  <description>" +:+ escapeXml (sanitizeDescription FEED_DESCRIPTION)
  +:+ "</description>" +:+ nl
  +:+ "  <language>" +:+ escapeXml FEED_LANGUAGE +:+ "</language>" +:+ nl
  +:+ "  <lastBuildDate>" +:+ escapeXml lastBuildDate +:+ "</lastBuildDate>"
  +:+ nl +:+ nl
  +:+ imageBlock channelImageUrl
  +:+ itemsXml
  +:+ nl +:+ "</channel>" +:+ nl +:+ "</rss>" +:+ nl.

(** The feed one run of [main] writes for the articles of the expanded
    page and the channel image found on it.  The clock is read once for
    every episode without a date text and once for the build. *)
Definition main (clock : nat -> Z) (articleItems : list Article)
    (channelImageUrl : string) : string :=
  let rawEpisodes := scrapeEpisodes articleItems in
  buildRss (toEpisodes clock 0 rawEpisodes) channelImageUrl
    (clock (length rawEpisodes)).

End Config.
End Scrape.

(* ================================================================== *)
(** * update-jazz-night.mjs: the incremental update                   *)
(* ================================================================== *)

(** What the update needs of xml2js: how the builder writes the character
    data of a text node and the value of an attribute, and how the parser
    reads either back. *)
Class XmlLib := {
  textEscape : string -> string;
  attrEscape : string -> string;
  unescape : string -> string
}.

Module Update.
Import Js Shared.

Definition MAX_EPISODES : Z := 100.
Definition MAX_NEW_EPISODES_TO_CHECK : Z := 20.
Definition FEED_LINK : string :=
  "https://www.npr.org/series/347174538/jazz-night-radio".

(** An element of the page with the anchors below it in document order,
    its text, and the texts of the [p], [span] and [div] below it. *)
Record Node := {
  nodeAnchors : list Anchor;
  nodeText : string;
  nodeBlocks : list string
}.

(** An anchor of the page with what the loop reads around it: the
    container ([closest] of article, li, section, div, else the parent,
    else the body) and the ancestors of the container, nearest first. *)
Record Located := {
  anchor : Anchor;
  container : Node;
  ancestors : list Node
}.

(** An episode with its date resolved *)
Record Episode := {
  raw : RawEpisode;
  dateObj : Date;
  pubDate : string;
  guid : string
}.

(** An [<item>] as xml2js holds it: the text of each child element, and
    the [url] attribute of the enclosure if there is one. *)
Record Item := {
  itemTitle : string;
  itemLink : string;
  itemGuid : string;
  itemPubDate : string;
  itemDescription : string;
  itemEnclosure : option string
}.

(** The feed as xml2js holds it: the items, the last build date, and the
    other children of the channel by name. *)
Record Feed := {
  item : list Item;
  lastBuildDate : string;
  channel : list (string * string)
}.

(** The feed file: the character data and attribute values as written. *)
Record Document := {
  docItems : list Item;
  docLastBuildDate : string;
  docChannel : list (string * string)
}.

Section Run.
Context {host : Host} {xml : XmlLib}.

Definition parseDateToRss (dateText : string) (fallback : Date) : string :=
  match Date_parse dateText with
  | Some t => toUTCString (Some t)
  | None => toUTCString fallback
  end.

Definition extractExistingAudioUrls (feedData : Feed) : gset string :=
  foldl (fun audioUrls it =>
           match itemEnclosure it with
           | Some url => if truthy url then {[url]} ∪ audioUrls else audioUrls
           | None => audioUrls
           end) ∅ (item feedData).

(** *** [scrapeRecentEpisodes] *)

(** [/Download/i] and [/H[12]/i] *)
Definition downloadWord : regex := [LitI "Download"].
Definition isH1orH2 (c : ascii) : bool := Ascii.eqb c "1" || Ascii.eqb c "2".
Definition headingTag : regex := [LitI "H"; Rep isH1orH2 1 (Some 1%nat)].

Definition isDownload (a : Anchor) : bool :=
  re_test downloadWord (trim (textContent a))
  && includes (href a) "ondemand.npr.org".

Definition underHeading (el : Anchor) : bool :=
  re_test headingTag
    (match parentElement el with Some p => tagName p | None => "" end).

Definition MAX_DEPTH : nat := 10.

(** The loop of [findTitleAnchor]: [depth] turns are left, [chain] is the
    node and its ancestors. *)
Fixpoint findTitleAnchorFrom (depth : nat) (chain : list Node) : option Anchor :=
  match depth, chain with
  | S depth', node :: up =>
      let candidates := List.filter qualifies (nodeAnchors node) in
      match candidates with
      | first :: _ =>
          Some (match List.find underHeading candidates with
                | Some headingCandidate => headingCandidate
                | None => first
                end)
      | [] => findTitleAnchorFrom depth' up
      end
  | _, _ => None
  end.

Definition findTitleAnchor (start : Located) : option Anchor :=
  findTitleAnchorFrom MAX_DEPTH (container start :: ancestors start).

Definition contextOf (titleAnchor : option Anchor) (c : Node) : string :=
  match titleAnchor with
  | Some a =>
      match parentElement a with
      | Some p => or_else (elementText p) ""
      | None => or_else (nodeText c) ""
      end
  | None => or_else (nodeText c) ""
  end.

Definition extractDateText (contextText : string) : string :=
  match re_match fullMonthDate contextText with
  | Some m => m
  | None => ""
  end.

Definition describes (title block : string) : bool :=
  truthy block && (40 <? String.length block)%nat
  && negb (includes block title) && negb (includes block listenDot).

Definition extractDescription (title contextText : string) (c : Node) : string :=
  let description := bullet_description contextText in
  if negb (truthy description)
  then match List.find (describes title) (List.map trim (nodeBlocks c)) with
       | Some block => block
       | None => description
       end
  else description.

(** the body of the loop over the download anchors *)
Definition scrapeAnchor (a : Located) : option RawEpisode :=
  let audioUrl := href (anchor a) in
  if negb (truthy audioUrl) then None
  else
    let titleAnchor := findTitleAnchor a in
    let title := title_of titleAnchor in
    let contextText := contextOf titleAnchor (container a) in
    Some {| title := title;
            link := link_of titleAnchor audioUrl;
            dateText := extractDateText contextText;
            audioUrl := audioUrl;
            description := extractDescription title contextText (container a) |}.

(** the value of [page.evaluate] in [scrapeRecentEpisodes], for the
    anchors of the page in document order *)
Definition scrapeRecentEpisodes (anchors : list Located) : list RawEpisode :=
  let downloadAnchors := List.filter (fun a => isDownload (anchor a)) anchors in
  let episodesToCheck := slice0 MAX_NEW_EPISODES_TO_CHECK downloadAnchors in
  dedup ∅ (omap scrapeAnchor episodesToCheck).

(** *** [createItemXml] and [updateFeedWithNewEpisodes] *)

Definition createItemXml (episode : Episode) : Item :=
  {| itemTitle := escapeXml (or_else (title (raw episode)) "Untitled episode");
     itemLink := escapeXml (or_else (link (raw episode)) FEED_LINK);
     itemGuid := escapeXml (or_else (guid episode) (audioUrl (raw episode)));
     itemPubDate := escapeXml (pubDate episode);
     itemDescription :=
       escapeXml (sanitizeDescription (or_else (description (raw episode)) ""));
     itemEnclosure := Some (escapeXml (audioUrl (raw episode))) |}.

Definition toEpisode (now : Z) (ep : RawEpisode) : Episode :=
  let dateObj :=
    if truthy (dateText ep) then Date_parse (dateText ep) else Some now in
  {| raw := ep;
     dateObj := dateObj;
     pubDate := parseDateToRss (or_else (dateText ep) "") dateObj;
     guid := audioUrl ep |}.

(** [clock i] is the time the [i]-th new episode would read off the clock *)
Fixpoint toEpisodes (clock : nat -> Z) (i : nat) (eps : list RawEpisode)
  : list Episode :=
  match eps with
  | [] => []
  | ep :: rest => toEpisode (clock i) ep :: toEpisodes clock (S i) rest
  end.

(** [(a, b) => new Date(b.pubDate[0]) - new Date(a.pubDate[0])] *)
Definition newestFirst (a b : Item) : option Z :=
  Date_sub (Date_parse (itemPubDate b)) (Date_parse (itemPubDate a)).

Definition isNew (existingUrls : gset string) (ep : RawEpisode) : bool :=
  negb (bool_decide (audioUrl ep ∈ existingUrls)).

(** The result of the call and the feed object after it: the function
    changes [existingFeed] in place when it returns true. *)
Definition updateFeedWithNewEpisodes (clock : nat -> Z) (existingFeed : Feed)
    (newEpisodes : list RawEpisode) (existingUrls : gset string) : bool * Feed :=
  let newEpisodesFiltered := List.filter (isNew existingUrls) newEpisodes in
  if (length newEpisodesFiltered =? 0)%nat then (false, existingFeed)
  else
    let processedNewEpisodes := toEpisodes clock 0 newEpisodesFiltered in
    let existingItems := item existingFeed in
    let newItemsXml := List.map createItemXml processedNewEpisodes in
    let allItems := newItemsXml ++ existingItems in
    let limitedItems := slice0 MAX_EPISODES (sort newestFirst allItems) in
    (true,
     {| item := limitedItems;
        lastBuildDate :=
          toUTCString (Some (clock (length newEpisodesFiltered)));
        channel := channel existingFeed |}).

(** *** The feed file *)

Definition writeItem (it : Item) : Item :=
  {| itemTitle := textEscape (itemTitle it);
     itemLink := textEscape (itemLink it);
     itemGuid := textEscape (itemGuid it);
     itemPubDate := textEscape (itemPubDate it);
     itemDescription := textEscape (itemDescription it);
     itemEnclosure := option_map attrEscape (itemEnclosure it) |}.

Definition readItem (it : Item) : Item :=
  {| itemTitle := unescape (itemTitle it);
     itemLink := unescape (itemLink it);
     itemGuid := unescape (itemGuid it);
     itemPubDate := unescape (itemPubDate it);
     itemDescription := unescape (itemDescription it);
     itemEnclosure := option_map unescape (itemEnclosure it) |}.

(** [builder.buildObject(feedData)] *)
Definition buildObject (feedData : Feed) : Document :=
  {| docItems := List.map writeItem (item feedData);
     docLastBuildDate := textEscape (lastBuildDate feedData);
     docChannel :=
       List.map (fun kv => (fst kv, textEscape (snd kv))) (channel feedData) |}.

(** [parseStringPromise(xmlContent)] *)
Definition parseString (doc : Document) : Feed :=
  {| item := List.map readItem (docItems doc);
     lastBuildDate := unescape (docLastBuildDate doc);
     channel :=
       List.map (fun kv => (fst kv, unescape (snd kv))) (docChannel doc) |}.

(** [saveFeed]: the file after the call *)
Definition saveFeed (feedData : Feed) : option Document :=
  Some (buildObject feedData).

(** One run of [main] on the file system whose feed file is [file]
    ([None]: there is no such file) and the page whose anchors are
    [anchors]: the feed file after the run and the exit code. *)
Definition main (clock : nat -> Z) (file : option Document)
    (anchors : list Located) : option Document * Z :=
  match file with
  | None => (None, 1)
  | Some doc =>
      let existingFeed := parseString doc in
      let existingUrls := extractExistingAudioUrls existingFeed in
      let recentEpisodes := scrapeRecentEpisodes anchors in
      let '(wasUpdated, feed) :=
        updateFeedWithNewEpisodes clock existingFeed recentEpisodes existingUrls in
      if wasUpdated then (saveFeed feed, 0) else (file, 0)
  end.

End Run.
End Update.

(* ================================================================== *)
(** * Hosts and libraries to run the definitions on               *)
(* ================================================================== *)


(** A host whose [Date.parse] knows the two standard shapes only. *)
Definition strictHost : Js.Host := {| Js.other_parse := fun _ => None |}.

(** The escapes of the builder of xml2js and the entities its parser
    reads, as an instance to run the update on. *)
Definition cr : ascii := ascii_of_nat 13.
Definition lf : ascii := ascii_of_nat 10.
Definition tab : ascii := ascii_of_nat 9.

Fixpoint escapeWith (f : ascii -> option string) (s : string) : string :=
  match s with
  | EmptyString => EmptyString
  | String c s' =>
      match f c with
      | Some e => e +:+ escapeWith f s'
      | None => String c (escapeWith f s')
      end
  end.

Definition textEntity (c : ascii) : option string :=
  if Ascii.eqb c "&" then Some "&amp;"
  else if Ascii.eqb c "<" then Some "&lt;"
  else if Ascii.eqb c ">" then Some "&gt;"
  else if Ascii.eqb c cr then Some "&#xD;"
  else None.

Definition attrEntity (c : ascii) : option string :=
  if Ascii.eqb c "&" then Some "&amp;"
  else if Ascii.eqb c "<" then Some "&lt;"
  else if Ascii.eqb c Js.quote then Some "&quot;"
  else if Ascii.eqb c tab then Some "&#x9;"
  else if Ascii.eqb c lf then Some "&#xA;"
  else if Ascii.eqb c cr then Some "&#xD;"
  else None.

(** [skip] characters of an entity are still to be passed over *)
Fixpoint unescapeFrom (skip : nat) (s : string) : string :=
  match s with
  | EmptyString => EmptyString
  | String c s' =>
      match skip with
      | S k => unescapeFrom k s'
      | O =>
          if Js.starts_with "&amp;" s then String "&" (unescapeFrom 4 s')
          else if Js.starts_with "&lt;" s then String "<" (unescapeFrom 3 s')
          else if Js.starts_with "&gt;" s then String ">" (unescapeFrom 3 s')
          else if Js.starts_with "&quot;" s then String Js.quote (unescapeFrom 5 s')
          else if Js.starts_with "&apos;" s then String "'" (unescapeFrom 5 s')
          else if Js.starts_with "&#xD;" s then String cr (unescapeFrom 4 s')
          else if Js.starts_with "&#xA;" s then String lf (unescapeFrom 4 s')
          else if Js.starts_with "&#x9;" s then String tab (unescapeFrom 4 s')
          else String c (unescapeFrom 0 s')
      end
  end.

Definition xml2js : XmlLib :=
  {| textEscape := escapeWith textEntity;
     attrEscape := escapeWith attrEntity;
     unescape := unescapeFrom 0 |}.

(* ================================================================== *)
(** * The notions the properties are stated with                  *)
(* ================================================================== *)

Import Js Shared.

Section ExpansionSpec.
Variable MAX_EPISODES : Z.
Variable page : nat → Scrape.Round.

(** the count the page showed after the click before turn [i]; before
    the first click the loop remembers the count 0 *)
Definition countBefore (i : nat) : Z :=
  match i with
  | O => 0
  | S j => Scrape.newEpisodeCount (page j)
  end.

(** the click of turn [i] left the count as it was *)
Definition unchanged (i : nat) : Prop :=
  Scrape.newEpisodeCount (page i) = countBefore i.

(** the clicks of turn [i] and of the two turns before it all left the
    count as it was *)
Definition stalled (i : nat) : Prop :=
  (2 ≤ i)%nat ∧ unchanged i ∧ unchanged (i - 1) ∧ unchanged (i - 2).

(** the length of the run of unchanged counts that ends with the click
    before turn [i] *)
Fixpoint streak (i : nat) : Z :=
  match i with
  | O => 0
  | S j =>
      if Scrape.newEpisodeCount (page j) =? countBefore j
      then streak j + 1 else 0
  end.

(** Turn [i] goes through to its end: the count is below the target, the
    ceiling of clicks is not reached, the button is there, visible, and
    the click works, and the count has not stood still three times. *)
Definition passes (i : nat) : Prop :=
  Scrape.currentEpisodeCount (page i) < MAX_EPISODES
  ∧ (i < 50)%nat
  ∧ Scrape.buttons (page i) ≠ 0%nat
  ∧ Scrape.visible (page i) = true
  ∧ Scrape.clicked (page i) = true
  ∧ ¬ stalled i.

(** what the reason of the exit says of the turn [i] the loop left in *)
Definition explains (why : Scrape.Stop) (i : nat) : Prop :=
  match why with
  | Scrape.ReachedLimit => MAX_EPISODES ≤ Scrape.currentEpisodeCount (page i)
  | Scrape.MaxClicks => i = 50%nat
  | Scrape.NoButton => Scrape.buttons (page i) = 0%nat
  | Scrape.NotVisible => Scrape.visible (page i) = false
  | Scrape.ClickFailed => Scrape.clicked (page i) = false
  | Scrape.Stalled => stalled i
  end.

(** what holds of the counters when turn [i] starts *)
Definition inv (i : nat) (c : Scrape.Counters) : Prop :=
  (i ≤ 50)%nat
  ∧ Scrape.clickCount c = Z.of_nat i
  ∧ Scrape.lastEpisodeCount c = countBefore i
  ∧ Scrape.noChangeCount c = streak i
  ∧ 0 ≤ streak i < 3.

End ExpansionSpec.

(** the first match of a list of attempts, the empty string if none *)
Fixpoint firstMatch (attempts : list (option string)) : string :=
  match attempts with
  | Some m :: _ => m
  | None :: rest => firstMatch rest
  | [] => ""
  end.

(** The choice the specification words: among the anchors that qualify,
    one whose parent is a heading if there is one, else the first. *)
Definition claimedChoice (candidates : list Anchor) : option Anchor :=
  let qualifying := List.filter qualifies candidates in
  match List.find Update.underHeading qualifying with
  | Some a => Some a
  | None => head qualifying
  end.

(** The node of [chain] at which the search stops: none of the nodes
    before it has an anchor that qualifies, and it has one. *)
Definition stopsAt (chain : list Update.Node) (i : nat) (node : Update.Node) : Prop :=
  chain !! i = Some node
  ∧ List.filter qualifies (Update.nodeAnchors node) ≠ []
  ∧ ∀ j earlier, (j < i)%nat → chain !! j = Some earlier →
      List.filter qualifies (Update.nodeAnchors earlier) = [].

(** one of the five characters [escapeXml] replaces *)
Definition special (c : ascii) : bool :=
  Ascii.eqb c "&" || Ascii.eqb c "<" || Ascii.eqb c ">"
  || Ascii.eqb c quote || Ascii.eqb c "'".

(** the text holds none of the five characters *)
Fixpoint clean (s : string) : bool :=
  match s with
  | EmptyString => true
  | String c s' => negb (special c) && clean s'
  end.

(** what [escapeXml] writes for a character, if not the character *)
Definition xmlEntity (c : ascii) : option string :=
  if Ascii.eqb c "&" then Some "&amp;"
  else if Ascii.eqb c "<" then Some "&lt;"
  else if Ascii.eqb c ">" then Some "&gt;"
  else if Ascii.eqb c quote then Some "&quot;"
  else if Ascii.eqb c "'" then Some "&apos;"
  else None.

(** a text of digits *)
Fixpoint digits (s : string) : bool :=
  match s with
  | EmptyString => true
  | String c s' => is_digit c && digits s'
  end.

(** the digits of the year as [toUTCString] writes them *)
Definition year_digits (n : Z) : string :=
  if n <? 10000 then pad4 n else decimal n.

(** the time of day as [toUTCString] writes it *)
Definition time_string (t : Z) : string :=
  pad2 (HourFromTime t) +:+ ":" +:+ pad2 (MinFromTime t) +:+ ":"
  +:+ pad2 (SecFromTime t).

(** seconds, not milliseconds, are written *)
Definition wholeSeconds (t : Z) : Z := 1000 * (t / 1000).

Section MergerSpec.
Context {A : Type} (key : A → Date).

(** the comparator of both scripts: the date of [b] minus the date of [a] *)
Definition byKey (a b : A) : option Z := Date_sub (key b) (key a).

(** the date of [a] is a date *)
Definition dated (a : A) : Prop := key a ≠ None.

(** [a] and [b] have dates, and that of [a] is not before that of [b] *)
Definition notOlder (a b : A) : Prop :=
  match key a, key b with
  | Some x, Some y => y ≤ x
  | _, _ => False
  end.

End MergerSpec.

(** the date text is empty or the host takes it for a date *)
Definition resolvable {host : Host} (ep : RawEpisode) : Prop :=
  dateText ep = "" ∨ Date_parse (dateText ep) ≠ None.

(** the date the update sorts an item by *)
Definition pubKey {host : Host} (it : Update.Item) : Date :=
  Date_parse (Update.itemPubDate it).

#[local] Instance notOlder_dec {A} (key : A → Date) (a b : A) :
  Decision (notOlder key a b).
Proof. unfold notOlder. destruct (key a), (key b); apply _. Defined.

(** the enclosure URLs of the items of a feed, in the order of the items *)
Definition enclosureUrls (items : list Update.Item) : list string :=
  omap Update.itemEnclosure items.

(** the items the merge sorts: the new ones, then the existing ones *)
Definition incomingItems {host : Host} (clock : nat → Z) (feed : Update.Feed)
    (newEpisodes : list RawEpisode) : list Update.Item :=
  (Update.createItemXml
     <$> Update.toEpisodes clock 0
           (List.filter (Update.isNew (Update.extractExistingAudioUrls feed))
              newEpisodes))
  ++ Update.item feed.

(** the five entities [escapeXml] writes *)
Definition entities : list string :=
  ["&amp;"; "&lt;"; "&gt;"; "&quot;"; "&apos;"].

(** The text is escaped: it holds none of the characters [<], [>], the
    double quote and the apostrophe, and each of its ampersands opens one
    of the five entities. *)
Fixpoint escaped (s : string) : bool :=
  match s with
  | EmptyString => true
  | String c s' =>
      (if Ascii.eqb c "&" then existsb (fun e => starts_with e s) entities
       else negb (special c))
      && escaped s'
  end.

(** the text holds no tag: no [<] with a [>] somewhere after it *)
Fixpoint tagless (s : string) : bool :=
  match s with
  | EmptyString => true
  | String c s' => negb (Ascii.eqb c "<" && has_char ">" s') && tagless s'
  end.

(** the first character of the text is white space *)
Definition starts_space (s : string) : bool :=
  match s with String c _ => is_space c | EmptyString => false end.

(** the last character of the text is white space *)
Fixpoint ends_space (s : string) : bool :=
  match s with
  | EmptyString => false
  | String c EmptyString => is_space c
  | String _ s' => ends_space s'
  end.

(** the white space of the text is single spaces: each white space
    character is a space, and the character after it is not white space *)
Fixpoint single_spaced (s : string) : bool :=
  match s with
  | EmptyString => true
  | String c s' =>
      (if is_space c then Ascii.eqb c " " && negb (starts_space s') else true)
      && single_spaced s'
  end.

(** the elements of [l] whose date is [k], in the order of [l] *)
Definition datedAt {A} (key : A → Date) (k : Date) (l : list A) : list A :=
  List.filter (fun a => bool_decide (key a = k)) l.

(** the download anchors of the page that the update looks at: the first
    twenty *)
Definition checkedAnchors (anchors : list Update.Located) : list Update.Located :=
  take 20 (List.filter (fun a => Update.isDownload (Update.anchor a)) anchors).

(** What holds of a record: it has a title, which is trimmed; its audio
    URL is on the download host; it has a link, which is that URL or the
    address of an anchor that qualifies. *)
Definition wellFormed (ep : RawEpisode) : Prop :=
  title ep ≠ "" ∧ trim (title ep) = title ep
  ∧ includes (audioUrl ep) "ondemand.npr.org" = true
  ∧ link ep ≠ ""
  ∧ (link ep = audioUrl ep
     ∨ (re_test yearInPath (link ep) = true
        ∧ includes (link ep) "ondemand.npr.org" = false
        ∧ includes (link ep) "player/embed" = false)).

(** ** The texts a pattern stands for *)

(** every character of the text is in the class *)
Fixpoint all_chars (p : ascii → bool) (s : string) : bool :=
  match s with
  | EmptyString => true
  | String c s' => p c && all_chars p s'
  end.

(** the same text up to the case of the letters *)
Fixpoint same_letters (a b : string) : bool :=
  match a, b with
  | EmptyString, EmptyString => true
  | String x a', String y b' => Ascii.eqb (lower x) (lower y) && same_letters a' b'
  | _, _ => false
  end.

(** the texts an atom stands for; a word boundary stands for the empty
    text, whatever is around it *)
Definition fitsAtom (a : atom) (m : string) : Prop :=
  match a with
  | Lit p => m = p
  | LitI p => same_letters p m = true
  | Alt ss => m ∈ ss
  | Rep p lo hi =>
      all_chars p m = true ∧ (lo ≤ String.length m)%nat
      ∧ match hi with Some h => (String.length m ≤ h)%nat | None => True end
  | Bnd => m = ""
  end.

(** the texts a pattern stands for: one text for each atom, in a row *)
Fixpoint fits (r : regex) (m : string) : Prop :=
  match r with
  | [] => m = ""
  | a :: r' => ∃ m1 m2, m = m1 +:+ m2 ∧ fitsAtom a m1 ∧ fits r' m2
  end.

Section Repetition.
Variable p : ascii → bool.
Variable lo : nat.
Variable hi : option nat.
Variable k : option ascii → string → list ascii → option (list ascii).

(** the loop of [run] on a repetition, [k] being [run] on the rest of the
    pattern *)
Fixpoint repFrom (n : nat) (prev : option ascii) (s : string) (acc : list ascii)
    {struct s} : option (list ascii) :=
  match (match s with
         | String c s' =>
             if below n hi && p c
             then repFrom (S n) (Some c) s' (c :: acc)
             else None
         | EmptyString => None
         end) with
  | Some res => Some res
  | None => if (lo <=? n)%nat then k prev s acc else None
  end.

End Repetition.

(** the characters of [m], last first, in front of [acc] *)
Definition pushed (m : string) (acc : list ascii) : list ascii :=
  rev (list_ascii_of_string m) ++ acc.

(** What a matcher returns, it has read off the head of the text, and it
    is a text the pattern stands for. *)
Definition sound (r : regex)
    (k : option ascii → string → list ascii → option (list ascii)) : Prop :=
  ∀ prev s acc acc', k prev s acc = Some acc' →
    ∃ m rest, s = m +:+ rest ∧ acc' = pushed m acc ∧ fits r m.

(** for every text the pattern stands for, a matcher that is given a
    text that starts with it returns a match *)
Definition complete (r : regex)
    (k : option ascii → string → list ascii → option (list ascii)) : Prop :=
  ∀ m rest prev acc, fits r m → ∃ acc', k prev (m +:+ rest) acc = Some acc'.

(** the pattern has no word boundary *)
Definition boundless (r : regex) : bool :=
  forallb (fun a => match a with Bnd => false | _ => true end) r.

(** [part] is a part of [s] *)
Definition partOf (part s : string) : Prop :=
  ∃ before after, s = before +:+ part +:+ after.

(** The clicks tried in a run of the expansion loop that leaves in turn
    [i] for the reason [why]: one in each turn that went through, and one
    in the last turn if it got as far as the click. *)
Definition clicksTried (why : Scrape.Stop) (i : nat) : nat :=
  match why with
  | Scrape.ClickFailed | Scrape.Stalled => S i
  | _ => i
  end.

(** a date text of the shape the URL strategy makes: the digits of the
    year, of the month and of the day with hyphens between them *)
Definition stampText (yyyy mm dd : string) : string :=
  yyyy +:+ "-" +:+ mm +:+ "-" +:+ dd.

(** a day of the calendar: a month of the year, a day of that month *)
Definition calendarDate (y m d : Z) : bool :=
  (1 <=? m) && (m <=? 12) && (1 <=? d) && (d <=? days_in_month y m).

(* ================================================================== *)
(** * Pages, episodes and feeds of the examples                   *)
(* ================================================================== *)

(** an episode whose date text is not a date *)
Definition garbageEpisode : RawEpisode :=
  {| title := "Untitled episode";
     link := "https://ondemand.npr.org/x.mp3";
     dateText := "garbage text";
     audioUrl := "https://ondemand.npr.org/x.mp3";
     description := "" |}.

(** the archive page of one episode, as each script sees it *)
Definition exampleUrl : string :=
  "https://ondemand.npr.org/anon.npr-mp3/npr/specials/2025/10/20251014_specials_x.mp3".

Definition exampleTitle : string := "Nicole Glover, Live At The Village Vanguard".

Definition exampleDownload : Anchor :=
  {| href := exampleUrl;
     textContent := "Download";
     parentElement := Some {| tagName := "LI"; elementText := "Download" |} |}.

Definition exampleHeadline : Anchor :=
  {| href := "https://www.npr.org/2025/10/14/g-s1-93201/nicole-glover";
     textContent := exampleTitle;
     parentElement := Some {| tagName := "H2"; elementText := exampleTitle |} |}.

Definition exampleArticle : Scrape.Article :=
  {| Scrape.downloadLi := Some [exampleDownload];
     Scrape.anchors := [exampleHeadline; exampleDownload];
     Scrape.articleText := exampleTitle +:+ " Download Embed";
     Scrape.blocks := [] |}.

Definition exampleLocated : Update.Located :=
  {| Update.anchor := exampleDownload;
     Update.container :=
       {| Update.nodeAnchors := [exampleHeadline; exampleDownload];
          Update.nodeText := exampleTitle +:+ " Download Embed";
          Update.nodeBlocks := [] |};
     Update.ancestors := [] |}.

(** the record the update makes of that page *)
Definition exampleRecord : RawEpisode :=
  {| title := exampleTitle;
     link := "https://www.npr.org/2025/10/14/g-s1-93201/nicole-glover";
     dateText := "";
     audioUrl := exampleUrl;
     description := "" |}.

(** an article with a link to an older story before its headline *)
Definition exampleAside : Anchor :=
  {| href := "https://www.npr.org/2024/03/01/1234/an-older-story";
     textContent := "An older story";
     parentElement := Some {| tagName := "P"; elementText := "See: An older story" |} |}.

Definition exampleArticleWithAside : Scrape.Article :=
  {| Scrape.downloadLi := Some [exampleDownload];
     Scrape.anchors := [exampleAside; exampleHeadline; exampleDownload];
     Scrape.articleText := "See: An older story " +:+ exampleTitle +:+ " Download";
     Scrape.blocks := [] |}.

(** an episode whose description carries markup *)
Definition markupEpisode : RawEpisode :=
  {| title := "Nicole Glover";
     link := "https://www.npr.org/2025/10/14/g-s1-93201/nicole-glover";
     dateText := "2025-10-14";
     audioUrl := exampleUrl;
     description := "<i>Live</i> from the Village Vanguard" |}.

Definition clock0 : nat → Z := fun i => 1762081496123 + Z.of_nat i.

Definition octoberFirst : RawEpisode :=
  {| title := "Marcus Gilmore";
     link := "https://www.npr.org/2025/10/01/g-s1-91400/marcus-gilmore";
     dateText := "2025-10-01";
     audioUrl := "https://ondemand.npr.org/anon.npr-mp3/npr/specials/2025/10/20251001_specials_y.mp3";
     description := "" |}.

Definition itemOf (ep : RawEpisode) : Update.Item :=
  Update.createItemXml (Update.toEpisode (host := strictHost) 0 ep).

Definition unsortedFeed : Update.Feed :=
  {| Update.item := [itemOf octoberFirst; itemOf markupEpisode];
     Update.lastBuildDate := "Sun, 02 Nov 2025 11:04:56 GMT";
     Update.channel := [] |}.

(** a feed with one item twice *)
Definition doubledFeed : Update.Feed :=
  {| Update.item := [itemOf markupEpisode; itemOf markupEpisode];
     Update.lastBuildDate := "Sun, 02 Nov 2025 11:04:56 GMT";
     Update.channel := [] |}.

(** a feed of 100 items of one day, numbered 00 to 99 *)
Definition numberedUrl (i : nat) : string :=
  "https://ondemand.npr.org/anon.npr-mp3/npr/specials/2025/10/20251014_specials_"
  +:+ pad2 (Z.of_nat i) +:+ ".mp3".

Definition numberedEpisode (i : nat) : RawEpisode :=
  {| title := "Episode " +:+ pad2 (Z.of_nat i);
     link := "https://www.npr.org/2025/10/14/" +:+ pad2 (Z.of_nat i);
     dateText := "2025-10-14";
     audioUrl := numberedUrl i;
     description := "" |}.

Definition fullFeed : Update.Feed :=
  {| Update.item := (fun i => itemOf (numberedEpisode i)) <$> seq 0 100;
     Update.lastBuildDate := "Sun, 02 Nov 2025 11:04:56 GMT";
     Update.channel := [] |}.

Definition nextDay : RawEpisode :=
  {| title := "The day after";
     link := "https://www.npr.org/2025/10/15/next";
     dateText := "2025-10-15";
     audioUrl := "https://ondemand.npr.org/anon.npr-mp3/npr/specials/2025/10/20251015_specials_z.mp3";
     description := "" |}.

(** an episode whose audio URL has a query with an ampersand *)
Definition queryEpisode : RawEpisode :=
  {| title := "Marcus Gilmore";
     link := "https://www.npr.org/2025/10/01/g-s1-91400/marcus-gilmore";
     dateText := "2025-10-01";
     audioUrl := "https://ondemand.npr.org/anon.npr-mp3/npr/specials/2025/10/20251001_specials_y.mp3?orgId=1&d=3540";
     description := "" |}.

Definition emptyFeed : Update.Feed :=
  {| Update.item := [];
     Update.lastBuildDate := "Sun, 02 Nov 2025 11:04:56 GMT";
     Update.channel := [] |}.

(** the merge of [newEpisodes] into [feed], and the merge of the same
    episodes into its result *)
Definition mergedOnce (feed : Update.Feed) (newEpisodes : list RawEpisode)
  : Update.Feed :=
  snd (Update.updateFeedWithNewEpisodes (host := strictHost) clock0 feed newEpisodes
         (Update.extractExistingAudioUrls feed)).

Definition mergedTwice (feed : Update.Feed) (newEpisodes : list RawEpisode)
  : bool * Update.Feed :=
  Update.updateFeedWithNewEpisodes (host := strictHost) clock0
    (mergedOnce feed newEpisodes) newEpisodes
    (Update.extractExistingAudioUrls (mergedOnce feed newEpisodes)).

(** what the eviction example and the ampersand example come to *)
Definition evictionRun : bool * option string * option string :=
  let once := mergedOnce fullFeed [numberedEpisode 99; nextDay] in
  let twice :=
    Update.updateFeedWithNewEpisodes (host := strictHost) clock0 once
      [numberedEpisode 99; nextDay] (Update.extractExistingAudioUrls once) in
  (fst twice,
   Update.itemTitle <$> Update.item once !! 1%nat,
   Update.itemTitle <$> Update.item (snd twice) !! 1%nat).

Definition escapedQueryUrl : string :=
  "https://ondemand.npr.org/anon.npr-mp3/npr/specials/2025/10/20251001_specials_y.mp3?orgId=1&amp;d=3540".

(** a page that shows fourteen episodes and never more, its button
    always there *)
Definition fourteenForever : nat → Scrape.Round :=
  fun _ => {| Scrape.currentEpisodeCount := 14;
              Scrape.buttons := 1;
              Scrape.visible := true;
              Scrape.clicked := true;
              Scrape.newEpisodeCount := 14 |}.

(** a feed that has the episode of [exampleLocated], and its file *)
Definition exampleFeed : Update.Feed :=
  {| Update.item := [itemOf markupEpisode];
     Update.lastBuildDate := "Sun, 02 Nov 2025 11:04:56 GMT";
     Update.channel := [("title", "Jazz Night In America")] |}.

Definition exampleDocument : Update.Document :=
  Update.buildObject (xml := xml2js) exampleFeed.

(** the article of the episode [octoberFirst] *)
Definition octoberArticle : Scrape.Article :=
  {| Scrape.downloadLi :=
       Some [{| href := audioUrl octoberFirst;
                textContent := "Download";
                parentElement := Some {| tagName := "LI"; elementText := "Download" |} |}];
     Scrape.anchors :=
       [{| href := link octoberFirst;
           textContent := title octoberFirst;
           parentElement :=
             Some {| tagName := "H2"; elementText := title octoberFirst |} |}];
     Scrape.articleText := title octoberFirst +:+ " Download Embed";
     Scrape.blocks := [] |}.

(** the file of a feed that has no item yet *)
Definition emptyDocument : Update.Document :=
  Update.buildObject (xml := xml2js) emptyFeed.

(* ================================================================== *)
(** * Properties                                                  *)
(* ================================================================== *)

(** ** Extraction leaves no two records with one audio URL *)

Lemma dedup_fresh (seen : gset string) (results : list RawEpisode) (ep : RawEpisode) :
  ep ∈ dedup seen results → audioUrl ep ∉ seen.
Proof.
  revert seen. induction results as [|r rest IH]; intros seen Hin; simpl in Hin.
  - by apply elem_of_nil in Hin.
  - case_bool_decide as Hseen.
    + by apply IH.
    + apply elem_of_cons in Hin as [->|Hin]; [done|].
      apply IH in Hin. set_solver.
Qed.

Lemma dedup_NoDup (seen : gset string) (results : list RawEpisode) :
  NoDup (audioUrl <$> dedup seen results).
Proof.
  revert seen. induction results as [|r rest IH]; intros seen; simpl.
  - constructor.
  - case_bool_decide as Hseen; [apply IH|].
    rewrite fmap_cons. apply NoDup_cons. split; [|apply IH].
    intros Hin. apply list_elem_of_fmap in Hin as (ep & Heq & Hin).
    apply dedup_fresh in Hin. set_solver.
Qed.

Lemma dedup_keeps (seen : gset string) (results : list RawEpisode) (ep : RawEpisode) :
  ep ∈ results → audioUrl ep ∉ seen →
  audioUrl ep ∈ (audioUrl <$> dedup seen results).
Proof.
  revert seen. induction results as [|r rest IH]; intros seen Hin Hseen.
  - by apply elem_of_nil in Hin.
  - simpl. apply elem_of_cons in Hin as [<-|Hin].
    + rewrite bool_decide_eq_false_2 by done. rewrite fmap_cons. apply elem_of_cons; by left.
    + destruct (bool_decide (audioUrl r ∈ seen)) eqn:Hr; [by apply IH|]. apply bool_decide_eq_false in Hr.
      rewrite fmap_cons.
      apply elem_of_cons.
      destruct (decide (audioUrl ep = audioUrl r)) as [Heq|Hne]; [by left|].
      right. apply IH; [done|].
      intros [Hs%elem_of_singleton|Hs]%elem_of_union; done.
Qed.

Lemma dedup_sublist (seen : gset string) (results : list RawEpisode) :
  sublist (dedup seen results) results.
Proof.
  revert seen. induction results as [|r rest IH]; intros seen; simpl.
  - constructor.
  - case_bool_decide; [apply sublist_cons|apply sublist_skip]; apply IH.
Qed.

Lemma slice0_firstn {A} (e : Z) (l : list A) :
  ∃ n, slice0 e l = firstn n l.
Proof. unfold slice0. eauto. Qed.

Lemma slice0_sublist {A} (e : Z) (l : list A) : sublist (slice0 e l) l.
Proof.
  destruct (slice0_firstn e l) as [n ->]. apply sublist_take.
Qed.

Lemma NoDup_fmap_sublist {A B} (f : A → B) (l k : list A) :
  sublist l k → NoDup (f <$> k) → NoDup (f <$> l).
Proof.
  intros Hsub Hk. eapply sublist_NoDup; [exact Hk|]. by apply fmap_sublist.
Qed.


(** ** An update that finds nothing new leaves the file alone *)

Section NoChange.
Context {host : Host} {xml : XmlLib}.

Lemma elem_of_existingUrls_from (items : list Update.Item) (acc : gset string) (u : string) :
  u ∈ foldl (fun audioUrls it =>
               match Update.itemEnclosure it with
               | Some url => if truthy url then {[url]} ∪ audioUrls else audioUrls
               | None => audioUrls
               end) acc items
  ↔ u ∈ acc ∨ ∃ it, it ∈ items ∧ Update.itemEnclosure it = Some u ∧ truthy u = true.
Proof.
  revert acc. induction items as [|it items IH]; intros acc; simpl.
  - split; [auto|]. intros [?|(it & Hin & _)]; [done|]. by apply elem_of_nil in Hin.
  - rewrite IH. split.
    + intros [Hacc|(it' & Hin & He & Ht)].
      * destruct (Update.itemEnclosure it) as [url|] eqn:He; [|by left].
        destruct (truthy url) eqn:Ht; [|by left].
        apply elem_of_union in Hacc as [->%elem_of_singleton|Hacc]; [|by left].
        right. exists it. split; [apply elem_of_cons; by left|done].
      * right. exists it'. split; [apply elem_of_cons; by right|done].
    + intros [Hacc|(it' & Hin & He & Ht)].
      * left. destruct (Update.itemEnclosure it) as [url|]; [|done].
        destruct (truthy url); [|done]. apply elem_of_union. by right.
      * apply elem_of_cons in Hin as [->|Hin].
        -- left. rewrite He, Ht. apply elem_of_union. left. by apply elem_of_singleton.
        -- right. eauto.
Qed.

Lemma elem_of_existingUrls (feed : Update.Feed) (u : string) :
  u ∈ Update.extractExistingAudioUrls feed
  ↔ ∃ it, it ∈ Update.item feed ∧ Update.itemEnclosure it = Some u ∧ truthy u = true.
Proof.
  unfold Update.extractExistingAudioUrls. rewrite elem_of_existingUrls_from.
  split; [intros [Hin|Hit]; [by apply not_elem_of_empty in Hin|done]|by right].
Qed.

Lemma recent_audioUrl_truthy (anchors : list Update.Located) (ep : RawEpisode) :
  ep ∈ Update.scrapeRecentEpisodes anchors → truthy (audioUrl ep) = true.
Proof.
  intros Hin. unfold Update.scrapeRecentEpisodes in Hin.
  eapply elem_of_sublist in Hin; [|apply dedup_sublist].
  apply list_elem_of_omap in Hin as (a & _ & Ha).
  unfold Update.scrapeAnchor in Ha.
  destruct (truthy (href (Update.anchor a))) eqn:Ht; simpl in Ha; [|done].
  by inversion Ha.
Qed.

Lemma filter_isNew_nil (urls : gset string) (eps : list RawEpisode) :
  (∀ ep, ep ∈ eps → audioUrl ep ∈ urls) →
  List.filter (Update.isNew urls) eps = [].
Proof.
  induction eps as [|ep eps IH]; intros Hall; [done|]. simpl.
  unfold Update.isNew at 1.
  rewrite bool_decide_eq_true_2 by (apply Hall, elem_of_cons; by left). simpl.
  apply IH. intros ep' Hin. apply Hall, elem_of_cons. by right.
Qed.

Lemma update_nothing_new (clock : nat → Z) (feed : Update.Feed)
    (newEpisodes : list RawEpisode) (urls : gset string) :
  (∀ ep, ep ∈ newEpisodes → audioUrl ep ∈ urls) →
  Update.updateFeedWithNewEpisodes clock feed newEpisodes urls = (false, feed).
Proof.
  intros Hall. unfold Update.updateFeedWithNewEpisodes.
  by rewrite filter_isNew_nil.
Qed.

End NoChange.

(** C4. When every audio URL of the newly scraped episodes is the
    enclosure URL of an item of the existing feed, the merge returns
    false and leaves the feed object as it was, and the run of [main]
    leaves the feed file as it was, its last build date included. *)
Theorem update_without_new_episodes_keeps_file
    (host : Host) (xml : XmlLib) (clock : nat → Z) :
  (∀ (feed : Update.Feed) (newEpisodes : list RawEpisode),
      (∀ ep, ep ∈ newEpisodes →
         truthy (audioUrl ep) = true
         ∧ ∃ it, it ∈ Update.item feed
                 ∧ Update.itemEnclosure it = Some (audioUrl ep)) →
      Update.updateFeedWithNewEpisodes clock feed newEpisodes
        (Update.extractExistingAudioUrls feed) = (false, feed))
  ∧ (∀ (doc : Update.Document) (anchors : list Update.Located),
      (∀ ep, ep ∈ Update.scrapeRecentEpisodes anchors →
         ∃ it, it ∈ Update.item (Update.parseString doc)
               ∧ Update.itemEnclosure it = Some (audioUrl ep)) →
      Update.main clock (Some doc) anchors = (Some doc, 0)).
Proof.
  assert (Hfun : ∀ (feed : Update.Feed) (newEpisodes : list RawEpisode),
      (∀ ep, ep ∈ newEpisodes →
         truthy (audioUrl ep) = true
         ∧ ∃ it, it ∈ Update.item feed
                 ∧ Update.itemEnclosure it = Some (audioUrl ep)) →
      Update.updateFeedWithNewEpisodes clock feed newEpisodes
        (Update.extractExistingAudioUrls feed) = (false, feed)).
  { intros feed newEpisodes Hall. apply update_nothing_new. intros ep Hin.
    apply elem_of_existingUrls. destruct (Hall ep Hin) as (Ht & it & Hit & He).
    by exists it. }
  split; [exact Hfun|].
  intros doc anchors Hall. unfold Update.main.
  rewrite Hfun; [done|].
  intros ep Hin. split; [by eapply recent_audioUrl_truthy|by apply Hall].
Qed.

Lemma update_without_new_episodes_keeps_file_witness :
  (∀ ep, ep ∈ Update.scrapeRecentEpisodes [exampleLocated] →
     ∃ it, it ∈ Update.item (Update.parseString (xml := xml2js) exampleDocument)
           ∧ Update.itemEnclosure it = Some (audioUrl ep))
  ∧ Update.main (host := strictHost) (xml := xml2js) clock0
      (Some exampleDocument) [exampleLocated]
    = (Some exampleDocument, 0).
Proof.
  assert (Hall : ∀ ep, ep ∈ Update.scrapeRecentEpisodes [exampleLocated] →
            ∃ it, it ∈ Update.item (Update.parseString (xml := xml2js) exampleDocument)
                  ∧ Update.itemEnclosure it = Some (audioUrl ep)).
  { intros ep Hep. exists (itemOf markupEpisode). split.
    - vm_compute. constructor.
    - vm_compute in Hep. apply list_elem_of_singleton in Hep. subst ep.
      vm_compute. reflexivity. }
  split; [exact Hall|].
  exact (proj2 (update_without_new_episodes_keeps_file strictHost xml2js clock0)
           exampleDocument [exampleLocated] Hall).
Defined.

(** ** The expansion loop ends *)

Section Expansion.
Variable MAX_EPISODES : Z.
Variable page : nat → Scrape.Round.

Lemma streak_two (i : nat) :
  2 ≤ streak page i ↔ (2 ≤ i)%nat ∧ unchanged page (i - 1) ∧ unchanged page (i - 2).
Proof.
  assert (Hnn : ∀ k, 0 ≤ streak page k).
  { induction k as [|k IH]; simpl; [lia|]. case_match; lia. }
  unfold unchanged. destruct i as [|[|i]]; simpl.
  - split; [lia|intros [? _]; lia].
  - split; [case_match; lia|intros [? _]; lia].
  - replace (i - 0)%nat with i by lia. specialize (Hnn i).
    destruct (Scrape.newEpisodeCount (page (S i)) =? Scrape.newEpisodeCount (page i)) eqn:E1;
      destruct (Scrape.newEpisodeCount (page i) =? countBefore page i) eqn:E2;
      split; try lia; intros (_ & ? & ?); lia.
Qed.

Lemma inv_start : inv page 0 Scrape.start.
Proof. unfold inv; simpl. lia. Qed.

Lemma turn_spec (i : nat) (c : Scrape.Counters) :
  inv page i c →
  match Scrape.turn MAX_EPISODES c (page i) with
  | inl why => explains MAX_EPISODES page why i
  | inr c' => passes MAX_EPISODES page i ∧ inv page (S i) c'
  end.
Proof.
  intros (Hle & Hclicks & Hlast & Hno & Hstreak).
  pose proof (streak_two i) as Htwo.
  unfold Scrape.turn, Scrape.maxClicks. rewrite Hclicks, Hlast, Hno.
  destruct (MAX_EPISODES <=? Scrape.currentEpisodeCount (page i)) eqn:E1; [simpl; lia|].
  destruct (50 <=? Z.of_nat i) eqn:E2; [simpl; lia|].
  destruct (Scrape.buttons (page i) =? 0)%nat eqn:E3; [simpl; by apply Nat.eqb_eq|].
  destruct (Scrape.visible (page i)) eqn:E4; [|done].
  destruct (Scrape.clicked (page i)) eqn:E5; [|done]. simpl.
  apply Nat.eqb_neq in E3.
  destruct (Scrape.newEpisodeCount (page i) =? countBefore page i) eqn:E6.
  - destruct (3 <=? streak page i + 1) eqn:E7.
    + simpl. unfold stalled, unchanged. split; [|split]; [| lia |]; apply Htwo; lia.
    + split.
      * unfold passes. repeat split; try done; try lia.
        intros (Ha & _ & Hb & Hc).
        assert (2 ≤ streak page i) by (by apply Htwo). lia.
      * unfold inv. simpl. rewrite E6. lia.
  - split.
    + unfold passes. repeat split; try done; try lia.
      intros (_ & Hu & _). unfold unchanged in Hu. lia.
    + unfold inv. simpl. rewrite E6. lia.
Qed.

Lemma loop_from (n i : nat) (c : Scrape.Counters) :
  inv page i c → (50 - i ≤ n)%nat → (∀ j, (j < i)%nat → passes MAX_EPISODES page j) →
  ∃ k why, (k ≤ 50)%nat
    ∧ (∀ fuel, (k - i < fuel)%nat →
         Scrape.loop MAX_EPISODES fuel page i c = Some (why, k))
    ∧ explains MAX_EPISODES page why k
    ∧ ∀ j, (j < k)%nat → passes MAX_EPISODES page j.
Proof.
  revert i c. induction n as [|n IH]; intros i c Hinv Hn Hbefore.
  - pose proof (turn_spec i c Hinv) as Hturn.
    destruct (Scrape.turn MAX_EPISODES c (page i)) as [why|c'] eqn:E.
    + exists i, why. destruct Hinv as (Hle & _). split; [done|]. split; [|by split].
      intros [|fuel] Hf; [lia|]. simpl. by rewrite E.
    + destruct Hturn as [(_ & Hlt & _) _]. lia.
  - pose proof (turn_spec i c Hinv) as Hturn.
    destruct (Scrape.turn MAX_EPISODES c (page i)) as [why|c'] eqn:E.
    + exists i, why. destruct Hinv as (Hle & _). split; [done|]. split; [|by split].
      intros [|fuel] Hf; [lia|]. simpl. by rewrite E.
    + destruct Hturn as [Hpass Hinv'].
      destruct (IH (S i) c' Hinv') as (k & why & Hk & Hrun & Hwhy & Hall).
      { lia. }
      { intros j Hj. destruct (decide (j = i)) as [->|Hne]; [done|].
        apply Hbefore. lia. }
      assert (Hik : (S i ≤ k)%nat).
      { destruct (decide (S i ≤ k)%nat) as [|Hgt]; [done|].
        specialize (Hrun 1%nat ltac:(lia)). simpl in Hrun.
        destruct (Scrape.turn MAX_EPISODES c' (page (S i))); [|done].
        inversion Hrun. lia. }
      exists k, why. split; [done|]. split; [|by split].
      intros [|fuel] Hf; [lia|]. simpl. rewrite E. apply Hrun. lia.
Qed.

(** a turn with a changed count sets the stall counter back to zero *)
Lemma turn_resets (c c' : Scrape.Counters) (p : Scrape.Round) :
  Scrape.turn MAX_EPISODES c p = inr c' →
  Scrape.newEpisodeCount p ≠ Scrape.lastEpisodeCount c →
  Scrape.noChangeCount c' = 0.
Proof.
  unfold Scrape.turn. intros Hturn Hne.
  repeat (case_match; try done).
  - lia.
  - by inversion Hturn.
Qed.

End Expansion.


(** On a page that never shows more than its fourteen episodes the loop
    leaves at its fourth click: the first click counts as a change, from
    the remembered 0 to 14, and the three clicks after it as none. *)
Lemma fourteenForever_stalls_at_fourth_click :
  Scrape.expandAllStories 100 51 fourteenForever = Some (Scrape.Stalled, 3%nat).
Proof. vm_compute. reflexivity. Qed.

(** ** The date resolver *)

Lemma utc_string_not_invalid (t : Z) : utc_string t ≠ "Invalid Date".
Proof.
  unfold utc_string.
  assert (Hw : 0 ≤ WeekDay t < 7) by (unfold WeekDay; apply Z.mod_pos_bound; lia).
  assert (Hcases : WeekDay t = 0 ∨ WeekDay t = 1 ∨ WeekDay t = 2 ∨ WeekDay t = 3
                   ∨ WeekDay t = 4 ∨ WeekDay t = 5 ∨ WeekDay t = 6) by lia.
  destruct Hcases as [E|[E|[E|[E|[E|[E|E]]]]]]; rewrite E;
    cbn [name_at day_names nth Z.to_nat Pos.to_nat Pos.iter_op Nat.add String.append];
    discriminate.
Qed.

(** C6. On a host whose [Date] takes neither the empty string nor the
    text "garbage text" for a date, the date resolver of either script,
    for every fallback: resolves "2025-10-14" to the time value of
    midnight UTC of 14 October 2025, whatever the fallback is; resolves
    the empty string to the fallback; and resolves "garbage text" to the
    fallback. *)
Theorem date_resolver_examples (host : Host) (fallback : Date) :
  Date_parse "" = None →
  Date_parse "garbage text" = None →
  (Scrape.parseDateToRss "2025-10-14" fallback = toUTCString (Some 1760400000000)
   ∧ Update.parseDateToRss "2025-10-14" fallback = toUTCString (Some 1760400000000)
   ∧ civil_from_days (Day 1760400000000) = (2025, 10, 14)
   ∧ toUTCString (Some 1760400000000) = "Tue, 14 Oct 2025 00:00:00 GMT")
  ∧ (Scrape.parseDateToRss "" fallback = toUTCString fallback
     ∧ Update.parseDateToRss "" fallback = toUTCString fallback)
  ∧ (Scrape.parseDateToRss "garbage text" fallback = toUTCString fallback
     ∧ Update.parseDateToRss "garbage text" fallback = toUTCString fallback).
Proof.
  intros Hempty Hgarbage. split; [|split].
  - repeat split; reflexivity.
  - split; [reflexivity|].
    unfold Update.parseDateToRss. by rewrite Hempty.
  - split.
    + unfold Scrape.parseDateToRss.
      change (negb (truthy "garbage text") || (trim "garbage text" =? "")%string)
        with false.
      cbv iota. rewrite Hgarbage. reflexivity.
    + unfold Update.parseDateToRss. by rewrite Hgarbage.
Qed.

(** The host [strictHost] is such a host; the fallback is the epoch. *)
Lemma date_resolver_examples_witness :
  Date_parse (host := strictHost) "" = None
  ∧ Date_parse (host := strictHost) "garbage text" = None
  ∧ Scrape.parseDateToRss (host := strictHost) "2025-10-14" (Some 0)
    = "Tue, 14 Oct 2025 00:00:00 GMT"
  ∧ Scrape.parseDateToRss (host := strictHost) "" (Some 0)
    = "Thu, 01 Jan 1970 00:00:00 GMT"
  ∧ Update.parseDateToRss (host := strictHost) "garbage text" (Some 0)
    = "Thu, 01 Jan 1970 00:00:00 GMT".
Proof.
  pose proof (date_resolver_examples strictHost (Some 0) eq_refl eq_refl)
    as ((H1 & _) & (H2 & _) & (_ & H3)).
  split; [reflexivity|]. split; [reflexivity|].
  split; [exact H1|]. split; [exact H2|exact H3].
Defined.

(** ** An unparseable date text *)

(** C2, at the input where the code departs from it.  On a host whose
    [Date] does not take "garbage text" for a date, an episode with that
    date text gets the publication date "Invalid Date" in the full build
    and in the update, whatever the clock shows, and that is the text both
    write into the feed; no time value is written as "Invalid Date" by
    [toUTCString]. *)
Theorem unparseable_dateText_gives_invalid_pubDate (host : Host) (now : Z)
    (feedLink lastBuildDate : string) :
  Date_parse "garbage text" = None →
  Scrape.pubDate (Scrape.toEpisode now garbageEpisode) = "Invalid Date"
  ∧ Scrape.itemPubDate
      (Scrape.itemText feedLink lastBuildDate (Scrape.toEpisode now garbageEpisode))
    = "Invalid Date"
  ∧ Update.pubDate (Update.toEpisode now garbageEpisode) = "Invalid Date"
  ∧ Update.itemPubDate (Update.createItemXml (Update.toEpisode now garbageEpisode))
    = "Invalid Date"
  ∧ ∀ t, utc_string t ≠ "Invalid Date".
Proof.
  intros Hgarbage.
  assert (Hs : Scrape.pubDate (Scrape.toEpisode now garbageEpisode) = "Invalid Date").
  { unfold Scrape.toEpisode, Scrape.parseDateToRss. simpl dateText.
    change (truthy "garbage text") with true. cbv iota.
    change (or_else "garbage text" "") with "garbage text".
    change (negb (truthy "garbage text") || (trim "garbage text" =? "")%string)
      with false.
    cbv iota. simpl Scrape.pubDate. rewrite Hgarbage. reflexivity. }
  assert (Hu : Update.pubDate (Update.toEpisode now garbageEpisode) = "Invalid Date").
  { unfold Update.toEpisode, Update.parseDateToRss. simpl dateText.
    change (truthy "garbage text") with true. cbv iota.
    change (or_else "garbage text" "") with "garbage text".
    simpl Update.pubDate. rewrite Hgarbage. reflexivity. }
  split; [exact Hs|]. split.
  { unfold Scrape.itemText. cbn [Scrape.itemPubDate]. rewrite Hs. reflexivity. }
  split; [exact Hu|]. split.
  { unfold Update.createItemXml. cbn [Update.itemPubDate]. rewrite Hu. reflexivity. }
  apply utc_string_not_invalid.
Qed.

Lemma unparseable_dateText_gives_invalid_pubDate_witness :
  Date_parse (host := strictHost) "garbage text" = None
  ∧ Scrape.pubDate (Scrape.toEpisode (host := strictHost) 0 garbageEpisode)
    = "Invalid Date"
  ∧ Update.pubDate (Update.toEpisode (host := strictHost) 0 garbageEpisode)
    = "Invalid Date".
Proof.
  pose proof (unparseable_dateText_gives_invalid_pubDate strictHost 0 "" "" eq_refl)
    as (H1 & _ & H2 & _).
  split; [reflexivity|]. split; [exact H1|exact H2].
Defined.

(** ** The date text of an episode *)

(** The full build takes the date text from the first of its five
    strategies that finds one: the date stamp in the audio URL, then in
    the text of the article a date with a full month name, with a short
    month name, an ISO date, a slash date. *)
Lemma full_build_date_priority (audioUrl contextText : string) :
  Scrape.extractDateText audioUrl contextText
  = firstMatch
      [ (if truthy (Scrape.urlDateText audioUrl)
         then Some (Scrape.urlDateText audioUrl) else None);
        re_match fullMonthDate contextText;
        re_match Scrape.shortMonthDate contextText;
        re_match Scrape.isoDate contextText;
        re_match Scrape.slashDate contextText ].
Proof.
  unfold Scrape.extractDateText. simpl.
  destruct (truthy (Scrape.urlDateText audioUrl)) eqn:Eurl; simpl; [done|].
  repeat case_match; try done.
  unfold truthy in Eurl. apply negb_false_iff, String.eqb_eq in Eurl. done.
Qed.

(** C3, at the input where the code departs from it.  For the audio URL
    that ends in /2025/10/20251014_specials_x.mp3 the full build finds the
    date text 2025-10-14, whatever the text of the article is.  The update
    has the full month name pattern only: where the text around the title
    holds no such date its date text is empty, as on the page of the
    example, which the full build dates 2025-10-14. *)
Theorem url_datestamp_missing_in_update :
  (∀ contextText, Scrape.extractDateText exampleUrl contextText = "2025-10-14")
  ∧ (∀ contextText, re_match fullMonthDate contextText = None →
       Update.extractDateText contextText = "")
  ∧ dateText <$> Scrape.scrapeArticle exampleArticle = Some "2025-10-14"
  ∧ dateText <$> Update.scrapeAnchor exampleLocated = Some "".
Proof.
  split; [|split; [|split]].
  - intros contextText. rewrite full_build_date_priority. reflexivity.
  - intros contextText Hnone. unfold Update.extractDateText. by rewrite Hnone.
  - vm_compute. reflexivity.
  - vm_compute. reflexivity.
Qed.

(** ** The title anchor *)


Lemma find_head_filter {A} (f : A → bool) (l : list A) :
  List.find f l = head (List.filter f l).
Proof. induction l as [|x l IH]; simpl; [done|]. by destruct (f x). Qed.

Lemma filter_elem {A} (f : A → bool) (l : list A) (x : A) :
  x ∈ List.filter f l ↔ x ∈ l ∧ f x = true.
Proof. rewrite !list_elem_of_In. apply filter_In. Qed.

Lemma find_elem {A} (f : A → bool) (l : list A) (x : A) :
  List.find f l = Some x → x ∈ l ∧ f x = true.
Proof. rewrite list_elem_of_In. apply find_some. Qed.

Lemma claimedChoice_elem (candidates : list Anchor) (a : Anchor) :
  claimedChoice candidates = Some a → a ∈ candidates ∧ qualifies a = true.
Proof.
  unfold claimedChoice.
  destruct (List.find Update.underHeading (List.filter qualifies candidates))
    as [h|] eqn:E.
  - intros [= <-]. apply find_elem in E as [Hin _]. by apply filter_elem in Hin.
  - destruct (List.filter qualifies candidates) as [|x l] eqn:F; [done|].
    intros [= <-]. apply (filter_elem qualifies). rewrite F. apply elem_of_cons. by left.
Qed.

Lemma findTitleAnchorFrom_spec (depth : nat) (chain : list Update.Node) :
  match Update.findTitleAnchorFrom depth chain with
  | Some a =>
      ∃ i node, (i < depth)%nat ∧ stopsAt chain i node
                ∧ claimedChoice (Update.nodeAnchors node) = Some a
  | None =>
      ∀ i node, (i < depth)%nat → chain !! i = Some node →
        List.filter qualifies (Update.nodeAnchors node) = []
  end.
Proof.
  revert chain. induction depth as [|depth IH]; intros chain.
  - simpl. intros i node Hi. lia.
  - destruct chain as [|node up]; simpl.
    { intros i node' _ Hl. by rewrite lookup_nil in Hl. }
    destruct (List.filter qualifies (Update.nodeAnchors node)) as [|first rest] eqn:F.
    + specialize (IH up).
      destruct (Update.findTitleAnchorFrom depth up) as [a|].
      * destruct IH as (i & node' & Hi & (Hl & Hne & Hbefore) & Hc).
        exists (S i), node'. split; [lia|]. split; [|done].
        split; [done|]. split; [done|].
        intros [|j] earlier Hj Hlj; simpl in Hlj.
        -- by inversion Hlj; subst.
        -- eapply Hbefore; [|done]. lia.
      * intros [|i] node' Hi Hl; simpl in Hl.
        -- by inversion Hl; subst.
        -- eapply IH; [|done]. lia.
    + exists 0%nat, node. split; [lia|]. split.
      * split; [done|]. split; [by rewrite F|]. intros j ? Hj. lia.
      * unfold claimedChoice. rewrite F.
        by destruct (List.find Update.underHeading (first :: rest)).
Qed.



(** ** Escaping, once and twice *)

Lemma escapeXml_cons (c : ascii) (s : string) :
  escapeXml (String c s)
  = match xmlEntity c with
    | Some e => e +:+ escapeXml s
    | None => String c (escapeXml s)
    end.
Proof.
  unfold escapeXml, xmlEntity.
  destruct (Ascii.eqb c "&") eqn:E1; [apply Ascii.eqb_eq in E1; subst; reflexivity|].
  destruct (Ascii.eqb c "<") eqn:E2; [apply Ascii.eqb_eq in E2; subst; reflexivity|].
  destruct (Ascii.eqb c ">") eqn:E3; [apply Ascii.eqb_eq in E3; subst; reflexivity|].
  destruct (Ascii.eqb c quote) eqn:E4; [apply Ascii.eqb_eq in E4; subst; reflexivity|].
  destruct (Ascii.eqb c "'") eqn:E5; [apply Ascii.eqb_eq in E5; subst; reflexivity|].
  simpl. rewrite E1. simpl. rewrite E2. simpl. rewrite E3. simpl. rewrite E4.
  simpl. by rewrite E5.
Qed.

Lemma xmlEntity_special (c : ascii) :
  match xmlEntity c with
  | Some e => special c = true ∧ (2 ≤ String.length e)%nat
  | None => special c = false
  end.
Proof.
  unfold xmlEntity, special.
  destruct (Ascii.eqb c "&"); [simpl; split; [done|lia]|].
  destruct (Ascii.eqb c "<"); [simpl; split; [done|lia]|].
  destruct (Ascii.eqb c ">"); [simpl; split; [done|lia]|].
  destruct (Ascii.eqb c quote); [simpl; split; [done|lia]|].
  destruct (Ascii.eqb c "'"); [simpl; split; [done|lia]|].
  done.
Qed.

Lemma length_append (a b : string) :
  String.length (a +:+ b) = (String.length a + String.length b)%nat.
Proof. induction a as [|c a IH]; simpl; [done|]. by rewrite IH. Qed.

Lemma escapeXml_length (s : string) :
  (String.length s ≤ String.length (escapeXml s))%nat
  ∧ (clean s = false → (String.length s < String.length (escapeXml s))%nat).
Proof.
  induction s as [|c s [IHle IHlt]]; [simpl; split; [lia|done]|].
  rewrite escapeXml_cons. pose proof (xmlEntity_special c) as Hc.
  destruct (xmlEntity c) as [e|]; simpl.
  - destruct Hc as [_ He]. rewrite length_append. split; [lia|]. intros _. lia.
  - rewrite Hc. simpl. split; [lia|]. intros Hs. apply IHlt in Hs. lia.
Qed.

Lemma escapeXml_clean (s : string) : clean s = true → escapeXml s = s.
Proof.
  induction s as [|c s IH]; [done|]. simpl. intros [Hc Hs]%andb_true_iff.
  rewrite escapeXml_cons. pose proof (xmlEntity_special c) as Hx.
  destruct (xmlEntity c) as [e|].
  - destruct Hx as [Hx _]. rewrite Hx in Hc. done.
  - by rewrite IH.
Qed.

(** [escapeXml] leaves a text as it is exactly when the text holds none
    of the five characters *)
Lemma escapeXml_fixed_iff (s : string) : escapeXml s = s ↔ clean s = true.
Proof.
  split; [|apply escapeXml_clean].
  intros Heq. destruct (clean s) eqn:E; [done|].
  apply escapeXml_length in E. rewrite Heq in E. lia.
Qed.

(** The parser of [xml2js] reads back what its builder wrote. *)
Lemma xml2js_text_round (s : string) : unescapeFrom 0 (escapeWith textEntity s) = s.
Proof.
  induction s as [|c s IH]; [done|].
  destruct (Ascii.eqb c "&") eqn:E1.
  { apply Ascii.eqb_eq in E1; subst.
    change (String "&" (unescapeFrom 0 (escapeWith textEntity s)) = String "&" s).
    by rewrite IH. }
  destruct (Ascii.eqb c "<") eqn:E2.
  { apply Ascii.eqb_eq in E2; subst.
    change (String "<" (unescapeFrom 0 (escapeWith textEntity s)) = String "<" s).
    by rewrite IH. }
  destruct (Ascii.eqb c ">") eqn:E3.
  { apply Ascii.eqb_eq in E3; subst.
    change (String ">" (unescapeFrom 0 (escapeWith textEntity s)) = String ">" s).
    by rewrite IH. }
  destruct (Ascii.eqb c cr) eqn:E4.
  { apply Ascii.eqb_eq in E4; subst.
    change (String cr (unescapeFrom 0 (escapeWith textEntity s)) = String cr s).
    by rewrite IH. }
  assert (Hnone : textEntity c = None) by (unfold textEntity; by rewrite E1, E2, E3, E4).
  cbn [escapeWith]. rewrite Hnone.
  cbn [unescapeFrom starts_with]. rewrite (Ascii.eqb_sym "&" c), E1.
  cbn [andb]. by rewrite IH.
Qed.

Lemma xml2js_attr_round (s : string) : unescapeFrom 0 (escapeWith attrEntity s) = s.
Proof.
  induction s as [|c s IH]; [done|].
  destruct (Ascii.eqb c "&") eqn:E1.
  { apply Ascii.eqb_eq in E1; subst.
    change (String "&" (unescapeFrom 0 (escapeWith attrEntity s)) = String "&" s).
    by rewrite IH. }
  destruct (Ascii.eqb c "<") eqn:E2.
  { apply Ascii.eqb_eq in E2; subst.
    change (String "<" (unescapeFrom 0 (escapeWith attrEntity s)) = String "<" s).
    by rewrite IH. }
  destruct (Ascii.eqb c quote) eqn:E3.
  { apply Ascii.eqb_eq in E3; subst.
    change (String quote (unescapeFrom 0 (escapeWith attrEntity s)) = String quote s).
    by rewrite IH. }
  destruct (Ascii.eqb c tab) eqn:E4.
  { apply Ascii.eqb_eq in E4; subst.
    change (String tab (unescapeFrom 0 (escapeWith attrEntity s)) = String tab s).
    by rewrite IH. }
  destruct (Ascii.eqb c lf) eqn:E5.
  { apply Ascii.eqb_eq in E5; subst.
    change (String lf (unescapeFrom 0 (escapeWith attrEntity s)) = String lf s).
    by rewrite IH. }
  destruct (Ascii.eqb c cr) eqn:E6.
  { apply Ascii.eqb_eq in E6; subst.
    change (String cr (unescapeFrom 0 (escapeWith attrEntity s)) = String cr s).
    by rewrite IH. }
  assert (Hnone : attrEntity c = None)
    by (unfold attrEntity; by rewrite E1, E2, E3, E4, E5, E6).
  cbn [escapeWith]. rewrite Hnone.
  cbn [unescapeFrom starts_with]. rewrite (Ascii.eqb_sym "&" c), E1.
  cbn [andb]. by rewrite IH.
Qed.




(** ** The host reads back the dates it writes *)

Lemma year_of_era (doe : Z) :
  0 ≤ doe < 146097 →
  let yoe := (doe - doe / 1460 + doe / 36524 - doe / 146096) / 365 in
  let doy := doe - (365 * yoe + yoe / 4 - yoe / 100) in
  let mp := (5 * doy + 2) / 153 in
  0 ≤ yoe ≤ 399 ∧ 0 ≤ doy ≤ 365 ∧ 0 ≤ mp ≤ 11
  ∧ 1 ≤ doy - (153 * mp + 2) / 5 + 1 ≤ 31.
Proof.
  intros Hdoe yoe doy mp.
  assert (Hyoe : 0 ≤ yoe ≤ 399) by (unfold yoe; Z.div_mod_to_equations; lia).
  assert (Hdoy : 0 ≤ doy ≤ 365) by (unfold doy, yoe; Z.div_mod_to_equations; lia).
  assert (Hmp : 0 ≤ mp ≤ 11) by (unfold mp; Z.div_mod_to_equations; lia).
  repeat split; try lia; unfold mp; Z.div_mod_to_equations; lia.
Qed.

(** the calendar date of a day number is a date, and is the date of that
    day number only *)
Lemma civil_fields (z : Z) :
  ∃ y m d, civil_from_days z = (y, m, d) ∧ 1 ≤ m ≤ 12 ∧ 1 ≤ d ≤ 31
           ∧ days_from_civil y m d = z.
Proof.
  unfold civil_from_days, days_from_civil.
  set (z' := z + 719468).
  set (era := z' / 146097). set (doe := z' mod 146097).
  assert (Hdoe : 0 ≤ doe < 146097) by (apply Z.mod_pos_bound; lia).
  destruct (year_of_era doe Hdoe) as (Hyoe & Hdoy & Hmp & Hd).
  set (yoe := (doe - doe / 1460 + doe / 36524 - doe / 146096) / 365) in *.
  set (doy := doe - (365 * yoe + yoe / 4 - yoe / 100)) in *.
  set (mp := (5 * doy + 2) / 153) in *.
  eexists _, _, _. split; [reflexivity|].
  split; [destruct (mp <? 10) eqn:E; lia|]. split; [exact Hd|].
  assert (Hz : z' = era * 146097 + doe)
    by (unfold era, doe; pose proof (Z.div_mod z' 146097); lia).
  set (m := if mp <? 10 then mp + 3 else mp - 9).
  assert (Hm : (if 2 <? m then m - 3 else m + 9) = mp)
    by (unfold m; destruct (mp <? 10) eqn:E; [rewrite (proj2 (Z.ltb_lt 2 (mp + 3)))|
          rewrite (proj2 (Z.ltb_ge 2 (mp - 9)))]; lia).
  rewrite Hm.
  assert (Hy : (if m <=? 2 then (if m <=? 2 then yoe + era * 400 + 1 else yoe + era * 400) - 1
                else (if m <=? 2 then yoe + era * 400 + 1 else yoe + era * 400))
               = yoe + era * 400) by (destruct (m <=? 2); lia).
  rewrite Hy.
  assert (Hq : (yoe + era * 400) / 400 = era) by (Z.div_mod_to_equations; lia).
  assert (Hr : (yoe + era * 400) mod 400 = yoe) by (Z.div_mod_to_equations; lia).
  rewrite Hq, Hr. unfold doy. lia.
Qed.

Lemma digit_val_digit (a : Z) : 0 ≤ a < 10 → digit_val (digit a) = Some a.
Proof.
  intros Ha.
  assert (Hc : a = 0 ∨ a = 1 ∨ a = 2 ∨ a = 3 ∨ a = 4 ∨ a = 5 ∨ a = 6 ∨ a = 7
               ∨ a = 8 ∨ a = 9) by lia.
  destruct Hc as [->|[->|[->|[->|[->|[->|[->|[->|[->| ->]]]]]]]]]; reflexivity.
Qed.

Lemma digit_is_digit (a : Z) : 0 ≤ a < 10 → is_digit (digit a) = true.
Proof.
  intros Ha. pose proof (digit_val_digit a Ha) as Hv. unfold digit_val in Hv.
  by destruct (is_digit (digit a)).
Qed.

Lemma number_pad2 (n : Z) : 0 ≤ n < 100 → number (pad2 n) = Some n.
Proof.
  intros Hn. unfold pad2, number. cbn [number_from].
  rewrite !digit_val_digit by (Z.div_mod_to_equations; lia).
  f_equal. Z.div_mod_to_equations; lia.
Qed.

Lemma number_pad4 (n : Z) : 0 ≤ n < 10000 → number (pad4 n) = Some n.
Proof.
  intros Hn. unfold pad4, number. cbn [number_from].
  rewrite !digit_val_digit by (Z.div_mod_to_equations; lia).
  f_equal. Z.div_mod_to_equations; lia.
Qed.

Lemma digits_pad2 (n : Z) : 0 ≤ n < 100 → digits (pad2 n) = true.
Proof.
  intros Hn. unfold pad2. cbn [digits].
  rewrite !digit_is_digit by (Z.div_mod_to_equations; lia). done.
Qed.

Lemma digits_pad4 (n : Z) : 0 ≤ n < 10000 → digits (pad4 n) = true.
Proof.
  intros Hn. unfold pad4. cbn [digits].
  rewrite !digit_is_digit by (Z.div_mod_to_equations; lia). done.
Qed.

Lemma number_from_app (acc : Z) (a b : string) :
  number_from acc (a +:+ b)
  = match number_from acc a with
    | Some v => number_from v b
    | None => None
    end.
Proof.
  revert acc. induction a as [|c a IH]; intros acc; [done|].
  change (String c a +:+ b) with (String c (a +:+ b)). cbn [number_from].
  destruct (digit_val c); [apply IH|done].
Qed.

Lemma string_of_list_ascii_app (l k : list ascii) :
  string_of_list_ascii (l ++ k)
  = string_of_list_ascii l +:+ string_of_list_ascii k.
Proof. induction l as [|c l IH]; [done|]. simpl. by rewrite IH. Qed.

Lemma string_of_rev_cons (c : ascii) (l : list ascii) :
  string_of_rev (c :: l) = string_of_rev l +:+ String c "".
Proof. unfold string_of_rev. simpl. by rewrite string_of_list_ascii_app. Qed.

Lemma digits_app (a b : string) : digits (a +:+ b) = digits a && digits b.
Proof.
  induction a as [|c a IH]; [done|].
  change (String c a +:+ b) with (String c (a +:+ b)). cbn [digits].
  rewrite IH. by rewrite andb_assoc.
Qed.

Lemma decimal_rev_spec (fuel : nat) (n : Z) :
  0 ≤ n < 2 ^ Z.of_nat fuel →
  digits (string_of_rev (decimal_rev fuel n)) = true
  ∧ ∃ k : nat, ∀ acc,
      number_from acc (string_of_rev (decimal_rev fuel n))
      = Some (acc * 10 ^ Z.of_nat k + n).
Proof.
  revert n. induction fuel as [|fuel IH]; intros n Hn.
  - simpl in Hn. assert (n = 0) as -> by lia. split; [done|].
    exists 0%nat. intros acc. simpl. f_equal. lia.
  - cbn [decimal_rev]. destruct (n <? 10) eqn:E.
    + apply Z.ltb_lt in E. split.
      * cbn. rewrite digit_is_digit by lia; try done.
      * exists 1%nat. intros acc. cbn. rewrite digit_val_digit by lia.
        f_equal. lia.
    + apply Z.ltb_ge in E.
      assert (Hdiv : 0 ≤ n / 10 < 2 ^ Z.of_nat fuel).
      { rewrite Nat2Z.inj_succ, Z.pow_succ_r in Hn by lia.
        Z.div_mod_to_equations. lia. }
      destruct (IH (n / 10) Hdiv) as (Hd & k & Hk).
      rewrite string_of_rev_cons. split.
      * rewrite digits_app, Hd. cbn.
        rewrite digit_is_digit by (Z.div_mod_to_equations; lia); try done.
      * exists (S k). intros acc. rewrite number_from_app, Hk. cbn.
        rewrite digit_val_digit by (Z.div_mod_to_equations; lia).
        f_equal. rewrite Nat2Z.inj_succ, Z.pow_succ_r by lia.
        Z.div_mod_to_equations. lia.
Qed.

Lemma decimal_spec (n : Z) :
  0 < n → digits (decimal n) = true ∧ number_from 0 (decimal n) = Some n.
Proof.
  intros Hn. unfold decimal.
  destruct (decimal_rev_spec (S (Z.to_nat (Z.log2 n))) n) as (Hd & k & Hk).
  { pose proof (Z.log2_spec n Hn) as [_ Hlt]. pose proof (Z.log2_nonneg n).
    rewrite Nat2Z.inj_succ, Z2Nat.id by lia. lia. }
  split; [done|]. by rewrite Hk.
Qed.

Lemma year_digits_spec (n : Z) :
  0 ≤ n →
  digits (year_digits n) = true ∧ year_digits n ≠ ""
  ∧ number_from 0 (year_digits n) = Some n.
Proof.
  intros Hn. unfold year_digits. destruct (n <? 10000) eqn:E.
  - apply Z.ltb_lt in E. split; [by apply digits_pad4|]. split; [done|].
    by apply (number_pad4 n).
  - apply Z.ltb_ge in E. destruct (decimal_spec n) as [Hd Hnum]; [lia|].
    split; [done|]. split; [|done].
    intros Hempty. rewrite Hempty in Hnum. simpl in Hnum. inversion Hnum. lia.
Qed.

Lemma number_nonempty (s : string) : s ≠ "" → number s = number_from 0 s.
Proof. by destruct s. Qed.

Lemma digit_not (c x : ascii) : is_digit x = false → is_digit c = true → Ascii.eqb c x = false.
Proof.
  intros Hx Hc. destruct (Ascii.eqb c x) eqn:E; [|done].
  apply Ascii.eqb_eq in E. subst. by rewrite Hx in Hc.
Qed.

Lemma digits_has_char (x : ascii) (s : string) :
  is_digit x = false → digits s = true → has_char x s = false.
Proof.
  intros Hx. induction s as [|c s IH]; [done|]. cbn.
  intros [Hc Hs]%andb_true_iff. rewrite (digit_not c x), IH; done.
Qed.

Lemma signed_number_year (y : Z) : signed_number (year_string y) = Some y.
Proof.
  unfold year_string. fold (year_digits (Z.abs y)).
  destruct (year_digits_spec (Z.abs y)) as (Hd & Hne & Hnum); [lia|].
  destruct (y <? 0) eqn:E.
  - apply Z.ltb_lt in E.
    change ("-" +:+ year_digits (Z.abs y)) with (String "-" (year_digits (Z.abs y))).
    cbn. rewrite number_nonempty, Hnum by done. cbn. f_equal. lia.
  - apply Z.ltb_ge in E.
    change ("" +:+ year_digits (Z.abs y)) with (year_digits (Z.abs y)).
    destruct (year_digits (Z.abs y)) as [|c s] eqn:F; [done|].
    cbn [signed_number]. cbn in Hd. apply andb_true_iff in Hd as [Hc _].
    rewrite (digit_not c "-") by done.
    rewrite number_nonempty, Hnum by done. f_equal. lia.
Qed.

Lemma has_char_app (x : ascii) (a b : string) :
  has_char x (a +:+ b) = has_char x a || has_char x b.
Proof.
  induction a as [|c a IH]; [done|].
  change (String c a +:+ b) with (String c (a +:+ b)). cbn [has_char].
  rewrite IH. by rewrite orb_assoc.
Qed.

Lemma has_char_year (x : ascii) (y : Z) :
  is_digit x = false → Ascii.eqb "-" x = false → has_char x (year_string y) = false.
Proof.
  intros Hx Hm. unfold year_string. fold (year_digits (Z.abs y)).
  destruct (year_digits_spec (Z.abs y)) as (Hd & _); [lia|].
  rewrite has_char_app, (digits_has_char x (year_digits _)) by done.
  destruct (y <? 0); cbn [has_char]; [by rewrite Hm|done].
Qed.

Lemma split_on_cons (c : ascii) (s : string) : ∃ p ps, split_on c s = p :: ps.
Proof.
  induction s as [|x s (p & ps & IH)]; cbn [split_on]; [by eauto|].
  destruct (Ascii.eqb x c); [by eauto|]. rewrite IH. by eauto.
Qed.

Lemma split_on_app (c : ascii) (a b : string) :
  has_char c a = false →
  split_on c (a +:+ b)
  = match split_on c b with
    | p :: ps => (a +:+ p) :: ps
    | [] => [a]
    end.
Proof.
  destruct (split_on_cons c b) as (p & ps & Hb). rewrite Hb.
  induction a as [|x a IH]; intros Ha.
  - by change ("" +:+ b) with b.
  - cbn [has_char] in Ha. apply orb_false_iff in Ha as [Hx Ha].
    change (String x a +:+ b) with (String x (a +:+ b)). cbn [split_on].
    by rewrite Hx, IH.
Qed.

Lemma append_nil_r (a : string) : a +:+ "" = a.
Proof. induction a as [|x a IH]; [done|]. change (String x (a +:+ "") = String x a). by rewrite IH. Qed.

Lemma split_field (c : ascii) (a b : string) :
  has_char c a = false →
  split_on c (a +:+ String c "" +:+ b) = a :: split_on c b.
Proof.
  intros Ha. rewrite split_on_app by done.
  change (String c "" +:+ b) with (String c b). cbn [split_on].
  rewrite Ascii.eqb_refl. by rewrite append_nil_r.
Qed.

Lemma split_last (c : ascii) (a : string) :
  has_char c a = false → split_on c a = [a].
Proof.
  intros Ha. rewrite <- (append_nil_r a) at 1. rewrite split_on_app by done.
  cbn. by rewrite append_nil_r.
Qed.

Lemma split_first_field (W R : string) :
  has_char " " W = false →
  split_on " " (W +:+ ", " +:+ R) = (W +:+ ",") :: split_on " " R.
Proof. intros HW. by rewrite split_on_app. Qed.

Lemma append_assoc (a b c : string) : (a +:+ b) +:+ c = a +:+ (b +:+ c).
Proof.
  induction a as [|x a IH]; [done|].
  change (String x ((a +:+ b) +:+ c) = String x (a +:+ (b +:+ c))). by rewrite IH.
Qed.

Lemma utc_string_shape (t : Z) :
  utc_string t
  = name_at day_names (WeekDay t) +:+ ", " +:+ pad2 (DateFromTime t) +:+ " "
    +:+ name_at month_names (MonthFromTime t - 1) +:+ " "
    +:+ year_string (YearFromTime t) +:+ " " +:+ time_string t +:+ " " +:+ "GMT".
Proof. unfold utc_string, time_string. by rewrite !append_assoc. Qed.

Lemma name_at_no (x : ascii) (names : list string) (i : Z) :
  forallb (fun n => negb (has_char x n)) names = true →
  has_char x (name_at names i) = false.
Proof.
  unfold name_at. generalize (Z.to_nat i) as n.
  induction names as [|a names IH]; intros n Hall; [by destruct n|].
  cbn in Hall. apply andb_true_iff in Hall as [Ha Hall].
  destruct n as [|n]; cbn [nth]; [by apply negb_true_iff|by apply IH].
Qed.

Lemma month_index (m : Z) :
  1 ≤ m ≤ 12 → index_from 1 month_names (name_at month_names (m - 1)) = Some m.
Proof.
  intros Hm.
  assert (Hc : m = 1 ∨ m = 2 ∨ m = 3 ∨ m = 4 ∨ m = 5 ∨ m = 6 ∨ m = 7 ∨ m = 8
               ∨ m = 9 ∨ m = 10 ∨ m = 11 ∨ m = 12) by lia.
  destruct Hc as [->|[->|[->|[->|[->|[->|[->|[->|[->|[->|[->| ->]]]]]]]]]]];
    reflexivity.
Qed.

Lemma time_fields (t : Z) :
  0 ≤ HourFromTime t < 24 ∧ 0 ≤ MinFromTime t < 60 ∧ 0 ≤ SecFromTime t < 60.
Proof.
  unfold HourFromTime, MinFromTime, SecFromTime.
  repeat split; apply Z.mod_pos_bound; lia.
Qed.

Lemma split_time (t : Z) :
  split_on ":" (time_string t)
  = [pad2 (HourFromTime t); pad2 (MinFromTime t); pad2 (SecFromTime t)].
Proof.
  destruct (time_fields t) as (Hh & Hm & Hs). unfold time_string.
  rewrite !split_field, split_last;
    try (apply digits_has_char; [done|apply digits_pad2; lia]). done.
Qed.

Lemma has_space_time (t : Z) : has_char " " (time_string t) = false.
Proof.
  destruct (time_fields t) as (Hh & Hm & Hs). unfold time_string.
  rewrite !has_char_app.
  rewrite !(digits_has_char " " (pad2 _)) by (done || apply digits_pad2; lia).
  done.
Qed.

Lemma wholeSeconds_fields (t : Z) :
  Day (wholeSeconds t) = Day t
  ∧ HourFromTime (wholeSeconds t) = HourFromTime t
  ∧ MinFromTime (wholeSeconds t) = MinFromTime t
  ∧ SecFromTime (wholeSeconds t) = SecFromTime t.
Proof.
  unfold Day, HourFromTime, MinFromTime, SecFromTime, wholeSeconds,
    msPerDay, msPerHour, msPerMinute, msPerSecond.
  repeat split; Z.div_mod_to_equations; lia.
Qed.

Lemma utc_string_wholeSeconds (t : Z) : utc_string (wholeSeconds t) = utc_string t.
Proof.
  destruct (wholeSeconds_fields t) as (HD & Hh & Hm & Hs).
  unfold utc_string, WeekDay, DateFromTime, MonthFromTime, YearFromTime.
  by rewrite HD, Hh, Hm, Hs.
Qed.

Lemma MakeDate_fields (t : Z) :
  MakeDate (YearFromTime t) (MonthFromTime t) (DateFromTime t)
    (HourFromTime t) (MinFromTime t) (SecFromTime t) = wholeSeconds t.
Proof.
  unfold MakeDate, YearFromTime, MonthFromTime, DateFromTime.
  destruct (civil_fields (Day t)) as (y & m & d & Hc & _ & _ & Hd).
  rewrite Hc. cbn [fst snd]. rewrite Hd.
  unfold Day, HourFromTime, MinFromTime, SecFromTime, wholeSeconds,
    msPerDay, msPerHour, msPerMinute, msPerSecond.
  Z.div_mod_to_equations. lia.
Qed.

(** What [toUTCString] writes is read back as the time it was written
    from, to the second. *)
Lemma parse_utc_string_round (t : Z) :
  parse_utc_string (utc_string t) = Some (wholeSeconds t).
Proof.
  unfold parse_utc_string. rewrite utc_string_shape at 1.
  destruct (time_fields t) as (Hh & Hm & Hs).
  assert (Hcivil : 1 ≤ MonthFromTime t ≤ 12 ∧ 1 ≤ DateFromTime t ≤ 31).
  { unfold MonthFromTime, DateFromTime.
    destruct (civil_fields (Day t)) as (y & m & d & -> & ? & ? & _). done. }
  destruct Hcivil as [HM HD].
  rewrite split_first_field by (by apply name_at_no).
  rewrite (split_field " " (pad2 _))
    by (apply digits_has_char; [done|apply digits_pad2; lia]).
  rewrite (split_field " " (name_at _ _)) by (by apply name_at_no).
  rewrite (split_field " " (year_string _)) by (by apply has_char_year).
  rewrite (split_field " " (time_string _)) by apply has_space_time.
  change (split_on " " "GMT") with ["GMT"]. cbv iota beta.
  rewrite split_time. cbv iota beta.
  rewrite !number_pad2 by lia. rewrite month_index by done.
  rewrite signed_number_year. cbv iota beta zeta.
  rewrite MakeDate_fields, utc_string_wholeSeconds.
  by rewrite String.eqb_refl.
Qed.

(** ** Sorting by date and cutting at the cap *)

Section Merger.
Context {A : Type} (key : A → Date).

Lemma insert_perm (x : A) (l : list A) : insert (byKey key) x l ≡ₚ x :: l.
Proof.
  induction l as [|y l IH]; cbn [insert]; [done|].
  destruct (goes_after ((byKey key) x y)); [|done].
  rewrite IH. apply Permutation_swap.
Qed.

Lemma sort_perm (l : list A) : sort (byKey key) l ≡ₚ l.
Proof.
  induction l as [|x l IH]; cbn [sort]; [done|]. by rewrite insert_perm, IH.
Qed.

Lemma insert_sorted (x : A) (l : list A) :
  dated key x → Forall (dated key) l →
  StronglySorted (notOlder key) l → StronglySorted (notOlder key) (insert (byKey key) x l).
Proof.
  intros Hx. induction l as [|y l IH]; intros Hl Hs; cbn [insert].
  - repeat constructor.
  - apply Forall_cons in Hl as [Hy Hl].
    apply StronglySorted_cons in Hs as [Hyl Hs].
    unfold dated in Hx, Hy. unfold byKey, Date_sub.
    destruct (key x) as [kx|] eqn:Ex; [|done].
    destruct (key y) as [ky|] eqn:Ey; [|done]. cbn [goes_after].
    destruct (0 <? ky - kx) eqn:E.
    + apply Z.ltb_lt in E. apply StronglySorted_cons. split; [|by apply IH].
      rewrite insert_perm. apply Forall_cons. split; [|done].
      unfold notOlder. rewrite Ex, Ey. lia.
    + apply Z.ltb_ge in E. apply StronglySorted_cons. split.
      * apply Forall_cons. split; [unfold notOlder; rewrite Ex, Ey; lia|].
        eapply Forall_impl; [exact Hyl|]. intros z. unfold notOlder.
        rewrite Ex, Ey. destruct (key z); [lia|done].
      * apply StronglySorted_cons. done.
Qed.

Lemma sort_sorted (l : list A) :
  Forall (dated key) l → StronglySorted (notOlder key) (sort (byKey key) l).
Proof.
  induction l as [|x l IH]; intros Hl; cbn [sort]; [constructor|].
  apply Forall_cons in Hl as [Hx Hl].
  apply insert_sorted; [done| |by apply IH]. by rewrite sort_perm.
Qed.

Lemma slice0_take (cap : Z) (l : list A) :
  0 ≤ cap → slice0 cap l = take (Z.to_nat cap) l.
Proof.
  intros Hcap. unfold slice0. rewrite (proj2 (Z.ltb_ge cap 0)) by lia.
  destruct (decide (cap ≤ Z.of_nat (length l))).
  - by rewrite Z.min_l by lia.
  - rewrite Z.min_r by lia. rewrite Nat2Z.id.
    rewrite firstn_all. symmetry. apply take_ge. lia.
Qed.

(** What sorting newest first and cutting at a cap that is not negative
    gives: at most [cap] elements, sorted, and with the elements that were
    cut off they are the elements that came in; none that was cut off is
    newer than one that was kept. *)
Lemma merged_spec (cap : Z) (l : list A) :
  0 ≤ cap → Forall (dated key) l →
  let out := slice0 cap (sort (byKey key) l) in
  Z.of_nat (length out) ≤ cap
  ∧ Forall (dated key) out
  ∧ StronglySorted (notOlder key) out
  ∧ ∃ dropped, sort (byKey key) l = out ++ dropped
      ∧ out ++ dropped ≡ₚ l
      ∧ ∀ k d, k ∈ out → d ∈ dropped → (notOlder key) k d.
Proof.
  intros Hcap Hl out. pose proof (sort_sorted l Hl) as Hs.
  assert (Hout : out = take (Z.to_nat cap) (sort (byKey key) l)) by by apply slice0_take.
  assert (Happ : sort (byKey key) l = out ++ drop (Z.to_nat cap) (sort (byKey key) l))
    by (by rewrite Hout, take_drop).
  split; [rewrite Hout, length_take; lia|]. split.
  { rewrite Hout. apply Forall_take. by rewrite sort_perm. }
  rewrite Happ in Hs. split; [by apply StronglySorted_app_1_l in Hs|].
  exists (drop (Z.to_nat cap) (sort (byKey key) l)).
  split; [done|]. split; [rewrite <- Happ; apply sort_perm|].
  intros k d Hk Hd. by eapply StronglySorted_app_1_elem_of.
Qed.

End Merger.

(** ** What the feed merger gives *)

Lemma or_else_empty (s : string) : or_else s "" = s.
Proof.
  unfold or_else, truthy. destruct (String.eqb s "") eqn:E; [|done].
  apply String.eqb_eq in E. by rewrite E.
Qed.

Lemma truthy_false (s : string) : truthy s = false ↔ s = "".
Proof.
  unfold truthy. rewrite negb_false_iff. apply String.eqb_eq.
Qed.

Section FullBuild.
Context {host : Host}.

Lemma full_toEpisode_dated (now : Z) (ep : RawEpisode) :
  resolvable ep →
  dated Scrape.dateObj (Scrape.toEpisode now ep)
  ∧ Scrape.pubDate (Scrape.toEpisode now ep)
    = toUTCString (Scrape.dateObj (Scrape.toEpisode now ep)).
Proof.
  intros Hep. unfold dated, Scrape.toEpisode. cbn [Scrape.dateObj Scrape.pubDate].
  rewrite or_else_empty. unfold Scrape.parseDateToRss.
  destruct (truthy (dateText ep)) eqn:Et.
  - destruct Hep as [Hempty|Hparse].
    { apply truthy_false in Hempty. congruence. }
    split; [done|]. cbn [negb orb].
    destruct (String.eqb (trim (dateText ep)) ""); [done|].
    destruct (Date_parse (dateText ep)); done.
  - done.
Qed.

Lemma full_toEpisodes_dated (clock : nat → Z) (i : nat) (raw : list RawEpisode) :
  Forall resolvable raw →
  Forall (fun e => dated Scrape.dateObj e
                   ∧ Scrape.pubDate e = toUTCString (Scrape.dateObj e))
    (Scrape.toEpisodes clock i raw).
Proof.
  revert i. induction raw as [|ep raw IH]; intros i Hraw; cbn [Scrape.toEpisodes].
  - constructor.
  - apply Forall_cons in Hraw as [Hep Hraw]. apply Forall_cons.
    split; [by apply full_toEpisode_dated|by apply IH].
Qed.

End FullBuild.

Lemma length_utc_string (t : Z) : (11 ≤ String.length (utc_string t))%nat.
Proof.
  unfold utc_string. rewrite !length_append. unfold pad2. cbn [String.length]. lia.
Qed.

Lemma parse_iso_date_utc (t : Z) : parse_iso_date (utc_string t) = None.
Proof.
  unfold parse_iso_date. pose proof (length_utc_string t) as Hlen.
  destruct (String.length (utc_string t) =? 10)%nat eqn:E; [|done].
  apply Nat.eqb_eq in E. lia.
Qed.

Lemma Date_parse_utc {host : Host} (t : Z) :
  Date_parse (utc_string t) = Some (wholeSeconds t).
Proof.
  unfold Date_parse. by rewrite parse_iso_date_utc, parse_utc_string_round.
Qed.

Lemma clean_app (a b : string) : clean (a +:+ b) = clean a && clean b.
Proof.
  induction a as [|c a IH]; [done|].
  change (String c a +:+ b) with (String c (a +:+ b)). cbn [clean].
  rewrite IH. by rewrite andb_assoc.
Qed.

Lemma digits_clean (s : string) : digits s = true → clean s = true.
Proof.
  induction s as [|c s IH]; [done|]. cbn.
  intros [Hc Hs]%andb_true_iff. rewrite IH by done.
  unfold special. by rewrite !(digit_not c) by done.
Qed.

Lemma name_at_clean (names : list string) (i : Z) :
  forallb clean names = true → clean (name_at names i) = true.
Proof.
  unfold name_at. generalize (Z.to_nat i) as n.
  induction names as [|a names IH]; intros n Hall; [by destruct n|].
  cbn in Hall. apply andb_true_iff in Hall as [Ha Hall].
  destruct n as [|n]; cbn [nth]; [done|by apply IH].
Qed.

Lemma clean_utc_string (t : Z) : clean (utc_string t) = true.
Proof.
  destruct (time_fields t) as (Hh & Hm & Hs).
  assert (Hd : 1 ≤ DateFromTime t ≤ 31).
  { unfold DateFromTime.
    destruct (civil_fields (Day t)) as (y & m & d & -> & ? & ? & _). done. }
  unfold utc_string, year_string. fold (year_digits (Z.abs (YearFromTime t))).
  destruct (year_digits_spec (Z.abs (YearFromTime t))) as (Hy & _); [lia|].
  rewrite !clean_app, !name_at_clean by done.
  rewrite !(digits_clean (pad2 _)) by (apply digits_pad2; lia).
  rewrite (digits_clean (year_digits _)) by done.
  by destruct (YearFromTime t <? 0).
Qed.

Section Incremental.
Context {host : Host}.

Lemma update_toEpisode_pubDate (now : Z) (ep : RawEpisode) :
  resolvable ep →
  ∃ t, Update.pubDate (Update.toEpisode now ep) = utc_string t
       ∧ (∀ t', Date_parse (dateText ep) = Some t' → t = t')
       ∧ (Date_parse (dateText ep) = None → t = now).
Proof.
  intros Hep. unfold Update.toEpisode. cbn [Update.pubDate].
  rewrite or_else_empty. unfold Update.parseDateToRss.
  destruct (Date_parse (dateText ep)) as [t|] eqn:E.
  - exists t. split; [done|]. split; [by intros t' [= <-]|done].
  - destruct Hep as [Hempty|Hparse]; [|done].
    apply truthy_false in Hempty. rewrite Hempty.
    exists now. split; [done|]. split; [done|done].
Qed.

Lemma new_item_key (now : Z) (ep : RawEpisode) :
  resolvable ep →
  ∃ t, pubKey (Update.createItemXml (Update.toEpisode now ep))
       = Some (wholeSeconds t)
       ∧ (∀ t', Date_parse (dateText ep) = Some t' → t = t')
       ∧ (Date_parse (dateText ep) = None → t = now).
Proof.
  intros Hep. destruct (update_toEpisode_pubDate now ep Hep) as (t & Hp & Ht).
  exists t. split; [|done].
  unfold pubKey, Update.createItemXml. cbn [Update.itemPubDate].
  rewrite Hp, escapeXml_clean by apply clean_utc_string. apply Date_parse_utc.
Qed.

Lemma new_items_dated (clock : nat → Z) (i : nat) (eps : list RawEpisode) :
  Forall resolvable eps →
  Forall (dated pubKey) (Update.createItemXml <$> Update.toEpisodes clock i eps).
Proof.
  revert i. induction eps as [|ep eps IH]; intros i Heps; cbn [Update.toEpisodes].
  - constructor.
  - apply Forall_cons in Heps as [Hep Heps]. rewrite fmap_cons. apply Forall_cons.
    split; [|by apply IH].
    destruct (new_item_key (clock i) ep Hep) as (t & Ht & _).
    unfold dated. by rewrite Ht.
Qed.

End Incremental.




(** ** Merging twice *)

Lemma omap_sublist {A B} (f : A → option B) (l k : list A) :
  sublist l k → sublist (omap f l) (omap f k).
Proof.
  induction 1 as [|x l k Hs IH|x l k Hs IH]; cbn.
  - constructor.
  - destruct (f x); [by apply sublist_skip|done].
  - destruct (f x); [by apply sublist_cons|done].
Qed.

Section Twice.
Context {host : Host}.

Lemma new_items_urls (clock : nat → Z) (i : nat) (eps : list RawEpisode) :
  Forall (fun ep => clean (audioUrl ep) = true) eps →
  enclosureUrls (Update.createItemXml <$> Update.toEpisodes clock i eps)
  = audioUrl <$> eps.
Proof.
  revert i. induction eps as [|ep eps IH]; intros i Heps; [done|].
  apply Forall_cons in Heps as [Hep Heps].
  cbn [Update.toEpisodes]. rewrite !fmap_cons. unfold enclosureUrls in *. cbn.
  rewrite IH by done. by rewrite escapeXml_clean.
Qed.

Lemma filter_sublist {A} (f : A → bool) (l : list A) : sublist (List.filter f l) l.
Proof.
  induction l as [|x l IH]; cbn; [constructor|].
  destruct (f x); [by apply sublist_skip|by apply sublist_cons].
Qed.

Lemma elem_of_enclosureUrls (items : list Update.Item) (u : string) :
  u ∈ enclosureUrls items ↔ ∃ it, it ∈ items ∧ Update.itemEnclosure it = Some u.
Proof. unfold enclosureUrls. apply list_elem_of_omap. Qed.

Lemma incoming_NoDup (clock : nat → Z) (feed : Update.Feed)
    (newEpisodes : list RawEpisode) :
  NoDup (enclosureUrls (Update.item feed)) →
  NoDup (audioUrl <$> newEpisodes) →
  Forall (fun ep => truthy (audioUrl ep) = true ∧ clean (audioUrl ep) = true)
    newEpisodes →
  NoDup (enclosureUrls (incomingItems clock feed newEpisodes)).
Proof.
  intros Hold Hnew Hurl. unfold incomingItems, enclosureUrls.
  rewrite omap_app. fold (enclosureUrls (Update.item feed)).
  set (fresh := List.filter _ newEpisodes).
  assert (Hsub : sublist fresh newEpisodes) by apply filter_sublist.
  fold (enclosureUrls (Update.createItemXml <$> Update.toEpisodes clock 0 fresh)).
  rewrite new_items_urls.
  2:{ apply Forall_forall. intros ep Hep. rewrite Forall_forall in Hurl.
      apply Hurl. by eapply elem_of_sublist. }
  apply NoDup_app. split; [|split; [|done]].
  - eapply sublist_NoDup; [exact Hnew|]. by apply fmap_sublist.
  - intros u Hu Hin. apply list_elem_of_fmap in Hu as (ep & -> & Hep).
    apply filter_elem in Hep as [Hep Hfresh].
    unfold Update.isNew in Hfresh. apply negb_true_iff, bool_decide_eq_false in Hfresh.
    apply Hfresh. apply elem_of_existingUrls.
    apply elem_of_enclosureUrls in Hin as (it & Hit & He).
    exists it. split; [done|]. split; [done|].
    rewrite Forall_forall in Hurl. by apply Hurl.
Qed.

Lemma updated_items (clock : nat → Z) (feed : Update.Feed)
    (newEpisodes : list RawEpisode) :
  let result := Update.updateFeedWithNewEpisodes clock feed newEpisodes
                  (Update.extractExistingAudioUrls feed) in
  if fst result
  then Update.item (snd result)
       = slice0 Update.MAX_EPISODES
           (sort Update.newestFirst (incomingItems clock feed newEpisodes))
  else snd result = feed
       ∧ List.filter (Update.isNew (Update.extractExistingAudioUrls feed))
           newEpisodes = [].
Proof.
  unfold Update.updateFeedWithNewEpisodes, incomingItems.
  destruct (List.filter _ newEpisodes) as [|ep eps]; cbn; done.
Qed.

End Twice.

Lemma slice0_all {A} (cap : Z) (l : list A) :
  Z.of_nat (length l) ≤ cap → slice0 cap l = l.
Proof.
  intros Hlen. rewrite slice0_take by lia. apply take_ge. lia.
Qed.





(* ================================================================== *)
(** * More properties of the two scripts                          *)
(* ================================================================== *)

(** ** What [escapeXml] writes *)

Lemma append_cons (c : ascii) (a b : string) : String c a +:+ b = String c (a +:+ b).
Proof. reflexivity. Qed.

Lemma append_nil_l (b : string) : "" +:+ b = b.
Proof. reflexivity. Qed.

Lemma xmlEntity_cases (c : ascii) :
  (c = "&"%char ∧ xmlEntity c = Some "&amp;")
  ∨ (c = "<"%char ∧ xmlEntity c = Some "&lt;")
  ∨ (c = ">"%char ∧ xmlEntity c = Some "&gt;")
  ∨ (c = quote ∧ xmlEntity c = Some "&quot;")
  ∨ (c = "'"%char ∧ xmlEntity c = Some "&apos;")
  ∨ (special c = false ∧ xmlEntity c = None).
Proof.
  unfold xmlEntity, special.
  destruct (Ascii.eqb c "&") eqn:E1; [apply Ascii.eqb_eq in E1; auto|].
  destruct (Ascii.eqb c "<") eqn:E2; [apply Ascii.eqb_eq in E2; auto|].
  destruct (Ascii.eqb c ">") eqn:E3; [apply Ascii.eqb_eq in E3; auto 6|].
  destruct (Ascii.eqb c quote) eqn:E4; [apply Ascii.eqb_eq in E4; auto 6|].
  destruct (Ascii.eqb c "'") eqn:E5; [apply Ascii.eqb_eq in E5; auto 8|].
  auto 10.
Qed.

Lemma escapeXml_escaped (s : string) : escaped (escapeXml s) = true.
Proof.
  induction s as [|c s IH]; [done|]. rewrite escapeXml_cons.
  destruct (xmlEntity_cases c) as [[-> ->]|[[-> ->]|[[-> ->]|[[-> ->]|[[-> ->]|[Hc ->]]]]]];
    rewrite ?append_cons, ?append_nil_l; cbn; rewrite ?IH; try done.
  assert (Ascii.eqb c "&" = false) as ->.
  { unfold special in Hc. by destruct (Ascii.eqb c "&"). }
  by rewrite Hc.
Qed.

Lemma escaped_has_char (c : ascii) (s : string) :
  special c = true → c ≠ "&"%char → escaped s = true → has_char c s = false.
Proof.
  intros Hc Hne. induction s as [|a s IH]; [done|]. cbn [escaped has_char].
  intros [Ha Hs]%andb_true_iff. rewrite IH by done. rewrite orb_false_r.
  destruct (Ascii.eqb a c) eqn:E; [|done]. apply Ascii.eqb_eq in E. subst a.
  rewrite (proj2 (Ascii.eqb_neq _ _) Hne) in Ha. by rewrite Hc in Ha.
Qed.

(** the five entities are read back as the characters they stand for *)
Lemma unescape_escapeXml (s : string) : unescapeFrom 0 (escapeXml s) = s.
Proof.
  induction s as [|c s IH]; [done|]. rewrite escapeXml_cons.
  destruct (xmlEntity_cases c) as [[-> ->]|[[-> ->]|[[-> ->]|[[-> ->]|[[-> ->]|[Hc ->]]]]]].
  - change (String "&" (unescapeFrom 0 (escapeXml s)) = String "&" s). by rewrite IH.
  - change (String "<" (unescapeFrom 0 (escapeXml s)) = String "<" s). by rewrite IH.
  - change (String ">" (unescapeFrom 0 (escapeXml s)) = String ">" s). by rewrite IH.
  - change (String quote (unescapeFrom 0 (escapeXml s)) = String quote s). by rewrite IH.
  - change (String "'" (unescapeFrom 0 (escapeXml s)) = String "'" s). by rewrite IH.
  - assert (E : Ascii.eqb "&" c = false).
    { unfold special in Hc. rewrite Ascii.eqb_sym. by destruct (Ascii.eqb c "&"). }
    cbn [unescapeFrom starts_with]. rewrite E. cbn [andb]. by rewrite IH.
Qed.

(** X1. Whatever the text, what [escapeXml] makes of it holds none of the
    characters [<], [>], double quote and apostrophe, and every ampersand
    in it opens one of the entities [&amp;], [&lt;], [&gt;], [&quot;],
    [&apos;].  So it is with each of the six texts of an item of the full
    build and of an item the update makes: none of them can close its
    element or its attribute, or open a tag. *)
Theorem escapeXml_leaves_no_markup :
  (∀ s, escaped (escapeXml s) = true
        ∧ has_char "<" (escapeXml s) = false
        ∧ has_char ">" (escapeXml s) = false
        ∧ has_char quote (escapeXml s) = false
        ∧ has_char "'" (escapeXml s) = false)
  ∧ (∀ (feedLink lastBuildDate : string) (ep : Scrape.Episode),
       let i := Scrape.itemText feedLink lastBuildDate ep in
       escaped (Scrape.itemTitle i) = true ∧ escaped (Scrape.itemLink i) = true
       ∧ escaped (Scrape.itemGuid i) = true ∧ escaped (Scrape.itemPubDate i) = true
       ∧ escaped (Scrape.itemDescription i) = true
       ∧ escaped (Scrape.itemEnclosure i) = true)
  ∧ (∀ episode : Update.Episode,
       let i := Update.createItemXml episode in
       escaped (Update.itemTitle i) = true ∧ escaped (Update.itemLink i) = true
       ∧ escaped (Update.itemGuid i) = true ∧ escaped (Update.itemPubDate i) = true
       ∧ escaped (Update.itemDescription i) = true
       ∧ ∃ url, Update.itemEnclosure i = Some url ∧ escaped url = true).
Proof.
  split; [|split].
  - intros s. pose proof (escapeXml_escaped s) as He.
    split; [exact He|]. by rewrite !escaped_has_char.
  - intros feedLink lastBuildDate ep i. unfold i, Scrape.itemText.
    cbn [Scrape.itemTitle Scrape.itemLink Scrape.itemGuid Scrape.itemPubDate
         Scrape.itemDescription Scrape.itemEnclosure].
    by rewrite !escapeXml_escaped.
  - intros episode i. unfold i, Update.createItemXml.
    cbn [Update.itemTitle Update.itemLink Update.itemGuid Update.itemPubDate
         Update.itemDescription Update.itemEnclosure].
    rewrite !escapeXml_escaped. do 5 (split; [done|]).
    eexists. split; [reflexivity|apply escapeXml_escaped].
Qed.

(** X2. [escapeXml] loses nothing: two texts are escaped to the same text
    only when they are the same text. *)
Theorem escapeXml_loses_nothing (a b : string) :
  escapeXml a = escapeXml b ↔ a = b.
Proof.
  split; [|by intros ->].
  intros Heq. rewrite <- (unescape_escapeXml a), <- (unescape_escapeXml b).
  by rewrite Heq.
Qed.

(** ** What [sanitizeDescription] leaves *)

Lemma has_char_strip (c : ascii) (b : bool) (s : string) :
  has_char c s = false → has_char c (strip_from b s) = false.
Proof.
  revert b. induction s as [|a s IH]; intros b; [done|]. cbn [has_char strip_from].
  intros [Ha Hs]%orb_false_iff.
  destruct b.
  - destruct (Ascii.eqb a ">"); by apply IH.
  - destruct (Ascii.eqb a "<" && has_char ">" s); [by apply IH|].
    cbn [has_char]. rewrite Ha. by apply IH.
Qed.

Lemma tagless_strip (b : bool) (s : string) : tagless (strip_from b s) = true.
Proof.
  revert b. induction s as [|a s IH]; intros b; [done|]. cbn [strip_from].
  destruct b.
  - destruct (Ascii.eqb a ">"); apply IH.
  - destruct (Ascii.eqb a "<" && has_char ">" s) eqn:E; [apply IH|].
    cbn [tagless]. rewrite IH, andb_true_r. apply negb_true_iff.
    apply andb_false_iff in E as [E|E]; [by rewrite E|].
    rewrite (has_char_strip _ _ _ E). apply andb_false_r.
Qed.

Lemma strip_tagless (s : string) : tagless s = true → strip_from false s = s.
Proof.
  induction s as [|a s IH]; [done|]. cbn [tagless strip_from].
  intros [Ha Hs]%andb_true_iff. apply negb_true_iff in Ha. rewrite Ha.
  by rewrite IH.
Qed.

Lemma has_char_collapse (c : ascii) (b : bool) (s : string) :
  is_space c = false →
  has_char c (collapse_from b s) = has_char c s.
Proof.
  intros Hc. revert b. induction s as [|a s IH]; intros b; [done|].
  cbn [collapse_from has_char].
  assert (Hac : is_space a = true → Ascii.eqb a c = false).
  { intros Ha. apply Ascii.eqb_neq. intros ->. congruence. }
  destruct (is_space a) eqn:Ha.
  - rewrite Hac by done. destruct b; cbn [has_char orb]; rewrite ?IH; try done.
    assert (Ascii.eqb " " c = false) as ->; [|done].
    apply Ascii.eqb_neq. intros <-. done.
  - cbn [has_char]. by rewrite IH.
Qed.

Lemma tagless_collapse (b : bool) (s : string) :
  tagless s = true → tagless (collapse_from b s) = true.
Proof.
  revert b. induction s as [|a s IH]; intros b; [done|].
  cbn [tagless collapse_from]. intros [Ha Hs]%andb_true_iff.
  destruct (is_space a) eqn:Esp.
  - destruct b; [by apply IH|]. cbn [tagless]. rewrite IH by done. done.
  - cbn [tagless]. rewrite IH by done. rewrite has_char_collapse by done.
    by rewrite Ha.
Qed.

Lemma starts_space_collapse_true (s : string) :
  starts_space (collapse_from true s) = false.
Proof.
  induction s as [|a s IH]; [done|]. cbn [collapse_from].
  destruct (is_space a) eqn:E; [done|]. cbn. done.
Qed.

Lemma single_spaced_collapse (b : bool) (s : string) :
  single_spaced (collapse_from b s) = true.
Proof.
  revert b. induction s as [|a s IH]; intros b; [done|]. cbn [collapse_from].
  destruct (is_space a) eqn:E.
  - destruct b; [apply IH|]. cbn [single_spaced].
    change (is_space " ") with true. cbn iota.
    rewrite starts_space_collapse_true, IH. done.
  - cbn [single_spaced]. rewrite E, IH. done.
Qed.

Lemma collapse_single_spaced (s : string) :
  single_spaced s = true →
  collapse_from false s = s
  ∧ (starts_space s = false → collapse_from true s = s).
Proof.
  induction s as [|a s IH]; [done|]. cbn [single_spaced collapse_from starts_space].
  intros [Ha Hs]%andb_true_iff. destruct (IH Hs) as [IH1 IH2].
  destruct (is_space a) eqn:E.
  - apply andb_true_iff in Ha as [Ha Hn]. apply Ascii.eqb_eq in Ha. subst a.
    apply negb_true_iff in Hn. split; [|done]. by rewrite IH2.
  - split; [by rewrite IH1|]. intros _. by rewrite IH1.
Qed.

Lemma starts_space_trimStart (s : string) : starts_space (trimStart s) = false.
Proof.
  induction s as [|a s IH]; [done|]. cbn [trimStart].
  destruct (is_space a) eqn:E; [done|]. cbn. done.
Qed.

Lemma trimStart_id (s : string) : starts_space s = false → trimStart s = s.
Proof. destruct s as [|a s]; [done|]. cbn. by intros ->. Qed.

Lemma starts_space_trimEnd (s : string) :
  starts_space s = false → starts_space (trimEnd s) = false.
Proof.
  destruct s as [|a s]; [done|]. cbn [trimEnd starts_space]. intros Ha.
  by destruct (all_space (String a s)).
Qed.

Lemma trimEnd_empty (s : string) : trimEnd s = "" → all_space s = true.
Proof.
  destruct s as [|a s]; [done|]. cbn [trimEnd].
  by destruct (all_space (String a s)).
Qed.

Lemma ends_space_trimEnd (s : string) : ends_space (trimEnd s) = false.
Proof.
  induction s as [|a s IH]; [done|]. cbn [trimEnd].
  destruct (all_space (String a s)) eqn:E; [done|].
  cbn [ends_space]. destruct (trimEnd s) as [|b t] eqn:Et; [|done].
  apply trimEnd_empty in Et. cbn [all_space] in E. rewrite Et in E.
  by rewrite andb_true_r in E.
Qed.

Lemma trimEnd_id (s : string) : ends_space s = false → trimEnd s = s.
Proof.
  induction s as [|a s IH]; [done|]. intros He. cbn [trimEnd].
  destruct (all_space (String a s)) eqn:E.
  - exfalso. revert He E. clear. revert a. induction s as [|b s IH]; intros a.
    + cbn. intros ->. done.
    + intros He E. cbn [all_space] in E. apply andb_true_iff in E as [_ E].
      by apply (IH b).
  - f_equal. apply IH. destruct s; [done|]. exact He.
Qed.

Lemma trim_id (s : string) :
  starts_space s = false → ends_space s = false → trim s = s.
Proof.
  intros Hs He. unfold trim. rewrite trimStart_id by done. by apply trimEnd_id.
Qed.

Lemma trim_trimmed (s : string) :
  starts_space (trim s) = false ∧ ends_space (trim s) = false.
Proof.
  unfold trim. split; [|apply ends_space_trimEnd].
  apply starts_space_trimEnd, starts_space_trimStart.
Qed.

Lemma trim_idem (s : string) : trim (trim s) = trim s.
Proof. destruct (trim_trimmed s). by apply trim_id. Qed.

Lemma all_space_has_char (c : ascii) (s : string) :
  is_space c = false → all_space s = true → has_char c s = false.
Proof.
  intros Hc. induction s as [|a s IH]; [done|]. cbn.
  intros [Ha Hs]%andb_true_iff. rewrite IH by done.
  assert (Ascii.eqb a c = false) as ->; [|done].
  apply Ascii.eqb_neq. intros ->. congruence.
Qed.

Lemma has_char_trimEnd (c : ascii) (s : string) :
  is_space c = false → has_char c (trimEnd s) = has_char c s.
Proof.
  intros Hc. induction s as [|a s IH]; [done|]. cbn [trimEnd].
  destruct (all_space (String a s)) eqn:E.
  - symmetry. by apply all_space_has_char.
  - cbn [has_char]. by rewrite IH.
Qed.

Lemma tagless_trimStart (s : string) : tagless s = true → tagless (trimStart s) = true.
Proof.
  induction s as [|a s IH]; [done|]. cbn [trimStart]. intros H.
  destruct (is_space a); [|done]. cbn [tagless] in H.
  apply andb_true_iff in H as [_ H]. by apply IH.
Qed.

Lemma tagless_trimEnd (s : string) : tagless s = true → tagless (trimEnd s) = true.
Proof.
  induction s as [|a s IH]; [done|]. cbn [trimEnd tagless].
  intros [Ha Hs]%andb_true_iff.
  destruct (all_space (String a s)); [done|]. cbn [tagless].
  rewrite has_char_trimEnd by done. rewrite Ha. by apply IH.
Qed.

Lemma single_spaced_trimStart (s : string) :
  single_spaced s = true → single_spaced (trimStart s) = true.
Proof.
  induction s as [|a s IH]; [done|]. cbn [trimStart]. intros H.
  destruct (is_space a); [|done]. cbn [single_spaced] in H.
  apply andb_true_iff in H as [_ H]. by apply IH.
Qed.

Lemma starts_space_trimEnd_le (s : string) :
  starts_space (trimEnd s) = true → starts_space s = true.
Proof.
  destruct s as [|a s]; [done|]. cbn [trimEnd].
  destruct (all_space (String a s)); [done|]. done.
Qed.

Lemma single_spaced_trimEnd (s : string) :
  single_spaced s = true → single_spaced (trimEnd s) = true.
Proof.
  induction s as [|a s IH]; [done|]. cbn [trimEnd single_spaced].
  intros [Ha Hs]%andb_true_iff.
  destruct (all_space (String a s)); [done|]. cbn [single_spaced].
  rewrite IH by done. rewrite andb_true_r.
  destruct (is_space a); [|done].
  apply andb_true_iff in Ha as [Ha Hn]. rewrite Ha. cbn [andb].
  apply negb_true_iff. apply negb_true_iff in Hn.
  destruct (starts_space (trimEnd s)) eqn:E; [|done].
  apply starts_space_trimEnd_le in E. congruence.
Qed.

Lemma sanitize_normal (s : string) :
  tagless (sanitizeDescription s) = true
  ∧ single_spaced (sanitizeDescription s) = true
  ∧ starts_space (sanitizeDescription s) = false
  ∧ ends_space (sanitizeDescription s) = false.
Proof.
  unfold sanitizeDescription. split; [|split; [|apply trim_trimmed]].
  - unfold trim. apply tagless_trimEnd, tagless_trimStart, tagless_collapse, tagless_strip.
  - unfold trim. apply single_spaced_trimEnd, single_spaced_trimStart, single_spaced_collapse.
Qed.

Lemma sanitize_fixed (s : string) :
  tagless s = true → single_spaced s = true →
  starts_space s = false → ends_space s = false →
  sanitizeDescription s = s.
Proof.
  intros Ht Hs Hb He. unfold sanitizeDescription, strip_tags, collapse_spaces.
  rewrite strip_tagless by done.
  rewrite (proj1 (collapse_single_spaced s Hs)). by apply trim_id.
Qed.



(** ** The date resolver and the publication date *)

(** joining the parts of a split with the separator gives the text back *)
Lemma concat_split_on (c : ascii) (s : string) :
  String.concat (String c "") (split_on c s) = s.
Proof.
  induction s as [|a s IH]; [done|]. cbn [split_on].
  destruct (split_on_cons c s) as (p & ps & Hs). rewrite Hs in IH |- *.
  destruct (Ascii.eqb a c) eqn:E.
  - apply Ascii.eqb_eq in E. subst a.
    change (String.concat (String c "") ("" :: p :: ps))
      with (String c (String.concat (String c "") (p :: ps))).
    by rewrite IH.
  - destruct ps as [|q qs].
    + cbn [String.concat] in *. by rewrite IH.
    + cbn [String.concat] in *. rewrite append_cons. by rewrite IH.
Qed.

Lemma split3_join (s p0 p1 p2 : string) :
  split_on "/" s = [p0; p1; p2] → p0 +:+ "/" +:+ p1 +:+ "/" +:+ p2 = s.
Proof.
  intros Hs. rewrite <- (concat_split_on "/" s), Hs. cbn [String.concat].
  reflexivity.
Qed.

Lemma toUTCString_invalid (d : Date) : toUTCString d = "Invalid Date" ↔ d = None.
Proof.
  destruct d as [t|]; cbn [toUTCString]; [|done].
  split; [|done]. intros H. by apply utc_string_not_invalid in H.
Qed.

Lemma toUTCString_truthy (d : Date) : truthy (toUTCString d) = true.
Proof.
  destruct d as [t|]; [|done]. cbn [toUTCString].
  unfold truthy. apply negb_true_iff, String.eqb_neq. intros H.
  pose proof (length_utc_string t) as Hl. rewrite H in Hl. cbn in Hl. lia.
Qed.

Section Resolver.
Context {host : Host}.

Lemma scrape_parseDateToRss_spec (dateText : string) (fallback : Date) :
  Scrape.parseDateToRss dateText fallback
  = if String.eqb (trim dateText) "" then toUTCString fallback
    else Update.parseDateToRss dateText fallback.
Proof.
  unfold Scrape.parseDateToRss, Update.parseDateToRss.
  destruct (truthy dateText) eqn:Et; cbn [negb orb].
  2:{ apply truthy_false in Et. subst. reflexivity. }
  destruct (String.eqb (trim dateText) ""); [done|].
  destruct (Date_parse dateText) as [t|] eqn:Ep; [done|].
  destruct (includes dateText "/"); [|done].
  destruct (split_on "/" dateText) as [|p0 [|p1 [|p2 [|p3 ps]]]] eqn:Es; try done.
  apply split3_join in Es. by rewrite Es, Ep.
Qed.

Lemma update_parseDateToRss_date (dateText : string) (fallback : Date) :
  ∃ d, Update.parseDateToRss dateText fallback = toUTCString d.
Proof.
  unfold Update.parseDateToRss. destruct (Date_parse dateText) as [t|]; eauto.
Qed.

Lemma scrape_pubDate_dateObj (now : Z) (ep : RawEpisode) :
  Scrape.pubDate (Scrape.toEpisode now ep)
  = toUTCString (Scrape.dateObj (Scrape.toEpisode now ep)).
Proof.
  unfold Scrape.toEpisode. cbn [Scrape.pubDate Scrape.dateObj].
  rewrite or_else_empty, scrape_parseDateToRss_spec.
  destruct (String.eqb (trim (dateText ep)) "") eqn:Eb; [done|].
  destruct (truthy (dateText ep)) eqn:Et.
  - unfold Update.parseDateToRss. by destruct (Date_parse (dateText ep)).
  - apply truthy_false in Et. rewrite Et in Eb. done.
Qed.

Lemma update_pubDate_dateObj (now : Z) (ep : RawEpisode) :
  dateText ep ≠ "" →
  Update.pubDate (Update.toEpisode now ep)
  = toUTCString (Update.dateObj (Update.toEpisode now ep)).
Proof.
  intros Hne. unfold Update.toEpisode. cbn [Update.pubDate Update.dateObj].
  rewrite or_else_empty. unfold Update.parseDateToRss.
  destruct (truthy (dateText ep)) eqn:Et.
  - by destruct (Date_parse (dateText ep)).
  - by apply truthy_false in Et.
Qed.

End Resolver.

(** X5. The second attempt of the resolver of the full build, on a text
    with two slashes, parses the very text the first attempt failed on,
    so it changes nothing: the resolver gives the fallback for a text
    that is empty or all white space, and else the date the host reads
    in the text, or the fallback if it reads none.  For a text that is
    not blank this is what the resolver of the update gives. *)
Theorem slash_retry_changes_nothing (host : Host) (dateText : string)
    (fallback : Date) :
  Scrape.parseDateToRss dateText fallback
    = (if String.eqb (trim dateText) "" then toUTCString fallback
       else match Date_parse dateText with
            | Some t => utc_string t
            | None => toUTCString fallback
            end)
  ∧ (String.eqb (trim dateText) "" = false →
     Scrape.parseDateToRss dateText fallback
     = Update.parseDateToRss dateText fallback).
Proof.
  rewrite scrape_parseDateToRss_spec. split.
  - destruct (String.eqb (trim dateText) ""); [done|].
    unfold Update.parseDateToRss. by destruct (Date_parse dateText).
  - by intros ->.
Qed.


(** X7. In the full build the publication date of an episode is always
    its date object as [toUTCString] writes it; the feed shows the date
    the episodes are sorted by.  In either script the publication date is
    the text Invalid Date exactly when the date text is not empty and the
    host reads no date in it. *)
Theorem pubDate_written_from_dateObj (host : Host) (now : Z) (ep : RawEpisode) :
  Scrape.pubDate (Scrape.toEpisode now ep)
    = toUTCString (Scrape.dateObj (Scrape.toEpisode now ep))
  ∧ (Scrape.pubDate (Scrape.toEpisode now ep) = "Invalid Date"
     ↔ dateText ep ≠ "" ∧ Date_parse (dateText ep) = None)
  ∧ (Update.pubDate (Update.toEpisode now ep) = "Invalid Date"
     ↔ dateText ep ≠ "" ∧ Date_parse (dateText ep) = None).
Proof.
  split; [apply scrape_pubDate_dateObj|]. split.
  - rewrite scrape_pubDate_dateObj, toUTCString_invalid.
    unfold Scrape.toEpisode. cbn [Scrape.dateObj].
    destruct (truthy (dateText ep)) eqn:Et.
    + split; [intros H; split; [|done]|by intros [_ H]].
      intros E. rewrite E in Et. done.
    + apply truthy_false in Et. split; [done|]. by intros [H _].
  - destruct (decide (dateText ep = "")) as [E|E].
    + split; [|by intros [H _]]. unfold Update.toEpisode. cbn [Update.pubDate].
      rewrite E. change (truthy "") with false. cbv iota.
      change (or_else "" "") with "". unfold Update.parseDateToRss.
      destruct (Date_parse ""); cbn [toUTCString]; intros H;
        by apply utc_string_not_invalid in H.
    + rewrite update_pubDate_dateObj, toUTCString_invalid by done.
      unfold Update.toEpisode. cbn [Update.dateObj].
      destruct (truthy (dateText ep)) eqn:Et.
      * split; [done|by intros [_ H]].
      * by apply truthy_false in Et.
Qed.

(** X8. On a host that reads no date in the empty text, and with the
    series address the update has, the full build and the update make the
    same six texts for an item from the same record at the same time:
    title, link, guid, publication date, description and enclosure
    address. *)
Theorem both_scripts_make_the_same_item (host : Host) (now : Z) (ep : RawEpisode)
    (lastBuildDate : string) :
  Date_parse "" = None →
  let full := Scrape.itemText Update.FEED_LINK lastBuildDate (Scrape.toEpisode now ep) in
  let made := Update.createItemXml (Update.toEpisode now ep) in
  Scrape.itemTitle full = Update.itemTitle made
  ∧ Scrape.itemLink full = Update.itemLink made
  ∧ Scrape.itemGuid full = Update.itemGuid made
  ∧ Scrape.itemPubDate full = Update.itemPubDate made
  ∧ Scrape.itemDescription full = Update.itemDescription made
  ∧ Some (Scrape.itemEnclosure full) = Update.itemEnclosure made.
Proof.
  intros Hempty full made. unfold full, made, Scrape.itemText, Update.createItemXml.
  cbn [Scrape.itemTitle Scrape.itemLink Scrape.itemGuid Scrape.itemPubDate
       Scrape.itemDescription Scrape.itemEnclosure
       Update.itemTitle Update.itemLink Update.itemGuid Update.itemPubDate
       Update.itemDescription Update.itemEnclosure].
  split; [reflexivity|]. split; [reflexivity|]. split; [reflexivity|].
  split; [|split; reflexivity].
  assert (Hsame : Scrape.pubDate (Scrape.toEpisode now ep)
                  = Update.pubDate (Update.toEpisode now ep)).
  { unfold Scrape.toEpisode, Update.toEpisode. cbn [Scrape.pubDate Update.pubDate].
    rewrite scrape_parseDateToRss_spec, or_else_empty.
    destruct (String.eqb (trim (dateText ep)) "") eqn:Eb; [|done].
    unfold Update.parseDateToRss.
    destruct (truthy (dateText ep)) eqn:Et.
    - by destruct (Date_parse (dateText ep)).
    - apply truthy_false in Et. rewrite Et, Hempty. done. }
  rewrite Hsame.
  assert (Hne : truthy (Update.pubDate (Update.toEpisode now ep)) = true).
  { unfold Update.toEpisode. cbn [Update.pubDate].
    destruct (update_parseDateToRss_date (or_else (dateText ep) "")
                (if truthy (dateText ep) then Date_parse (dateText ep) else Some now))
      as [d ->].
    apply toUTCString_truthy. }
  unfold or_else at 1. by rewrite Hne.
Qed.

Lemma both_scripts_make_the_same_item_witness :
  Date_parse (host := strictHost) "" = None
  ∧ Scrape.itemPubDate
      (Scrape.itemText Update.FEED_LINK ""
         (Scrape.toEpisode (host := strictHost) 0 markupEpisode))
    = Update.itemPubDate
        (Update.createItemXml (Update.toEpisode (host := strictHost) 0 markupEpisode))
  ∧ Scrape.itemDescription
      (Scrape.itemText Update.FEED_LINK ""
         (Scrape.toEpisode (host := strictHost) 0 markupEpisode))
    = Update.itemDescription
        (Update.createItemXml (Update.toEpisode (host := strictHost) 0 markupEpisode)).
Proof.
  pose proof (both_scripts_make_the_same_item strictHost 0 markupEpisode "" eq_refl)
    as (_ & _ & _ & Hp & Hd & _).
  split; [reflexivity|]. split; [exact Hp|exact Hd].
Defined.

(** ** Which episodes the full build writes, and in which order *)

Section Stable.
Context {A : Type} (key : A → Date).

Lemma insert_datedAt (k : Date) (x : A) (l : list A) :
  datedAt key k (insert (byKey key) x l) = datedAt key k (x :: l).
Proof.
  induction l as [|y l IH]; cbn [insert]; [done|].
  destruct (goes_after (byKey key x y)) eqn:E; [|done].
  unfold datedAt in *. cbn [List.filter]. rewrite IH. cbn [List.filter].
  unfold byKey, Date_sub in E.
  destruct (key y) as [ky|] eqn:Ey; [|done].
  destruct (key x) as [kx|] eqn:Ex; [|done].
  cbn [goes_after] in E. apply Z.ltb_lt in E.
  repeat case_bool_decide; try done.
  subst k. simplify_eq. lia.
Qed.

(** the sort is stable: the elements of one date stay in their order *)
Lemma sort_datedAt (k : Date) (l : list A) :
  datedAt key k (sort (byKey key) l) = datedAt key k l.
Proof.
  induction l as [|x l IH]; cbn [sort]; [done|].
  rewrite insert_datedAt. unfold datedAt in *. cbn [List.filter]. by rewrite IH.
Qed.

Lemma length_sort (l : list A) : length (sort (byKey key) l) = length l.
Proof. by rewrite sort_perm. Qed.

End Stable.

Lemma length_slice0 {A} (cap : Z) (l : list A) :
  0 ≤ cap → Z.of_nat (length (slice0 cap l)) = Z.min cap (Z.of_nat (length l)).
Proof.
  intros Hcap. rewrite slice0_take by done. rewrite length_take. lia.
Qed.

Lemma filter_app_list {A} (f : A → bool) (l k : list A) :
  List.filter f (l ++ k) = List.filter f l ++ List.filter f k.
Proof. induction l as [|x l IH]; cbn; [done|]. destruct (f x); by rewrite IH. Qed.

Lemma datedAt_take {A} (key : A → Date) (k : Date) (n : nat) (l : list A) :
  datedAt key k (take n l) `prefix_of` datedAt key k l.
Proof.
  exists (datedAt key k (drop n l)). unfold datedAt.
  rewrite <- filter_app_list. by rewrite take_drop.
Qed.

Lemma datedAt_slice0 {A} (key : A → Date) (k : Date) (cap : Z) (l : list A) :
  datedAt key k (slice0 cap l) `prefix_of` datedAt key k l.
Proof. destruct (slice0_firstn cap l) as [n ->]. apply datedAt_take. Qed.

Section FullBuildCount.
Context {host : Host}.

Lemma length_full_toEpisodes (clock : nat → Z) (i : nat) (raw : list RawEpisode) :
  length (Scrape.toEpisodes clock i raw) = length raw.
Proof. revert i. induction raw as [|ep raw IH]; intros i; cbn; [done|]. by rewrite IH. Qed.

Lemma raw_full_toEpisodes (clock : nat → Z) (i : nat) (raw : list RawEpisode) :
  Scrape.raw <$> Scrape.toEpisodes clock i raw = raw.
Proof.
  revert i. induction raw as [|ep raw IH]; intros i; [done|].
  cbn [Scrape.toEpisodes]. rewrite fmap_cons, IH. done.
Qed.

Lemma scrapeEpisodes_take (cap : Z) (articleItems : list Scrape.Article) :
  0 ≤ cap →
  Scrape.scrapeEpisodes cap articleItems
  = take (Z.to_nat cap) (Scrape.extract articleItems).
Proof.
  intros Hcap. unfold Scrape.scrapeEpisodes.
  destruct (cap <? Z.of_nat (length (Scrape.extract articleItems))) eqn:E.
  - by apply slice0_take.
  - apply Z.ltb_ge in E. symmetry. apply take_ge. lia.
Qed.

Lemma length_update_toEpisodes (clock : nat → Z) (i : nat) (eps : list RawEpisode) :
  length (Update.toEpisodes clock i eps) = length eps.
Proof. revert i. induction eps as [|ep eps IH]; intros i; cbn; [done|]. by rewrite IH. Qed.

End FullBuildCount.

(** X9. With a cap that is not negative, [scrapeEpisodes] returns the
    first records of the extraction in page order, [cap] of them or all
    if there are fewer.  [main] hands no more than [cap] episodes to
    [buildRss], whose own cut then drops nothing: the episodes of the feed
    are those records, all of them, sorted.  So the cap keeps the first
    episodes of the page, not the newest by date. *)
Theorem full_build_writes_every_scraped_episode
    (host : Host) (cap : Z) (clock : nat → Z) (articleItems : list Scrape.Article) :
  0 ≤ cap →
  let rawEpisodes := Scrape.scrapeEpisodes cap articleItems in
  let episodes := Scrape.toEpisodes clock 0 rawEpisodes in
  rawEpisodes = take (Z.to_nat cap) (Scrape.extract articleItems)
  ∧ Z.of_nat (length rawEpisodes)
    = Z.min cap (Z.of_nat (length (Scrape.extract articleItems)))
  ∧ Scrape.feedEpisodes cap episodes = sort Scrape.newestFirst episodes
  ∧ Scrape.feedEpisodes cap episodes ≡ₚ episodes
  ∧ Scrape.raw <$> episodes = rawEpisodes.
Proof.
  intros Hcap rawEpisodes episodes.
  assert (Hraw : rawEpisodes = take (Z.to_nat cap) (Scrape.extract articleItems))
    by by apply scrapeEpisodes_take.
  assert (Hlen : Z.of_nat (length rawEpisodes) ≤ cap).
  { rewrite Hraw, length_take. lia. }
  split; [exact Hraw|]. split; [rewrite Hraw, length_take; lia|].
  assert (Hall : Scrape.feedEpisodes cap episodes = sort Scrape.newestFirst episodes).
  { unfold Scrape.feedEpisodes. apply slice0_all.
    rewrite (length_sort Scrape.dateObj). unfold episodes.
    by rewrite length_full_toEpisodes. }
  split; [exact Hall|]. split; [rewrite Hall; apply (sort_perm Scrape.dateObj)|].
  apply raw_full_toEpisodes.
Qed.

(** Of the two articles of the example, with the cap 1, the first is
    kept, though the second is the older one. *)
Lemma full_build_writes_every_scraped_episode_witness :
  0 ≤ 1
  ∧ Scrape.scrapeEpisodes 1 [exampleArticle; octoberArticle]
    = take 1 (Scrape.extract [exampleArticle; octoberArticle])
  ∧ Scrape.feedEpisodes 1
      (Scrape.toEpisodes (host := strictHost) clock0 0
         (Scrape.scrapeEpisodes 1 [exampleArticle; octoberArticle]))
    ≡ₚ Scrape.toEpisodes (host := strictHost) clock0 0
         (Scrape.scrapeEpisodes 1 [exampleArticle; octoberArticle]).
Proof.
  assert (Hcap : 0 ≤ 1) by lia.
  destruct (full_build_writes_every_scraped_episode strictHost 1 clock0
              [exampleArticle; octoberArticle] Hcap) as (Hraw & _ & _ & Hperm & _).
  split; [exact Hcap|]. split; [exact Hraw|exact Hperm].
Defined.


Section Reproducible.
Context {host : Host}.

Lemma toEpisode_clock (now now' : Z) (ep : RawEpisode) :
  dateText ep ≠ "" → Scrape.toEpisode now ep = Scrape.toEpisode now' ep.
Proof.
  intros Hne. unfold Scrape.toEpisode.
  assert (truthy (dateText ep) = true) as ->; [|done].
  unfold truthy. by apply negb_true_iff, String.eqb_neq.
Qed.

Lemma toEpisodes_clock (clock clock' : nat → Z) (i j : nat) (raw : list RawEpisode) :
  Forall (fun ep => dateText ep ≠ "") raw →
  Scrape.toEpisodes clock i raw = Scrape.toEpisodes clock' j raw.
Proof.
  revert i j. induction raw as [|ep raw IH]; intros i j Hraw; [done|].
  apply Forall_cons in Hraw as [Hep Hraw]. cbn [Scrape.toEpisodes].
  by rewrite (toEpisode_clock (clock i) (clock' j)), (IH (S i) (S j)).
Qed.

Lemma itemText_lastBuildDate (feedLink lb lb' : string) (now : Z) (ep : RawEpisode) :
  Scrape.itemText feedLink lb (Scrape.toEpisode now ep)
  = Scrape.itemText feedLink lb' (Scrape.toEpisode now ep).
Proof.
  unfold Scrape.itemText. f_equal.
  rewrite scrape_pubDate_dateObj. unfold or_else. by rewrite toUTCString_truthy.
Qed.

Lemma elem_of_full_toEpisodes (clock : nat → Z) (i : nat) (raw : list RawEpisode) e :
  e ∈ Scrape.toEpisodes clock i raw → ∃ now ep, e = Scrape.toEpisode now ep.
Proof.
  revert i. induction raw as [|ep raw IH]; intros i; cbn [Scrape.toEpisodes].
  - intros H. by apply elem_of_nil in H.
  - intros [->|H]%elem_of_cons; [eauto|by eapply IH].
Qed.

End Reproducible.

(** X11. When every record has a date text, the items of the feed the
    full build writes, the six texts of each and their order, are the
    same whatever the clock shows during the run: the time of the run
    goes into the last build date of the channel only. *)
Theorem full_build_items_do_not_depend_on_the_clock (host : Host) (cap : Z)
    (feedLink lastBuildDate lastBuildDate' : string) (clock clock' : nat → Z)
    (rawEpisodes : list RawEpisode) :
  Forall (fun ep => dateText ep ≠ "") rawEpisodes →
  Scrape.feedItems cap feedLink lastBuildDate (Scrape.toEpisodes clock 0 rawEpisodes)
  = Scrape.feedItems cap feedLink lastBuildDate'
      (Scrape.toEpisodes clock' 0 rawEpisodes).
Proof.
  intros Hraw. unfold Scrape.feedItems.
  rewrite (toEpisodes_clock clock clock' 0 0 rawEpisodes Hraw).
  apply map_ext_in. intros e He. apply list_elem_of_In in He.
  assert (Hin : e ∈ Scrape.toEpisodes clock' 0 rawEpisodes).
  { unfold Scrape.feedEpisodes in He.
    eapply elem_of_sublist in He; [|apply slice0_sublist].
    by rewrite (sort_perm Scrape.dateObj) in He. }
  apply elem_of_full_toEpisodes in Hin as (now & ep & ->).
  apply itemText_lastBuildDate.
Qed.

Lemma full_build_items_do_not_depend_on_the_clock_witness :
  Forall (fun ep => dateText ep ≠ "") [octoberFirst; markupEpisode]
  ∧ Scrape.feedItems 100 Update.FEED_LINK "Sun, 02 Nov 2025 11:04:56 GMT"
      (Scrape.toEpisodes (host := strictHost) clock0 0 [octoberFirst; markupEpisode])
    = Scrape.feedItems 100 Update.FEED_LINK "Thu, 01 Jan 1970 00:00:00 GMT"
        (Scrape.toEpisodes (host := strictHost) (fun _ => 0) 0
           [octoberFirst; markupEpisode]).
Proof.
  assert (Hraw : Forall (fun ep => dateText ep ≠ "") [octoberFirst; markupEpisode])
    by (repeat (apply Forall_cons; split; [discriminate|]); constructor).
  split; [exact Hraw|].
  exact (full_build_items_do_not_depend_on_the_clock strictHost 100 Update.FEED_LINK
           "Sun, 02 Nov 2025 11:04:56 GMT" "Thu, 01 Jan 1970 00:00:00 GMT"
           clock0 (fun _ => 0) [octoberFirst; markupEpisode] Hraw).
Defined.

(** ** What a merge adds *)

Lemma filter_nil_iff {A} (f : A → bool) (l : list A) :
  List.filter f l = [] ↔ ∀ x, x ∈ l → f x = false.
Proof.
  induction l as [|x l IH]; cbn.
  - split; [|done]. intros _ x Hx. by apply elem_of_nil in Hx.
  - destruct (f x) eqn:E.
    + split; [done|]. intros H. specialize (H x). rewrite E in H.
      discriminate H. apply elem_of_cons. by left.
    + rewrite IH. split.
      * intros H z [->|Hz]%elem_of_cons; [done|by apply H].
      * intros H z Hz. apply H, elem_of_cons. by right.
Qed.

(** X12. The merge returns false exactly when the audio URL of every
    scraped episode is in the set of known URLs, and then leaves the feed
    as it is.  When it returns true the feed has the new items and the
    existing ones, 100 at most: nothing else comes in, nothing is lost
    while there is room, the items are as many as the new and the existing
    ones together or 100; the last build date is the time of the run and
    the other children of the channel stay as they are. *)
Theorem update_adds_exactly_the_new (host : Host) (clock : nat → Z)
    (feed : Update.Feed) (newEpisodes : list RawEpisode) (urls : gset string) :
  let fresh := List.filter (Update.isNew urls) newEpisodes in
  let made := Update.createItemXml <$> Update.toEpisodes clock 0 fresh in
  let result := Update.updateFeedWithNewEpisodes clock feed newEpisodes urls in
  (fst result = false ↔ ∀ ep, ep ∈ newEpisodes → audioUrl ep ∈ urls)
  ∧ (fst result = false → snd result = feed)
  ∧ (fst result = true →
     Z.of_nat (length (Update.item (snd result)))
       = Z.min 100 (Z.of_nat (length fresh + length (Update.item feed)))
     ∧ (∃ dropped,
          Update.item (snd result) ++ dropped ≡ₚ made ++ Update.item feed)
     ∧ ((length fresh + length (Update.item feed) ≤ 100)%nat →
        Update.item (snd result) ≡ₚ made ++ Update.item feed)
     ∧ Update.lastBuildDate (snd result)
       = toUTCString (Some (clock (length fresh)))
     ∧ Update.channel (snd result) = Update.channel feed).
Proof.
  intros fresh made result.
  assert (Hfresh : fresh = [] ↔ ∀ ep, ep ∈ newEpisodes → audioUrl ep ∈ urls).
  { unfold fresh. rewrite filter_nil_iff. unfold Update.isNew.
    split; intros H ep Hep; specialize (H ep Hep).
    - apply negb_false_iff in H. by apply bool_decide_eq_true in H.
    - apply negb_false_iff. by apply bool_decide_eq_true. }
  assert (Hlen : length (made ++ Update.item feed)
                 = (length fresh + length (Update.item feed))%nat).
  { unfold made. by rewrite length_app, length_fmap, length_update_toEpisodes. }
  assert (Hres : result
    = if (length fresh =? 0)%nat then (false, feed)
      else (true,
            {| Update.item :=
                 slice0 Update.MAX_EPISODES
                   (sort (byKey pubKey) (made ++ Update.item feed));
               Update.lastBuildDate := toUTCString (Some (clock (length fresh)));
               Update.channel := Update.channel feed |})) by reflexivity.
  rewrite Hres. clear Hres. clearbody made.
  destruct fresh as [|ep eps] eqn:E; cbn [length Nat.eqb fst snd].
  - split; [by rewrite <- Hfresh|]. split; [done|]. done.
  - split.
    { split; [done|]. intros H. apply Hfresh in H. done. }
    split; [done|]. intros _.
    cbn [Update.item Update.lastBuildDate Update.channel].
    pose proof (sort_perm pubKey (made ++ Update.item feed)) as Hperm.
    set (sorted := sort (byKey pubKey) (made ++ Update.item feed)) in *.
    assert (Hsl : length sorted = length (made ++ Update.item feed))
      by by rewrite Hperm.
    split; [|split; [|split; [|done]]].
    + rewrite length_slice0 by done. rewrite Hsl, Hlen. cbn [length].
      unfold Update.MAX_EPISODES. lia.
    + exists (drop (Z.to_nat Update.MAX_EPISODES) sorted).
      rewrite slice0_take by done. by rewrite take_drop.
    + intros Hroom. rewrite slice0_all; [done|].
      rewrite Hsl, Hlen. cbn [length] in *. unfold Update.MAX_EPISODES. lia.
Qed.

Lemma size_existingUrls_from (items : list Update.Item) (acc : gset string) :
  (size (foldl (fun audioUrls it =>
               match Update.itemEnclosure it with
               | Some url => if truthy url then {[url]} ∪ audioUrls else audioUrls
               | None => audioUrls
               end) acc items) ≤ size acc + length items)%nat.
Proof.
  revert acc. induction items as [|it items IH]; intros acc; cbn [foldl length]; [lia|].
  etrans; [apply IH|].
  destruct (Update.itemEnclosure it) as [url|]; [|lia].
  destruct (truthy url); [|lia].
  rewrite size_union_alt, size_singleton.
  assert (size (acc ∖ {[url]}) ≤ size acc)%nat
    by (by apply subseteq_size, subseteq_difference_l).
  lia.
Qed.


(** ** What an extraction pass returns *)

Lemma dedup_first (seen : gset string) (results : list RawEpisode) (ep : RawEpisode) :
  ep ∈ dedup seen results →
  ∃ before after, results = before ++ ep :: after
    ∧ ∀ e, e ∈ before → audioUrl e ≠ audioUrl ep.
Proof.
  revert seen. induction results as [|r rest IH]; intros seen Hin; cbn [dedup] in Hin.
  - by apply elem_of_nil in Hin.
  - case_bool_decide as Hseen.
    + pose proof (dedup_fresh _ _ _ Hin) as Hfresh.
      destruct (IH _ Hin) as (before & after & -> & Hb).
      exists (r :: before), after. split; [done|].
      intros e [->|He]%elem_of_cons; [|by apply Hb]. intros Heq. congruence.
    + apply elem_of_cons in Hin as [->|Hin].
      * exists [], rest. split; [done|]. intros e He. by apply elem_of_nil in He.
      * pose proof (dedup_fresh _ _ _ Hin) as Hfresh.
        destruct (IH _ Hin) as (before & after & -> & Hb).
        exists (r :: before), after. split; [done|].
        intros e [->|He]%elem_of_cons; [|by apply Hb]. intros Heq.
        apply Hfresh. rewrite <- Heq. apply elem_of_union. left.
        by apply elem_of_singleton.
Qed.

Lemma slice0_20 {A} (l : list A) : slice0 Update.MAX_NEW_EPISODES_TO_CHECK l = take 20 l.
Proof. by rewrite slice0_take. Qed.

Lemma length_omap_le {A B} (f : A → option B) (l : list A) :
  (length (omap f l) ≤ length l)%nat.
Proof. induction l as [|x l IH]; cbn; [lia|]. destruct (f x); cbn; lia. Qed.


Lemma includes_nonempty (s sub : string) :
  sub ≠ "" → includes s sub = true → s ≠ "".
Proof. intros Hsub Hin ->. destruct sub; [done|]. cbn in Hin. done. Qed.

Lemma title_of_spec (titleAnchor : option Anchor) :
  title_of titleAnchor ≠ "" ∧ trim (title_of titleAnchor) = title_of titleAnchor.
Proof.
  unfold title_of. destruct titleAnchor as [a|]; [|done].
  unfold or_else. destruct (truthy (trim (textContent a))) eqn:E; [|done].
  split; [|apply trim_idem].
  unfold truthy in E. by apply negb_true_iff, String.eqb_neq in E.
Qed.

Lemma link_of_spec (titleAnchor : option Anchor) (audioUrl : string) :
  audioUrl ≠ "" →
  (∀ a, titleAnchor = Some a → qualifies a = true) →
  link_of titleAnchor audioUrl ≠ ""
  ∧ (link_of titleAnchor audioUrl = audioUrl
     ∨ (re_test yearInPath (link_of titleAnchor audioUrl) = true
        ∧ includes (link_of titleAnchor audioUrl) "ondemand.npr.org" = false
        ∧ includes (link_of titleAnchor audioUrl) "player/embed" = false)).
Proof.
  intros Hne Hq. unfold link_of. destruct titleAnchor as [a|]; [|by split; [|left]].
  unfold or_else. destruct (truthy (href a)) eqn:E; [|by split; [|left]].
  split; [unfold truthy in E; by apply negb_true_iff, String.eqb_neq in E|].
  right. specialize (Hq a eq_refl). unfold qualifies in Hq.
  apply andb_true_iff in Hq as [Hq H4]. apply andb_true_iff in Hq as [Hq H3].
  apply andb_true_iff in Hq as [H1 H2]. apply negb_true_iff in H2, H3. done.
Qed.

Lemma scrapeArticle_wellFormed (article : Scrape.Article) (ep : RawEpisode) :
  Scrape.scrapeArticle article = Some ep → wellFormed ep.
Proof.
  unfold Scrape.scrapeArticle. destruct (Scrape.downloadLi article) as [inLi|]; [|done].
  destruct (List.find _ inLi) as [d|] eqn:Ef; [|done].
  apply find_elem in Ef as [_ Hd]. cbv beta in Hd.
  destruct (truthy (href d)); cbn [negb]; [|done]. intros [= <-].
  assert (Hne : href d ≠ "")
    by (by apply (includes_nonempty _ "ondemand.npr.org")).
  unfold wellFormed. cbn [title link audioUrl].
  destruct (title_of_spec (Scrape.findTitleAnchor article)) as [Ht1 Ht2].
  destruct (link_of_spec (Scrape.findTitleAnchor article) (href d) Hne) as [Hl1 Hl2].
  { intros a Ha. unfold Scrape.findTitleAnchor in Ha. by apply find_elem in Ha as [_ ?]. }
  done.
Qed.

Lemma update_findTitleAnchor_qualifies (start : Update.Located) (a : Anchor) :
  Update.findTitleAnchor start = Some a → qualifies a = true.
Proof.
  unfold Update.findTitleAnchor. intros Hfind.
  pose proof (findTitleAnchorFrom_spec Update.MAX_DEPTH
                (Update.container start :: Update.ancestors start)) as Hspec.
  rewrite Hfind in Hspec. destruct Hspec as (i & node & _ & _ & Hc).
  by apply claimedChoice_elem in Hc as [_ Hq].
Qed.

Lemma scrapeAnchor_wellFormed (a : Update.Located) (ep : RawEpisode) :
  Update.isDownload (Update.anchor a) = true →
  Update.scrapeAnchor a = Some ep → wellFormed ep.
Proof.
  intros Hd. unfold Update.scrapeAnchor.
  destruct (truthy (href (Update.anchor a))); cbn [negb]; [|done]. intros [= <-].
  unfold Update.isDownload in Hd. apply andb_true_iff in Hd as [_ Hd].
  assert (Hne : href (Update.anchor a) ≠ "")
    by (by apply (includes_nonempty _ "ondemand.npr.org")).
  unfold wellFormed. cbn [title link audioUrl].
  destruct (title_of_spec (Update.findTitleAnchor a)) as [Ht1 Ht2].
  destruct (link_of_spec (Update.findTitleAnchor a) (href (Update.anchor a)) Hne)
    as [Hl1 Hl2].
  { intros b Hb. by eapply update_findTitleAnchor_qualifies. }
  done.
Qed.


(** X16. Either extraction returns its records in the order of the page,
    and of the containers that share an audio URL it keeps the record of
    the first: no record before a returned one, among those pushed, has
    its audio URL. *)
Theorem extraction_keeps_first_in_page_order :
  (∀ (articleItems : list Scrape.Article),
      sublist (Scrape.extract articleItems) (omap Scrape.scrapeArticle articleItems)
      ∧ ∀ ep, ep ∈ Scrape.extract articleItems →
          ∃ before after,
            omap Scrape.scrapeArticle articleItems = before ++ ep :: after
            ∧ ∀ e, e ∈ before → audioUrl e ≠ audioUrl ep)
  ∧ (∀ (anchors : list Update.Located),
      sublist (Update.scrapeRecentEpisodes anchors)
        (omap Update.scrapeAnchor (checkedAnchors anchors))
      ∧ ∀ ep, ep ∈ Update.scrapeRecentEpisodes anchors →
          ∃ before after,
            omap Update.scrapeAnchor (checkedAnchors anchors) = before ++ ep :: after
            ∧ ∀ e, e ∈ before → audioUrl e ≠ audioUrl ep).
Proof.
  split.
  - intros articleItems. split; [apply dedup_sublist|].
    intros ep Hep. by apply dedup_first in Hep.
  - intros anchors. unfold Update.scrapeRecentEpisodes, checkedAnchors.
    rewrite slice0_20. split; [apply dedup_sublist|].
    intros ep Hep. by apply dedup_first in Hep.
Qed.

Lemma bullet_description_trimmed (contextText : string) :
  trim (bullet_description contextText) = bullet_description contextText
  ∧ single_spaced (bullet_description contextText) = true.
Proof.
  unfold bullet_description. destruct (after_first bullet contextText); [|done].
  split; [apply trim_idem|].
  unfold trim. apply single_spaced_trimEnd, single_spaced_trimStart, single_spaced_collapse.
Qed.


(** ** What a match of a pattern is *)

Lemma run_rep (p : ascii → bool) (lo : nat) (hi : option nat) (r : regex)
    (prev : option ascii) (s : string) (acc : list ascii) :
  run (Rep p lo hi :: r) prev s acc = repFrom p lo hi (run r) 0 prev s acc.
Proof. reflexivity. Qed.

Lemma pushed_cons (c : ascii) (m : string) (acc : list ascii) :
  pushed (String c m) acc = pushed m (c :: acc).
Proof. unfold pushed. cbn. by rewrite <- app_assoc. Qed.

Lemma pushed_app (a b : string) (acc : list ascii) :
  pushed (a +:+ b) acc = pushed b (pushed a acc).
Proof.
  revert acc. induction a as [|c a IH]; intros acc; [done|].
  rewrite append_cons, !pushed_cons. apply IH.
Qed.

Lemma eat_sound (ci : bool) (p s : string) (prev : option ascii) (acc : list ascii)
    s' prev' acc' :
  eat ci p s prev acc = Some (s', prev', acc') →
  ∃ m, s = m +:+ s' ∧ acc' = pushed m acc
       ∧ (if ci then same_letters p m = true else m = p).
Proof.
  revert s prev acc. induction p as [|a p IH]; intros s prev acc; cbn [eat].
  - intros [= <- <- <-]. exists "". by destruct ci.
  - destruct s as [|b s]; [done|].
    destruct (if ci then _ else _) eqn:E; [|done]. intros H.
    apply IH in H as (m & -> & -> & Hm). exists (String b m).
    split; [done|]. split; [by rewrite pushed_cons|].
    destruct ci.
    + cbn. by rewrite E, Hm.
    + apply Ascii.eqb_eq in E. by subst.
Qed.

Lemma repFrom_sound (p : ascii → bool) (lo : nat) (hi : option nat) (r : regex) k :
  sound r k →
  ∀ s n prev acc acc',
    repFrom p lo hi k n prev s acc = Some acc' →
    ∃ m1 m2 rest, s = m1 +:+ m2 +:+ rest
      ∧ acc' = pushed m2 (pushed m1 acc)
      ∧ all_chars p m1 = true
      ∧ (lo ≤ n + String.length m1)%nat
      ∧ match hi with
        | Some h => (n ≤ h → n + String.length m1 ≤ h)%nat
        | None => True
        end
      ∧ fits r m2.
Proof.
  intros Hk. induction s as [|c s IH]; intros n prev acc acc'; cbn [repFrom].
  - destruct (lo <=? n)%nat eqn:El; [|done]. intros H.
    apply Hk in H as (m & rest & Hs & -> & Hm). apply Nat.leb_le in El.
    exists "", m, rest. cbn. split; [done|]. split; [done|]. split; [done|].
    split; [lia|]. split; [by destruct hi; [lia|]|done].
  - destruct (below n hi && p c) eqn:Eb.
    + destruct (repFrom p lo hi k (S n) (Some c) s (c :: acc)) as [res|] eqn:Er.
      * intros [= <-]. apply IH in Er as (m1 & m2 & rest & -> & -> & Hp & Hlo & Hhi & Hm).
        apply andb_true_iff in Eb as [Hb Hc].
        exists (String c m1), m2, rest. split; [done|].
        split; [by rewrite pushed_cons|]. cbn [all_chars String.length].
        split; [by rewrite Hc|]. split; [lia|]. split; [|done].
        destruct hi as [h|]; [|done]. cbn in Hb. apply Nat.ltb_lt in Hb.
        intros _. lia.
      * destruct (lo <=? n)%nat eqn:El; [|done]. intros H.
        apply Hk in H as (m & rest & Hs & -> & Hm). apply Nat.leb_le in El.
        exists "", m, rest. cbn. split; [done|]. split; [done|]. split; [done|].
        split; [lia|]. split; [by destruct hi; [lia|]|done].
    + destruct (lo <=? n)%nat eqn:El; [|done]. intros H.
      apply Hk in H as (m & rest & Hs & -> & Hm). apply Nat.leb_le in El.
      exists "", m, rest. cbn. split; [done|]. split; [done|]. split; [done|].
      split; [lia|]. split; [by destruct hi; [lia|]|done].
Qed.

(** what [run] returns for a pattern, it has read off the head of the
    text, and it is a text the pattern stands for *)
Lemma run_sound (r : regex) : sound r (run r).
Proof.
  induction r as [|a r IH]; intros prev s acc acc'.
  - cbn [run]. intros [= <-]. by exists "", s.
  - destruct a as [p|p|ss|p lo hi|].
    + cbn [run]. destruct (eat false p s prev acc) as [[[s1 prev1] acc1]|] eqn:Ee; [|done].
      intros H. apply IH in H as (m2 & rest & -> & -> & Hm).
      apply eat_sound in Ee as (m1 & -> & -> & Hp).
      exists (m1 +:+ m2), rest. split; [by rewrite append_assoc|].
      split; [by rewrite pushed_app|]. by exists m1, m2.
    + cbn [run]. destruct (eat true p s prev acc) as [[[s1 prev1] acc1]|] eqn:Ee; [|done].
      intros H. apply IH in H as (m2 & rest & -> & -> & Hm).
      apply eat_sound in Ee as (m1 & -> & -> & Hp).
      exists (m1 +:+ m2), rest. split; [by rewrite append_assoc|].
      split; [by rewrite pushed_app|]. by exists m1, m2.
    + cbn [run]. induction ss as [|p ss IHss]; [done|].
      destruct (eat false p s prev acc) as [[[s1 prev1] acc1]|] eqn:Ee.
      * destruct (run r prev1 s1 acc1) as [res|] eqn:Er.
        -- intros [= <-]. apply IH in Er as (m2 & rest & -> & -> & Hm).
           apply eat_sound in Ee as (m1 & -> & -> & Hp). subst m1.
           exists (p +:+ m2), rest. split; [by rewrite append_assoc|].
           split; [by rewrite pushed_app|]. exists p, m2.
           split; [done|]. split; [|done]. apply elem_of_cons. by left.
        -- intros H. apply IHss in H as (m & rest & -> & -> & m1 & m2 & -> & Hin & Hm).
           exists (m1 +:+ m2), rest. split; [done|]. split; [done|].
           exists m1, m2. split; [done|]. split; [|done]. apply elem_of_cons. by right.
      * intros H. apply IHss in H as (m & rest & -> & -> & m1 & m2 & -> & Hin & Hm).
        exists (m1 +:+ m2), rest. split; [done|]. split; [done|].
        exists m1, m2. split; [done|]. split; [|done]. apply elem_of_cons. by right.
    + rewrite run_rep. intros H.
      apply (repFrom_sound p lo hi r (run r) IH) in H
        as (m1 & m2 & rest & -> & -> & Hp & Hlo & Hhi & Hm).
      exists (m1 +:+ m2), rest. split; [by rewrite append_assoc|].
      split; [by rewrite pushed_app|]. exists m1, m2. split; [done|]. split; [|done].
      split; [done|]. split; [lia|]. destruct hi as [h|]; [|done].
      specialize (Hhi ltac:(lia)). lia.
    + cbn [run]. destruct (xorb _ _); [|done]. intros H.
      apply IH in H as (m & rest & -> & -> & Hm).
      exists m, rest. split; [done|]. split; [done|]. by exists "", m.
Qed.

Lemma string_of_pushed (m : string) : string_of_rev (pushed m []) = m.
Proof.
  unfold string_of_rev, pushed. rewrite app_nil_r, rev_involutive.
  apply string_of_list_ascii_of_string.
Qed.

(** the match of a pattern in a text is a part of the text, and a text
    the pattern stands for *)
Lemma search_sound (r : regex) (prev : option ascii) (s m : string) :
  search r prev s = Some m →
  fits r m ∧ ∃ before after, s = before +:+ m +:+ after.
Proof.
  revert prev. induction s as [|c s IH]; intros prev; cbn [search].
  - destruct (run r prev "" []) as [acc|] eqn:Er; [|done]. intros [= <-].
    apply run_sound in Er as (m & rest & Hs & -> & Hm). rewrite string_of_pushed.
    split; [done|]. by exists "", rest.
  - destruct (run r prev (String c s) []) as [acc|] eqn:Er.
    + intros [= <-].
      apply run_sound in Er as (m & rest & Hs & -> & Hm). rewrite string_of_pushed.
      split; [done|]. by exists "", rest.
    + intros H. apply IH in H as (Hm & before & after & ->).
      split; [done|]. by exists (String c before), after.
Qed.

Lemma re_match_sound (r : regex) (s m : string) :
  re_match r s = Some m → fits r m ∧ ∃ before after, s = before +:+ m +:+ after.
Proof. apply search_sound. Qed.

(** for a pattern without a word boundary [run], given a text that
    starts with a text the pattern stands for, returns a match *)
Lemma starts_with_spec (p s : string) :
  starts_with p s = true ↔ ∃ rest, s = p +:+ rest.
Proof.
  revert s. induction p as [|a p IH]; intros s; cbn [starts_with].
  - split; [by exists s|done].
  - destruct s as [|b s].
    + split; [done|]. intros [rest H]. done.
    + rewrite andb_true_iff, IH. split.
      * intros [->%Ascii.eqb_eq [rest ->]]. by exists rest.
      * intros [rest H]. rewrite append_cons in H. inversion H; subst.
        split; [apply Ascii.eqb_refl|by exists rest].
Qed.

Lemma includes_spec (s sub : string) : includes s sub = true ↔ partOf sub s.
Proof.
  unfold partOf. induction s as [|c s IH]; cbn [includes].
  - rewrite orb_false_r, starts_with_spec. split.
    + intros [rest H]. by exists "", rest.
    + intros (before & after & H). destruct before; [|done]. by exists after.
  - rewrite orb_true_iff, starts_with_spec, IH. split.
    + intros [[rest H]|(before & after & ->)].
      * by exists "", rest.
      * by exists (String c before), after.
    + intros (before & after & H). destruct before as [|b before].
      * left. by exists after.
      * right. rewrite append_cons in H. inversion H; subst. by exists before, after.
Qed.

Lemma eat_complete (ci : bool) (p m rest : string) (prev : option ascii)
    (acc : list ascii) :
  (if ci then same_letters p m = true else m = p) →
  ∃ prev', eat ci p (m +:+ rest) prev acc = Some (rest, prev', pushed m acc).
Proof.
  revert m prev acc. induction p as [|a p IH]; intros m prev acc Hm.
  - assert (m = "") as -> by (destruct ci; [by destruct m|done]).
    by exists prev.
  - destruct m as [|b m]; [by destruct ci|].
    rewrite append_cons. cbn [eat].
    assert (Hab : (if ci then Ascii.eqb (lower a) (lower b) else Ascii.eqb a b) = true
                  ∧ (if ci then same_letters p m = true else m = p)).
    { destruct ci.
      - cbn in Hm. by apply andb_true_iff in Hm.
      - inversion Hm; subst. split; [apply Ascii.eqb_refl|done]. }
    destruct Hab as [-> Hm']. rewrite pushed_cons. by apply IH.
Qed.

Lemma repFrom_complete (p : ascii → bool) (lo : nat) (hi : option nat) (r : regex) k :
  complete r k →
  ∀ m1 m2 rest n prev acc,
    all_chars p m1 = true → (lo ≤ n + String.length m1)%nat →
    match hi with Some h => (n + String.length m1 ≤ h)%nat | None => True end →
    fits r m2 →
    ∃ acc', repFrom p lo hi k n prev (m1 +:+ m2 +:+ rest) acc = Some acc'.
Proof.
  intros Hk. induction m1 as [|c m1 IH]; intros m2 rest n prev acc Hp Hlo Hhi Hm2.
  - rewrite append_nil_l. cbn in Hlo.
    destruct (Hk m2 rest prev acc Hm2) as [acc' Hacc].
    destruct (m2 +:+ rest) as [|c s] eqn:Es; cbn [repFrom].
    + rewrite (proj2 (Nat.leb_le lo n)) by lia. eauto.
    + destruct (below n hi && p c); [|rewrite (proj2 (Nat.leb_le lo n)) by lia; eauto].
      destruct (repFrom p lo hi k (S n) (Some c) s (c :: acc)); [eauto|].
      rewrite (proj2 (Nat.leb_le lo n)) by lia. eauto.
  - rewrite append_cons. cbn [repFrom]. cbn [all_chars String.length] in *.
    apply andb_true_iff in Hp as [Hc Hp].
    assert (below n hi = true) as ->.
    { destruct hi as [h|]; [|done]. cbn. apply Nat.ltb_lt. lia. }
    rewrite Hc. cbn [andb].
    destruct (IH m2 rest (S n) (Some c) (c :: acc) Hp) as [acc' ->]; [lia| |done|eauto].
    destruct hi; [lia|done].
Qed.

Lemma run_complete (r : regex) : boundless r = true → complete r (run r).
Proof.
  induction r as [|a r IH]; intros Hb m rest prev acc Hm.
  - cbn in Hm. subst m. cbn [run]. eauto.
  - cbn [boundless forallb] in Hb. apply andb_true_iff in Hb as [Ha Hb].
    specialize (IH Hb). destruct Hm as (m1 & m2 & -> & Hm1 & Hm2).
    rewrite append_assoc.
    destruct a as [p|p|ss|p lo hi|]; [| | | |done].
    + cbn [run]. cbn in Hm1.
      destruct (eat_complete false p m1 (m2 +:+ rest) prev acc Hm1) as [prev' ->].
      by apply IH.
    + cbn [run]. cbn in Hm1.
      destruct (eat_complete true p m1 (m2 +:+ rest) prev acc Hm1) as [prev' ->].
      by apply IH.
    + cbn [run]. cbn in Hm1. induction ss as [|p ss IHss].
      * by apply elem_of_nil in Hm1.
      * destruct (decide (m1 = p)) as [->|Hne].
        -- destruct (eat_complete false p p (m2 +:+ rest) prev acc eq_refl) as [prev' ->].
           destruct (IH m2 rest prev' (pushed p acc) Hm2) as [acc' ->]. eauto.
        -- apply elem_of_cons in Hm1 as [?|Hin]; [done|].
           destruct (match eat false p (m1 +:+ m2 +:+ rest) prev acc with
                     | Some (s', prev', acc') => run r prev' s' acc'
                     | None => None
                     end); [eauto|]. by apply IHss.
    + rewrite run_rep. destruct Hm1 as (Hp & Hlo & Hhi).
      apply (repFrom_complete p lo hi r (run r) IH); try done.
Qed.

Lemma search_complete (r : regex) (s m : string) (prev : option ascii) :
  boundless r = true → fits r m → partOf m s → search r prev s ≠ None.
Proof.
  intros Hb Hm (before & after & ->). revert prev.
  induction before as [|c before IH]; intros prev.
  - rewrite append_nil_l.
    destruct (run_complete r Hb m after prev [] Hm) as [acc' Hacc].
    destruct (m +:+ after); cbn [search]; by rewrite Hacc.
  - rewrite append_cons. cbn [search].
    destruct (run r prev _ []); [done|]. apply IH.
Qed.

Lemma re_test_spec (r : regex) (s : string) :
  boundless r = true →
  re_test r s = true ↔ ∃ m, fits r m ∧ partOf m s.
Proof.
  intros Hb. unfold re_test, re_match. split.
  - destruct (search r None s) as [m|] eqn:E; [|done]. intros _.
    apply search_sound in E as [Hm Hs]. by exists m.
  - intros (m & Hm & Hs). pose proof (search_complete r s m None Hb Hm Hs) as Hne.
    by destruct (search r None s).
Qed.

Lemma length_is (n : nat) (s : string) :
  String.length s = S n → ∃ c s', s = String c s' ∧ String.length s' = n.
Proof. destruct s as [|c s']; [done|]. cbn. intros [= H]. eauto. Qed.

Lemma length_is_0 (s : string) : String.length s = 0%nat → s = "".
Proof. by destruct s. Qed.

Ltac explode H :=
  repeat (let c := fresh "c" in let s := fresh "s" in let E := fresh "E" in
          apply length_is in H as (c & s & E & H); subst);
  apply length_is_0 in H; subst.

Ltac use_digits :=
  repeat match goal with
         | H : is_digit ?c = true |- context [is_digit ?c] => rewrite H
         end.

(** ** The tests on anchors and images *)

Lemma fits_one (a : atom) (m : string) : fits [a] m ↔ fitsAtom a m.
Proof.
  cbn [fits]. split.
  - intros (m1 & m2 & -> & H & ->). by rewrite append_nil_r.
  - intros H. exists m, "". by rewrite append_nil_r.
Qed.

Lemma fits_yearInPath (m : string) :
  fits yearInPath m
  ↔ ∃ d1 d2, is_digit d1 = true ∧ is_digit d2 = true
             ∧ m = "/20" +:+ String d1 (String d2 "") +:+ "/".
Proof.
  unfold yearInPath. cbn [fits fitsAtom]. split.
  - intros (m1 & r1 & -> & -> & a & r2 & -> & (Ha & Ha1 & Ha2) & s & r3 & -> & -> & ->).
    assert (Hl : String.length a = 2%nat) by lia. explode Hl.
    cbn [all_chars] in Ha. apply andb_true_iff in Ha as [H1 Ha].
    apply andb_true_iff in Ha as [H2 _]. by exists c, c0.
  - intros (d1 & d2 & H1 & H2 & ->).
    exists "/20", (String d1 (String d2 "") +:+ "/"). split; [done|]. split; [done|].
    exists (String d1 (String d2 "")), "/". split; [done|]. split.
    + cbn [all_chars String.length]. rewrite H1, H2. split; [done|]. lia.
    + by exists "/", "".
Qed.

Lemma fits_headingTag (m : string) :
  fits Update.headingTag m
  ↔ ∃ h d, Ascii.eqb (lower "H") (lower h) = true
           ∧ (d = "1"%char ∨ d = "2"%char) ∧ m = String h (String d "").
Proof.
  unfold Update.headingTag. cbn [fits fitsAtom]. split.
  - intros (m1 & r1 & -> & Hh & a & r2 & -> & (Ha & Ha1 & Ha2) & ->).
    assert (Hl : String.length a = 1%nat) by lia. explode Hl.
    destruct m1 as [|h [|? ?]]; cbn [same_letters] in Hh; try done.
    2:{ by rewrite andb_false_r in Hh. }
    rewrite andb_true_r in Hh. cbn [all_chars] in Ha. rewrite andb_true_r in Ha.
    unfold Update.isH1orH2 in Ha. apply orb_true_iff in Ha.
    exists h, c. split; [done|]. split; [|done].
    destruct Ha as [Ha|Ha]; apply Ascii.eqb_eq in Ha; auto.
  - intros (h & d & Hh & Hd & ->).
    exists (String h ""), (String d ""). split; [done|]. split.
    + cbn [same_letters]. by rewrite Hh.
    + exists (String d ""), "". split; [done|]. split; [|done].
      cbn [all_chars String.length]. split; [|lia].
      unfold Update.isH1orH2. destruct Hd as [->| ->]; done.
Qed.


(** ** The date text of a record *)

Lemma all_chars_digits (s : string) : all_chars is_digit s = digits s.
Proof. induction s as [|c s IH]; [done|]. cbn. by rewrite IH. Qed.

Lemma fits_urlDate (m : string) :
  fits Scrape.urlDate m →
  ∃ dir1 dir2 yyyy mm dd,
    m = "/" +:+ dir1 +:+ "/" +:+ dir2 +:+ "/" +:+ yyyy +:+ mm +:+ dd
    ∧ (String.length dir1 = 4 ∧ String.length dir2 = 2 ∧ String.length yyyy = 4
       ∧ String.length mm = 2 ∧ String.length dd = 2)%nat
    ∧ digits dir1 = true ∧ digits dir2 = true
    ∧ digits yyyy = true ∧ digits mm = true ∧ digits dd = true
    ∧ substring 9 8 m = yyyy +:+ mm +:+ dd.
Proof.
  cbn [fits Scrape.urlDate fitsAtom].
  intros (s1 & r1 & -> & -> & a & r2 & -> & (Ha & Ha1 & Ha2)
          & s2 & r3 & -> & -> & b & r4 & -> & (Hb & Hb1 & Hb2)
          & s3 & r5 & -> & -> & c & r6 & -> & (Hc & Hc1 & Hc2) & ->).
  assert (Hla : String.length a = 4%nat) by lia.
  assert (Hlb : String.length b = 2%nat) by lia.
  assert (Hlc : String.length c = 8%nat) by lia.
  clear Ha1 Ha2 Hb1 Hb2 Hc1 Hc2.
  rewrite all_chars_digits in Ha, Hb, Hc.
  exists a, b. explode Hlc. explode Hla. explode Hlb.
  eexists (String _ (String _ (String _ (String _ "")))),
          (String _ (String _ "")), (String _ (String _ "")).
  split; [reflexivity|]. split; [done|]. split; [exact Ha|]. split; [exact Hb|].
  cbn [digits] in Hc. repeat (apply andb_true_iff in Hc as [? Hc]).
  split; [cbn [digits]; by use_digits|].
  split; [cbn [digits]; by use_digits|].
  split; [cbn [digits]; by use_digits|].
  reflexivity.
Qed.

Lemma stampText_nonempty (yyyy mm dd : string) : stampText yyyy mm dd ≠ "".
Proof.
  unfold stampText. destruct yyyy; [done|]. rewrite append_cons. done.
Qed.

(** X19. The first strategy of the full build gives the empty text
    exactly when no part of the audio URL is a slash, four digits, a
    slash, two digits, a slash and eight digits.  Else the URL has such
    a part and the date text is made of its eight digits alone: the first
    four, a hyphen, the next two, a hyphen, the last two.  The two
    directories before the stamp are not looked at again. *)
Theorem url_stamp_gives_the_date_text (audioUrl : string) :
  ((re_match Scrape.urlDate audioUrl = None ∧ Scrape.urlDateText audioUrl = "")
   ∨ ∃ before dir1 dir2 yyyy mm dd after,
      audioUrl = before +:+ ("/" +:+ dir1 +:+ "/" +:+ dir2 +:+ "/"
                             +:+ yyyy +:+ mm +:+ dd) +:+ after
      ∧ (String.length dir1 = 4 ∧ String.length dir2 = 2 ∧ String.length yyyy = 4
         ∧ String.length mm = 2 ∧ String.length dd = 2)%nat
      ∧ digits dir1 = true ∧ digits dir2 = true
      ∧ digits yyyy = true ∧ digits mm = true ∧ digits dd = true
      ∧ Scrape.urlDateText audioUrl = stampText yyyy mm dd)
  ∧ (Scrape.urlDateText audioUrl = ""
     ↔ ¬ ∃ m, fits Scrape.urlDate m ∧ partOf m audioUrl).
Proof.
  assert (H1 : (re_match Scrape.urlDate audioUrl = None ∧ Scrape.urlDateText audioUrl = "")
   ∨ ∃ before dir1 dir2 yyyy mm dd after,
      audioUrl = before +:+ ("/" +:+ dir1 +:+ "/" +:+ dir2 +:+ "/"
                             +:+ yyyy +:+ mm +:+ dd) +:+ after
      ∧ (String.length dir1 = 4 ∧ String.length dir2 = 2 ∧ String.length yyyy = 4
         ∧ String.length mm = 2 ∧ String.length dd = 2)%nat
      ∧ digits dir1 = true ∧ digits dir2 = true
      ∧ digits yyyy = true ∧ digits mm = true ∧ digits dd = true
      ∧ Scrape.urlDateText audioUrl = stampText yyyy mm dd).
  { unfold Scrape.urlDateText.
    destruct (re_match Scrape.urlDate audioUrl) as [m|] eqn:Em; [right|by left].
    apply re_match_sound in Em as (Hfit & before & after & ->).
    apply fits_urlDate in Hfit
      as (dir1 & dir2 & yyyy & mm & dd & -> & Hlen & H1 & H2 & H3 & H4 & H5 & Hsub).
    exists before, dir1, dir2, yyyy, mm, dd, after.
    split; [done|]. split; [done|]. do 5 (split; [done|]).
    rewrite Hsub. destruct Hlen as (_ & _ & Hy & Hm & Hd).
    explode Hy. explode Hm. explode Hd. reflexivity. }
  split; [exact H1|]. split.
  - intros Hempty (m & Hm & Hp).
    destruct H1 as [[Hnone _]|(b & d1 & d2 & y & mo & d & a & _ & _ & _ & _ & _ & _ & _ & Hs)].
    + by apply (search_complete Scrape.urlDate audioUrl m None).
    + rewrite Hs in Hempty. by apply stampText_nonempty in Hempty.
  - intros Hno. unfold Scrape.urlDateText.
    destruct (re_match Scrape.urlDate audioUrl) as [m|] eqn:Em; [|done].
    exfalso. apply Hno. apply re_match_sound in Em as [Hm Hp]. by exists m.
Qed.

Lemma digit_not_space (c : ascii) : is_digit c = true → is_space c = false.
Proof.
  unfold is_digit, in_range, is_space, code.
  change (nat_of_ascii "0") with 48%nat. change (nat_of_ascii "9") with 57%nat.
  intros [E1 E2]%andb_true_iff. apply Nat.leb_le in E1, E2.
  apply orb_false_iff. split.
  - apply andb_false_iff. right. apply Nat.leb_gt. lia.
  - apply Ascii.eqb_neq. intros ->. change (nat_of_ascii " ") with 32%nat in E1. lia.
Qed.



(** ** A stamp that is a day of the calendar *)

Lemma era_of_day (yoe doy : Z) :
  0 ≤ yoe ≤ 399 → 0 ≤ doy ≤ 365 →
  (doy = 365 → (yoe + 1) mod 4 = 0 ∧ ((yoe + 1) mod 100 ≠ 0 ∨ yoe = 399)) →
  let doe := yoe * 365 + yoe / 4 - yoe / 100 + doy in
  0 ≤ doe < 146097
  ∧ (doe - doe / 1460 + doe / 36524 - doe / 146096) / 365 = yoe.
Proof.
  intros Hy Hd Hleap doe.
  assert (Hdoe : 0 ≤ doe < 146097) by (unfold doe; Z.div_mod_to_equations; lia).
  split; [done|]. unfold doe in *. Z.div_mod_to_equations. lia.
Qed.

Lemma civil_round (y m d : Z) :
  calendarDate y m d = true →
  civil_from_days (days_from_civil y m d) = (y, m, d).
Proof.
  unfold calendarDate. intros H.
  apply andb_true_iff in H as [H Hd2]. apply andb_true_iff in H as [H Hd1].
  apply andb_true_iff in H as [Hm1 Hm2].
  apply Z.leb_le in Hm1, Hm2, Hd1, Hd2.
  unfold days_from_civil.
  set (y' := if m <=? 2 then y - 1 else y).
  set (mp := if 2 <? m then m - 3 else m + 9).
  set (era := y' / 400). set (yoe := y' mod 400).
  set (doy := (153 * mp + 2) / 5 + d - 1).
  assert (Hyoe : 0 ≤ yoe ≤ 399) by (unfold yoe; Z.div_mod_to_equations; lia).
  assert (Hy' : y' = era * 400 + yoe)
    by (unfold era, yoe; pose proof (Z.div_mod y' 400); lia).
  assert (Hmp : 0 ≤ mp ≤ 11 ∧ m = (if mp <? 10 then mp + 3 else mp - 9)
                ∧ y = (if m <=? 2 then y' + 1 else y')).
  { unfold mp, y'. destruct (2 <? m) eqn:E1; destruct (m <=? 2) eqn:E2; try lia.
    - apply Z.ltb_lt in E1. rewrite (proj2 (Z.ltb_lt (m - 3) 10)) by lia. lia.
    - apply Z.ltb_ge in E1. rewrite (proj2 (Z.ltb_ge (m + 9) 10)) by lia. lia. }
  destruct Hmp as (Hmp & Hm & Hy).
  assert (Hd3 : d ≤ 31 ∧ (m = 4 ∨ m = 6 ∨ m = 9 ∨ m = 11 → d ≤ 30)
                ∧ (m = 2 → d ≤ 28 ∨ (d = 29 ∧ y mod 4 = 0
                                     ∧ (y mod 100 ≠ 0 ∨ y mod 400 = 0)))).
  { unfold days_in_month, is_leap in Hd2.
    destruct (Z.eqb_spec m 2).
    - destruct (Z.eqb_spec (y mod 4) 0), (Z.eqb_spec (y mod 100) 0),
        (Z.eqb_spec (y mod 400) 0); cbn [andb orb negb] in Hd2; lia.
    - destruct (Z.eqb_spec m 4), (Z.eqb_spec m 6), (Z.eqb_spec m 9),
        (Z.eqb_spec m 11); cbn [orb] in Hd2; lia. }
  clear Hd2. destruct Hd3 as (Hd31 & Hd30 & Hfeb).
  assert (Hdim : 0 ≤ doy ≤ 365
                 ∧ (doy = 365 → (yoe + 1) mod 4 = 0 ∧ ((yoe + 1) mod 100 ≠ 0 ∨ yoe = 399))
                 ∧ (5 * doy + 2) / 153 = mp
                 ∧ doy - (153 * mp + 2) / 5 + 1 = d).
  { assert (Hoff : (153 * mp + 2) / 5 = doy - d + 1) by (unfold doy; lia).
    assert (Hmpm : mp = (if 2 <? m then m - 3 else m + 9)) by done.
    assert (Hy'y : y' = (if m <=? 2 then y - 1 else y)) by done.
    clearbody doy mp y' era yoe. clear Hm Hy.
    assert (Hcases : m = 1 ∨ m = 2 ∨ m = 3 ∨ m = 4 ∨ m = 5 ∨ m = 6 ∨ m = 7 ∨ m = 8
                     ∨ m = 9 ∨ m = 10 ∨ m = 11 ∨ m = 12) by lia.
    destruct Hcases as [E|[E|[E|[E|[E|[E|[E|[E|[E|[E|[E|E]]]]]]]]]]];
      subst m; cbn in Hmpm, Hy'y; subst mp;
      (split; [Z.div_mod_to_equations; lia|]);
      (split; [|split; Z.div_mod_to_equations; lia]);
      intros H365; try (exfalso; Z.div_mod_to_equations; lia).
    destruct Hfeb as [?|(Hd & H4 & H100)]; [done|exfalso; Z.div_mod_to_equations; lia|].
    subst y'. split; [Z.div_mod_to_equations; lia|].
    destruct H100 as [H100|H400]; [left|right]; Z.div_mod_to_equations; lia. }
  destruct Hdim as (Hdoy & Hleap & Hmp' & Hd').
  destruct (era_of_day yoe doy Hyoe Hdoy Hleap) as [Hdoe Hyoe'].
  set (doe := yoe * 365 + yoe / 4 - yoe / 100 + doy) in *.
  unfold civil_from_days.
  replace (era * 146097 + doe - 719468 + 719468) with (doe + era * 146097) by lia.
  rewrite Z.div_add, Z.mod_add by lia.
  rewrite (Z.div_small doe), (Z.mod_small doe) by lia.
  rewrite Hyoe'. fold doe in Hyoe'.
  replace (doe - (365 * yoe + yoe / 4 - yoe / 100)) with doy by (unfold doe; lia).
  rewrite Hmp', Hd', <- Hm. cbn [Z.add].
  f_equal. f_equal. rewrite Hy, Hy'. destruct (m <=? 2); lia.
Qed.

Section IsoDates.
Context {host : Host}.

Lemma Day_MakeDate (y m d : Z) :
  Day (MakeDate y m d 0 0 0) = days_from_civil y m d
  ∧ HourFromTime (MakeDate y m d 0 0 0) = 0
  ∧ MinFromTime (MakeDate y m d 0 0 0) = 0
  ∧ SecFromTime (MakeDate y m d 0 0 0) = 0.
Proof.
  unfold Day, HourFromTime, MinFromTime, SecFromTime, MakeDate,
    msPerDay, msPerHour, msPerMinute, msPerSecond.
  generalize (days_from_civil y m d). intros z.
  repeat split; Z.div_mod_to_equations; lia.
Qed.

Lemma Date_parse_stamp (yyyy mm dd : string) (y m d : Z) :
  String.length yyyy = 4%nat → String.length mm = 2%nat → String.length dd = 2%nat →
  number yyyy = Some y → number mm = Some m → number dd = Some d →
  calendarDate y m d = true →
  Date_parse (stampText yyyy mm dd) = Some (MakeDate y m d 0 0 0).
Proof.
  intros Hy Hm Hd Ny Nm Nd Hcal. explode Hy. explode Hm. explode Hd.
  unfold Date_parse, parse_iso_date, stampText.
  change (String.length _ =? 10)%nat with true.
  change (substring 4 1 _) with "-". change (substring 7 1 _) with "-".
  change (substring 0 4 _) with (String c (String c0 (String c1 (String c2 "")))).
  change (substring 5 2 _) with (String c3 (String c4 "")).
  change (substring 8 2 _) with (String c5 (String c6 "")).
  change (("-" =? "-")%string) with true. cbn [andb].
  rewrite Ny, Nm, Nd. unfold calendarDate in Hcal. by rewrite Hcal.
Qed.

End IsoDates.

(** X21. Let the digits of a stamp, four for the year, two for the
    month and two for the day, name a day of the calendar.  Then the host
    reads the date text made of them as midnight UTC of that day: the
    year, the month and the day of the time value are those of the stamp,
    and its time of day is zero.  Either resolver returns that date as
    [toUTCString] writes it, whatever the fallback is. *)
Theorem stamp_of_a_calendar_date_is_that_day (host : Host)
    (yyyy mm dd : string) (y m d : Z) (fallback : Date) :
  String.length yyyy = 4%nat → String.length mm = 2%nat → String.length dd = 2%nat →
  number yyyy = Some y → number mm = Some m → number dd = Some d →
  calendarDate y m d = true →
  let t := MakeDate y m d 0 0 0 in
  Date_parse (stampText yyyy mm dd) = Some t
  ∧ (YearFromTime t = y ∧ MonthFromTime t = m ∧ DateFromTime t = d)
  ∧ (HourFromTime t = 0 ∧ MinFromTime t = 0 ∧ SecFromTime t = 0)
  ∧ Scrape.parseDateToRss (stampText yyyy mm dd) fallback = utc_string t
  ∧ Update.parseDateToRss (stampText yyyy mm dd) fallback = utc_string t.
Proof.
  intros Hy Hm Hd Ny Nm Nd Hcal t.
  pose proof (Date_parse_stamp yyyy mm dd y m d Hy Hm Hd Ny Nm Nd Hcal) as Hp.
  destruct (Day_MakeDate y m d) as (HD & Hh & Hmi & Hs).
  split; [exact Hp|]. split.
  { unfold YearFromTime, MonthFromTime, DateFromTime, t.
    rewrite HD, civil_round by done. done. }
  split; [done|].
  assert (Hu : Update.parseDateToRss (stampText yyyy mm dd) fallback = utc_string t).
  { unfold Update.parseDateToRss. by rewrite Hp. }
  split; [|exact Hu].
  rewrite scrape_parseDateToRss_spec, Hu.
  assert (Hne : String.eqb (trim (stampText yyyy mm dd)) "" = false); [|by rewrite Hne].
  clear -Hy Ny. apply length_is in Hy as (c & rest & -> & _).
  assert (Hc : is_space c = false).
  { unfold number in Ny. cbn [number_from] in Ny. unfold digit_val in Ny.
    destruct (is_digit c) eqn:E; [|done]. by apply digit_not_space. }
  change (stampText (String c rest) mm dd)
    with (String c (stampText rest mm dd)).
  unfold trim. cbn [trimStart]. rewrite Hc. cbn [trimEnd all_space]. by rewrite Hc.
Qed.

(** The stamp of the first address of the test of the date extraction,
    20251014, is Tuesday 14 October 2025. *)
Lemma stamp_of_a_calendar_date_is_that_day_witness :
  String.length "2025" = 4%nat ∧ String.length "10" = 2%nat
  ∧ String.length "14" = 2%nat
  ∧ number "2025" = Some 2025 ∧ number "10" = Some 10 ∧ number "14" = Some 14
  ∧ calendarDate 2025 10 14 = true
  ∧ Date_parse (host := strictHost) (stampText "2025" "10" "14")
    = Some (MakeDate 2025 10 14 0 0 0)
  ∧ Scrape.parseDateToRss (host := strictHost) (stampText "2025" "10" "14") None
    = utc_string (MakeDate 2025 10 14 0 0 0)
  ∧ utc_string (MakeDate 2025 10 14 0 0 0) = "Tue, 14 Oct 2025 00:00:00 GMT".
Proof.
  destruct (stamp_of_a_calendar_date_is_that_day strictHost "2025" "10" "14"
              2025 10 14 None eq_refl eq_refl eq_refl eq_refl eq_refl eq_refl eq_refl)
    as (Hp & _ & _ & Hs & _).
  do 7 (split; [reflexivity|]).
  split; [exact Hp|]. split; [exact Hs|]. vm_compute. reflexivity.
Defined.

(** ** The image of the channel *)

Lemma imageBlock_empty (feedLink channelImageUrl : string) :
  Scrape.imageBlock feedLink channelImageUrl = "" ↔ channelImageUrl = "".
Proof.
  unfold Scrape.imageBlock. destruct (truthy channelImageUrl) eqn:E.
  - split; [done|]. intros ->. done.
  - apply truthy_false in E. done.
Qed.

(** X22. The address [scrapeChannelImage] returns is the [src] of the
    first image whose [alt] and [title], put together with a space
    between them, hold the name of the show in any case of the letters;
    if there is none, the [src] of the first image of the page; the empty
    text if the page has no image.  An address that is not empty is the
    [src] of an image of the page.  The feed gets no image block exactly
    when the address is empty. *)
Theorem channel_image_is_an_image_of_the_page (imgs : list Scrape.Img) :
  (∀ img, List.find Scrape.named imgs = Some img →
     Scrape.scrapeChannelImage imgs = Scrape.src img)
  ∧ (List.find Scrape.named imgs = None →
     Scrape.scrapeChannelImage imgs
     = match imgs with img :: _ => Scrape.src img | [] => "" end)
  ∧ (Scrape.scrapeChannelImage imgs ≠ "" →
     ∃ img, img ∈ imgs ∧ Scrape.src img = Scrape.scrapeChannelImage imgs
       ∧ (Scrape.named img = true
          ∨ ∀ other, other ∈ imgs → Scrape.named other = false))
  ∧ (∀ feedLink,
       Scrape.imageBlock feedLink (Scrape.scrapeChannelImage imgs) = ""
       ↔ Scrape.scrapeChannelImage imgs = "").
Proof.
  unfold Scrape.scrapeChannelImage.
  split; [by intros img ->|]. split; [intros ->; by destruct imgs|].
  split; [|intros feedLink; apply imageBlock_empty].
  destruct (List.find Scrape.named imgs) as [img|] eqn:Ef.
  - intros _. apply find_elem in Ef as [Hin Hn]. exists img. auto.
  - destruct imgs as [|img rest]; [done|]. cbn [head]. intros _.
    exists img. split; [apply elem_of_cons; by left|]. split; [done|]. right.
    intros other Hin. apply list_elem_of_In in Hin.
    by apply (find_none Scrape.named (img :: rest)).
Qed.

(** ** The clicks of the expansion loop *)

Section Clicks.
Variable MAX_EPISODES : Z.
Variable page : nat → Scrape.Round.

Lemma turn_exit (c : Scrape.Counters) (p : Scrape.Round) (why : Scrape.Stop) :
  Scrape.turn MAX_EPISODES c p = inl why →
  (why = Scrape.MaxClicks → 50 ≤ Scrape.clickCount c)
  ∧ (why ≠ Scrape.ReachedLimit → why ≠ Scrape.MaxClicks → Scrape.clickCount c < 50).
Proof.
  unfold Scrape.turn, Scrape.maxClicks.
  destruct (MAX_EPISODES <=? Scrape.currentEpisodeCount p); [by intros [= <-]|].
  destruct (50 <=? Scrape.clickCount c) eqn:E.
  - intros [= <-]. apply Z.leb_le in E. done.
  - apply Z.leb_gt in E. intros H. split; [|done]. intros ->.
    repeat (case_match; try done).
Qed.

Lemma loop_exit_turn (fuel i k : nat) (c : Scrape.Counters) (why : Scrape.Stop) :
  inv page i c →
  Scrape.loop MAX_EPISODES fuel page i c = Some (why, k) →
  (k ≤ 50)%nat
  ∧ (why = Scrape.MaxClicks → k = 50%nat)
  ∧ (why ≠ Scrape.ReachedLimit → why ≠ Scrape.MaxClicks → (k < 50)%nat)
  ∧ explains MAX_EPISODES page why k.
Proof.
  revert i c. induction fuel as [|fuel IH]; intros i c Hinv; [done|]. cbn [Scrape.loop].
  pose proof (turn_spec MAX_EPISODES page i c Hinv) as Hspec.
  destruct (Scrape.turn MAX_EPISODES c (page i)) as [why'|c'] eqn:E.
  - intros [= -> ->]. apply turn_exit in E as [E1 E2].
    destruct Hinv as (Hle & Hclicks & _). rewrite Hclicks in E1, E2.
    split; [done|]. split; [intros H; specialize (E1 H); lia|]. split; [|done].
    intros H1 H2. specialize (E2 H1 H2). lia.
  - destruct Hspec as [_ Hinv']. by apply IH.
Qed.

End Clicks.

(** X23. A run of the expansion loop that ends tries at most fifty
    clicks.  It leaves for the ceiling of clicks in the turn after the
    fiftieth, and for a stall only when it has tried three clicks at
    least. *)
Theorem expansion_clicks_at_most_fifty (MAX_EPISODES : Z) (page : nat → Scrape.Round)
    (fuel : nat) (why : Scrape.Stop) (i : nat) :
  Scrape.expandAllStories MAX_EPISODES fuel page = Some (why, i) →
  (clicksTried why i ≤ 50)%nat
  ∧ (why = Scrape.MaxClicks → i = 50%nat)
  ∧ (why = Scrape.Stalled → (3 ≤ clicksTried why i)%nat).
Proof.
  intros Hrun. unfold Scrape.expandAllStories in Hrun.
  pose proof (loop_exit_turn MAX_EPISODES page fuel 0 i Scrape.start why
                (inv_start page) Hrun) as (Hle & Hmax & Hlt & Hwhy).
  split; [|split; [exact Hmax|]].
  - unfold clicksTried. destruct why; try done; apply Hlt; done.
  - intros ->. cbn [clicksTried]. destruct Hwhy as [Hi _]. lia.
Qed.

Lemma expansion_clicks_at_most_fifty_witness :
  Scrape.expandAllStories 100 51 fourteenForever = Some (Scrape.Stalled, 3%nat)
  ∧ (clicksTried Scrape.Stalled 3 ≤ 50)%nat
  ∧ (3 ≤ clicksTried Scrape.Stalled 3)%nat.
Proof.
  assert (Hrun : Scrape.expandAllStories 100 51 fourteenForever
                 = Some (Scrape.Stalled, 3%nat)) by (vm_compute; reflexivity).
  destruct (expansion_clicks_at_most_fifty 100 fourteenForever 51 Scrape.Stalled 3 Hrun)
    as (Hle & _ & Hthree).
  split; [exact Hrun|]. split; [exact Hle|exact (Hthree eq_refl)].
Defined.

(** ** Two runs of the update *)

Section File.
Context {host : Host} {xml : XmlLib}.
Hypothesis text_round : ∀ s, unescape (textEscape s) = s.
Hypothesis attr_round : ∀ s, unescape (attrEscape s) = s.

Lemma read_write_item (it : Update.Item) :
  Update.readItem (Update.writeItem it) = it.
Proof.
  destruct it as [t l g p d e]. unfold Update.readItem, Update.writeItem. cbn.
  rewrite !text_round. destruct e as [u|]; cbn; [by rewrite attr_round|done].
Qed.

(** the feed that is written is the feed that is read back *)
Lemma parse_build (feed : Update.Feed) :
  Update.parseString (Update.buildObject feed) = feed.
Proof.
  destruct feed as [items lb ch]. unfold Update.parseString, Update.buildObject. cbn.
  rewrite text_round. f_equal.
  - induction items as [|it items IH]; cbn; [done|]. by rewrite read_write_item, IH.
  - induction ch as [|[k v] ch IH]; cbn; [done|]. by rewrite text_round, IH.
Qed.

End File.

Section Again.
Context {host : Host}.

Lemma merge_again_changes_nothing (clock later : nat → Z)
    (feed : Update.Feed) (newEpisodes : list RawEpisode) :
  NoDup (enclosureUrls (Update.item feed)) →
  NoDup (audioUrl <$> newEpisodes) →
  Forall (fun ep => truthy (audioUrl ep) = true ∧ clean (audioUrl ep) = true)
    newEpisodes →
  Z.of_nat (length (incomingItems clock feed newEpisodes)) ≤ Update.MAX_EPISODES →
  let once :=
    snd (Update.updateFeedWithNewEpisodes clock feed newEpisodes
           (Update.extractExistingAudioUrls feed)) in
  Update.updateFeedWithNewEpisodes later once newEpisodes
    (Update.extractExistingAudioUrls once) = (false, once).
Proof.
  intros Hold Hnew Hurl Hfit once.
  pose proof (updated_items clock feed newEpisodes) as Hitems.
  cbv zeta in Hitems. fold once in Hitems.
  assert (Hperm : sort Update.newestFirst (incomingItems clock feed newEpisodes)
                  ≡ₚ incomingItems clock feed newEpisodes)
    by apply (sort_perm pubKey).
  destruct (fst (Update.updateFeedWithNewEpisodes clock feed newEpisodes
                   (Update.extractExistingAudioUrls feed))) eqn:Efst.
  - apply update_nothing_new. intros ep Hep.
    apply elem_of_existingUrls.
    rewrite Hitems, slice0_all by (by rewrite Hperm).
    rewrite Forall_forall in Hurl. destruct (Hurl ep Hep) as [Ht Hc].
    setoid_rewrite Hperm.
    destruct (Update.isNew (Update.extractExistingAudioUrls feed) ep) eqn:Enew.
    * assert (Hu : audioUrl ep ∈ enclosureUrls (incomingItems clock feed newEpisodes)).
      { unfold incomingItems, enclosureUrls. rewrite omap_app.
        apply elem_of_app. left.
        fold (enclosureUrls (Update.createItemXml <$> Update.toEpisodes clock 0
          (List.filter (Update.isNew (Update.extractExistingAudioUrls feed)) newEpisodes))).
        rewrite new_items_urls.
        - apply list_elem_of_fmap. exists ep. split; [done|]. by apply filter_elem.
        - apply Forall_forall. intros ep' Hep'. apply filter_elem in Hep' as [Hep' _].
          by apply Hurl. }
      apply elem_of_enclosureUrls in Hu as (it & Hit & He). by exists it.
    * unfold Update.isNew in Enew. apply negb_false_iff, bool_decide_eq_true in Enew.
      apply elem_of_existingUrls in Enew as (it & Hit & He & _).
      exists it. split; [|done]. unfold incomingItems. apply elem_of_app. by right.
  - destruct Hitems as [Hsame Hnone]. rewrite Hsame.
    unfold Update.updateFeedWithNewEpisodes. by rewrite Hnone.
Qed.

End Again.

(** X24. Let the parser read back what the builder wrote, let no two
    items of the feed file have the same enclosure URL, let the audio
    URLs of the page hold none of the five characters [escapeXml]
    replaces, and let the items of the file and the episodes of the page
    be 100 at most together.  Then a run of the update leaves a feed
    file, and a second run against the same page, at any later time, ends
    with the exit code 0 and leaves that file as it is. *)
Theorem update_run_twice (host : Host) (xml : XmlLib) (clock later : nat → Z)
    (doc : Update.Document) (anchors : list Update.Located) :
  (∀ s, unescape (textEscape s) = s) →
  (∀ s, unescape (attrEscape s) = s) →
  NoDup (enclosureUrls (Update.item (Update.parseString doc))) →
  Forall (fun ep => clean (audioUrl ep) = true) (Update.scrapeRecentEpisodes anchors) →
  (length (Update.scrapeRecentEpisodes anchors)
   + length (Update.item (Update.parseString doc)) ≤ 100)%nat →
  let after := fst (Update.main clock (Some doc) anchors) in
  after ≠ None
  ∧ Update.main later after anchors = (after, 0).
Proof.
  intros Htext Hattr Hold Hclean Hroom after.
  set (feed := Update.parseString doc) in *.
  set (eps := Update.scrapeRecentEpisodes anchors) in *.
  assert (Hnew : NoDup (audioUrl <$> eps)) by apply dedup_NoDup.
  assert (Hurl : Forall (fun ep => truthy (audioUrl ep) = true
                                   ∧ clean (audioUrl ep) = true) eps).
  { apply Forall_forall. intros ep Hep. rewrite Forall_forall in Hclean.
    split; [by eapply recent_audioUrl_truthy|by apply Hclean]. }
  assert (Hfit : Z.of_nat (length (incomingItems clock feed eps)) ≤ Update.MAX_EPISODES).
  { unfold incomingItems. rewrite length_app, length_fmap, length_update_toEpisodes.
    pose proof (sublist_length _ _ (filter_sublist
      (Update.isNew (Update.extractExistingAudioUrls feed)) eps)).
    unfold Update.MAX_EPISODES. lia. }
  pose proof (merge_again_changes_nothing clock later feed eps Hold Hnew Hurl Hfit)
    as Hagain. cbv zeta in Hagain.
  unfold after, Update.main. fold feed. fold eps.
  destruct (Update.updateFeedWithNewEpisodes clock feed eps
              (Update.extractExistingAudioUrls feed)) as [wasUpdated feed1] eqn:E1.
  cbn [snd] in Hagain. destruct wasUpdated; cbn [fst].
  - unfold Update.saveFeed. split; [done|].
    rewrite (parse_build Htext Hattr). fold eps. by rewrite Hagain.
  - split; [done|]. fold feed. fold eps.
    assert (feed1 = feed) as ->.
    { pose proof (updated_items clock feed eps) as Hi. cbv zeta in Hi.
      rewrite E1 in Hi. cbn [fst snd] in Hi. by destruct Hi. }
    by rewrite Hagain.
Qed.

(** The first run adds the episode of the page of the example to a feed
    without items; the second leaves the file of one item as it is. *)
Lemma update_run_twice_witness :
  (∀ s, unescape (XmlLib := xml2js) (textEscape (XmlLib := xml2js) s) = s)
  ∧ (∀ s, unescape (XmlLib := xml2js) (attrEscape (XmlLib := xml2js) s) = s)
  ∧ NoDup (enclosureUrls
             (Update.item (Update.parseString (xml := xml2js) emptyDocument)))
  ∧ Forall (fun ep => clean (audioUrl ep) = true)
      (Update.scrapeRecentEpisodes [exampleLocated])
  ∧ (length (Update.scrapeRecentEpisodes [exampleLocated])
     + length (Update.item (Update.parseString (xml := xml2js) emptyDocument))
     ≤ 100)%nat
  ∧ fst (Update.main (host := strictHost) (xml := xml2js) clock0
           (Some emptyDocument) [exampleLocated]) ≠ Some emptyDocument
  ∧ Update.main (host := strictHost) (xml := xml2js) clock0
      (fst (Update.main (host := strictHost) (xml := xml2js) clock0
              (Some emptyDocument) [exampleLocated]))
      [exampleLocated]
    = (fst (Update.main (host := strictHost) (xml := xml2js) clock0
              (Some emptyDocument) [exampleLocated]), 0).
Proof.
  assert (Hold : NoDup (enclosureUrls
            (Update.item (Update.parseString (xml := xml2js) emptyDocument))))
    by (vm_compute; constructor).
  assert (Hclean : Forall (fun ep => clean (audioUrl ep) = true)
                     (Update.scrapeRecentEpisodes [exampleLocated])).
  { apply Forall_forall. intros ep Hep. vm_compute in Hep.
    apply list_elem_of_singleton in Hep. subst ep. vm_compute. reflexivity. }
  assert (Hroom : (length (Update.scrapeRecentEpisodes [exampleLocated])
     + length (Update.item (Update.parseString (xml := xml2js) emptyDocument))
     ≤ 100)%nat) by (vm_compute; lia).
  destruct (update_run_twice strictHost xml2js clock0 clock0 emptyDocument
              [exampleLocated] xml2js_text_round xml2js_attr_round Hold Hclean Hroom)
    as [_ Hsame].
  split; [exact xml2js_text_round|]. split; [exact xml2js_attr_round|].
  split; [exact Hold|]. split; [exact Hclean|]. split; [exact Hroom|].
  split; [vm_compute; discriminate|exact Hsame].
Defined.

(** ** The text the update reads the date and the description from *)

Lemma update_extractDateText_part (contextText : string) :
  Update.extractDateText contextText = ""
  ∨ partOf (Update.extractDateText contextText) contextText.
Proof.
  unfold Update.extractDateText.
  destruct (re_match fullMonthDate contextText) as [m|] eqn:E; [|by left].
  apply re_match_sound in E as [_ Hs]. by right.
Qed.



(** ** The sorted array does not depend on the sorting method *)

Section Determined.
Context {A : Type} (key : A → Date).

Lemma datedAt_cons (k : Date) (x : A) (l : list A) :
  datedAt key k (x :: l)
  = if bool_decide (key x = k) then x :: datedAt key k l else datedAt key k l.
Proof. done. Qed.

Lemma elem_of_datedAt (k : Date) (x : A) (l : list A) :
  x ∈ datedAt key k l → x ∈ l.
Proof.
  unfold datedAt. rewrite !list_elem_of_In. intros H. by apply filter_In in H as [H _].
Qed.

Lemma elem_of_datedAt_key (x : A) (l : list A) :
  x ∈ l → x ∈ datedAt key (key x) l.
Proof.
  unfold datedAt. rewrite !list_elem_of_In. intros H. apply filter_In.
  split; [done|]. by apply bool_decide_eq_true_2.
Qed.

Lemma datedAt_nil_dated (l : list A) :
  Forall (dated key) l → (∀ k, datedAt key k l = []) → l = [].
Proof.
  destruct l as [|y l]; [done|]. intros _ H. specialize (H (key y)).
  rewrite datedAt_cons, bool_decide_eq_true_2 in H; done.
Qed.

(** two arrangements that are sorted newest first and keep the elements of
    each date in the same order are the same *)
Lemma sorted_stable_unique (l1 l2 : list A) :
  Forall (dated key) l1 → Forall (dated key) l2 →
  StronglySorted (notOlder key) l1 → StronglySorted (notOlder key) l2 →
  (∀ k, datedAt key k l1 = datedAt key k l2) → l1 = l2.
Proof.
  revert l2. induction l1 as [|x l1 IH]; intros l2 Hd1 Hd2 Hs1 Hs2 H.
  - symmetry. apply datedAt_nil_dated; [done|]. intros k. by rewrite <- H.
  - destruct l2 as [|y l2].
    { apply datedAt_nil_dated; [done|]. intros k. by rewrite H. }
    apply Forall_cons in Hd1 as [Hx Hd1]. apply Forall_cons in Hd2 as [Hy Hd2].
    apply StronglySorted_cons in Hs1 as [Hx1 Hs1].
    apply StronglySorted_cons in Hs2 as [Hy2 Hs2].
    assert (Hk : key x = key y).
    { destruct (decide (key x = key y)) as [|Hne]; [done|]. exfalso.
      pose proof (H (key x)) as Ha. pose proof (H (key y)) as Hb.
      rewrite !datedAt_cons in Ha, Hb.
      rewrite bool_decide_eq_true_2 in Ha by done.
      rewrite bool_decide_eq_false_2 in Ha by (by intros ?).
      rewrite bool_decide_eq_false_2 in Hb by done.
      rewrite bool_decide_eq_true_2 in Hb by done.
      assert (Hxin : x ∈ l2).
      { apply (elem_of_datedAt (key x)). rewrite <- Ha. by left. }
      assert (Hyin : y ∈ l1).
      { apply (elem_of_datedAt (key y)). rewrite Hb. by left. }
      rewrite Forall_forall in Hx1, Hy2.
      specialize (Hx1 y Hyin). specialize (Hy2 x Hxin).
      unfold notOlder in Hx1, Hy2.
      destruct (key x) as [kx|], (key y) as [ky|]; try done.
      apply Hne. f_equal. lia. }
    assert (Hxy : x = y).
    { pose proof (H (key x)) as Ha. rewrite !datedAt_cons in Ha.
      rewrite !bool_decide_eq_true_2 in Ha by done. by injection Ha. }
    subst y. f_equal. apply IH; try done.
    intros k. specialize (H k). rewrite !datedAt_cons in H.
    case_bool_decide; [by injection H|done].
Qed.

Lemma sort_determined (l out : list A) :
  Forall (dated key) l → StronglySorted (notOlder key) out →
  (∀ k, datedAt key k out = datedAt key k l) → out = sort (byKey key) l.
Proof.
  intros Hl Hs H.
  assert (Hout : Forall (dated key) out).
  { apply Forall_forall. intros x Hx.
    apply elem_of_datedAt_key in Hx as Hin. rewrite H in Hin. apply elem_of_datedAt in Hin.
    rewrite Forall_forall in Hl. by apply Hl. }
  apply sorted_stable_unique; try done.
  - by rewrite sort_perm.
  - by apply sort_sorted.
  - intros k. by rewrite sort_datedAt.
Qed.

End Determined.

(** X26. What the sort leaves does not depend on the method of sorting.
    When every episode has a date, the sorted array is the only arrangement
    that is in order newest first and keeps the episodes of each date in
    the order they came in: any array with these two properties is the one
    [sort] gives.  The same holds of the items the update sorts. *)
Theorem sorted_feed_is_determined :
  (∀ (episodes out : list Scrape.Episode),
      Forall (dated Scrape.dateObj) episodes →
      StronglySorted (notOlder Scrape.dateObj) out →
      (∀ k, datedAt Scrape.dateObj k out = datedAt Scrape.dateObj k episodes) →
      out = sort Scrape.newestFirst episodes)
  ∧ (∀ (host : Host) (items out : list Update.Item),
      Forall (dated pubKey) items →
      StronglySorted (notOlder pubKey) out →
      (∀ k, datedAt pubKey k out = datedAt pubKey k items) →
      out = sort Update.newestFirst items).
Proof.
  split.
  - intros episodes out. apply (sort_determined Scrape.dateObj).
  - intros host items out. apply (sort_determined pubKey).
Qed.
